(** * Age-grade standards converter: a shallow embedding of
      [tools/convert_standards_to_json.py] and the properties of its helpers.

    The script reads spreadsheet workbooks through pandas and writes JSON.
    What is embedded here are its pure helpers: the two string normalisers,
    the two value transforms, header and age-column detection, sheet
    resolution and the table reshaper; and, on top of them, the workbook
    converter and the batch driver, with what they read from disk as an
    input and what they print and write as a result.

    Conventions of the embedding.
    - A Python [str] is a [string]; a character is a code point below 256
      (Latin-1), with the interpreter's own classification of those code
      points ([str.isspace], [str.isdigit], [str.lower], and the classes
      [\s] and [\d] of the [re] module). Texts with other characters are
      outside the model; the properties stated about digits hold of the
      decimal digits of other scripts as well, which [int], [float] and
      [\d] read like 0-9.
    - A Python [int] is a [Z]; a Python [float] is a primitive binary64
      [float], with the conversions (int to float, decimal text to float)
      rounded to nearest-even as the interpreter does. [int] of a text
      reads at most 4300 digits, the interpreter's default limit.
    - A spreadsheet cell is a value of [cell]: a Python object, or the numpy
      scalar a typed column gives; objects of the date and time classes are
      known by what the script reads from them.
    - A raised exception is the [Err] case of [result]; the payload keeps the
      values the message is formatted from.
    - A [dict] is a [gmap]: the properties below are about keys and entries,
      not about insertion order.
    - A path is an absolute POSIX path, compared component by component as
      [pathlib] does. *)

From Stdlib Require Import ZArith Ascii String Floats.
From Stdlib Require Import DecimalString DecimalPos DecimalZ.
From Stdlib Require Uint63 Zpower.
From stdpp Require Import gmap strings list.

Local Open Scope Z_scope.

(** ** Exceptions and results *)

Inductive result (E A : Type) : Type :=
| Ok (a : A)
| Err (e : E).
Arguments Ok {E A} a.
Arguments Err {E A} e.

#[global] Instance result_ret {E} : MRet (result E) := fun _ a => Ok a.

#[global] Instance result_bind {E} : MBind (result E) := fun _ _ k r =>
  match r with
  | Ok a => k a
  | Err e => Err e
  end.

(** ** Characters *)

Module Chr.

Definition code (c : ascii) : N := N_of_ascii c.

Definition between (lo hi : N) (c : ascii) : bool :=
  ((lo <=? code c) && (code c <=? hi))%N.

(** [str.isspace] and the class [\s]: the same twelve code points. *)
Definition isspace (c : ascii) : bool :=
  between 9 13 c || between 28 32 c || (code c =? 133)%N || (code c =? 160)%N.

(** The class [\d], and what [int] and [float] read as a digit. *)
Definition isdecimal (c : ascii) : bool := between 48 57 c.

(** [str.isdigit] also accepts the superscripts one, two and three. *)
Definition isdigit (c : ascii) : bool :=
  isdecimal c || (code c =? 178)%N || (code c =? 179)%N || (code c =? 185)%N.

(** [str.lower] on one character: A-Z, and the accented capitals
    U+00C0..U+00DE but the multiplication sign U+00D7. *)
Definition lower (c : ascii) : ascii :=
  if between 65 90 c || (between 192 222 c && negb (code c =? 215)%N)
  then ascii_of_N (code c + 32)
  else c.

(** The class [[a-z0-9]]. *)
Definition isalnum_lower (c : ascii) : bool :=
  between 97 122 c || isdecimal c.

Definition digit_value (c : ascii) : Z := Z.of_N (code c) - 48.

End Chr.

(** ** Strings *)

Module Str.

Fixpoint all (p : ascii → bool) (s : string) : bool :=
  match s with
  | EmptyString => true
  | String c s' => p c && all p s'
  end.

Fixpoint map (f : ascii → ascii) (s : string) : string :=
  match s with
  | EmptyString => EmptyString
  | String c s' => String (f c) (map f s')
  end.

Fixpoint filter (p : ascii → bool) (s : string) : string :=
  match s with
  | EmptyString => EmptyString
  | String c s' => if p c then String c (filter p s') else filter p s'
  end.

(** [s.lstrip()], [s.rstrip()] and [s.strip()]. *)
Fixpoint lstrip (s : string) : string :=
  match s with
  | EmptyString => EmptyString
  | String c s' => if Chr.isspace c then lstrip s' else s
  end.

Fixpoint rstrip (s : string) : string :=
  match s with
  | EmptyString => EmptyString
  | String c s' =>
      match rstrip s' with
      | EmptyString => if Chr.isspace c then EmptyString else String c EmptyString
      | t => String c t
      end
  end.

Definition strip (s : string) : string := rstrip (lstrip s).

(** [s.lower()]. *)
Definition lower (s : string) : string := map Chr.lower s.

(** [s.startswith(p)]. *)
Fixpoint startswith (p s : string) : bool :=
  match p, s with
  | EmptyString, _ => true
  | String a p', String b s' => Ascii.eqb a b && startswith p' s'
  | String _ _, EmptyString => false
  end.

(** [p in s]. *)
Fixpoint contains (p s : string) : bool :=
  startswith p s ||
  match s with
  | EmptyString => false
  | String _ s' => contains p s'
  end.

(** [s.isdigit()]: non-empty, every character a digit. *)
Definition isdigit (s : string) : bool :=
  match s with
  | EmptyString => false
  | _ => all Chr.isdigit s
  end.

(** [re.sub(r"\s+", " ", s)]: every maximal run of whitespace becomes one
    space. *)
Fixpoint collapse (in_run : bool) (s : string) : string :=
  match s with
  | EmptyString => EmptyString
  | String c s' =>
      if Chr.isspace c
      then (if in_run then collapse true s' else String " " (collapse true s'))
      else String c (collapse false s')
  end.

Definition collapse_ws (s : string) : string := collapse false s.

End Str.

(** ** The exceptions the script can end with *)

(** One constructor per [raise] of the script and per builtin failure the
    helpers can run into. A formatted message is kept as the values it is
    formatted from. *)
Inductive exn (C : Type) : Type :=
| UnrecognizedTime (x : C)
    (** [ValueError(f"Unrecognized time format: {x!r}")] *)
| NoAgeColumn (cols : list string)
    (** [RuntimeError(f"Could not locate Age column. Columns: {list(cols)}")] *)
| MissingSheets (missing available : list string)
    (** [RuntimeError(f"{path.name}: missing sheets {missing}. Available: {sheets}")] *)
| OverflowError
    (** an [int] too large for a [float], or for a 64-bit column *)
| ValueError
    (** [int] or [float] of a text that is not a number; the truth value of
        a multi-valued selection *)
| TypeError
    (** [int] or [float] of an object that is not a number *)
| PandasError.
    (** a label that selects several columns, or none, where one is needed *)
Arguments UnrecognizedTime {C} x.
Arguments NoAgeColumn {C} cols.
Arguments MissingSheets {C} missing available.
Arguments OverflowError {C}.
Arguments ValueError {C}.
Arguments TypeError {C}.
Arguments PandasError {C}.

(** ** Python's [int] and [float] *)

Module Py.

(** *** Integers and text *)

(** The value of a run of decimal digits, read left to right. *)
Fixpoint digits_value_from (acc : Z) (s : string) : Z :=
  match s with
  | EmptyString => acc
  | String c s' => digits_value_from (10 * acc + Chr.digit_value c) s'
  end.

Definition digits_value (s : string) : Z := digits_value_from 0 s.

Definition starts_with_digit (s : string) : bool :=
  match s with
  | String c _ => Chr.isdecimal c
  | EmptyString => false
  end.

(** The grammar [digit (["_"] digit)*] shared by [int] and [float]: the
    digits of the longest such prefix (underscores dropped) and the rest
    of the text. An empty first component means no digit was read. *)
Fixpoint digitpart (s : string) : string * string :=
  match s with
  | String c s' =>
      if Chr.isdecimal c then
        match s' with
        | String u s'' =>
            if Ascii.eqb u "_" && starts_with_digit s''
            then let '(d, r) := digitpart s'' in (String c d, r)
            else let '(d, r) := digitpart s' in (String c d, r)
        | EmptyString => (String c EmptyString, EmptyString)
        end
      else (EmptyString, s)
  | EmptyString => (EmptyString, EmptyString)
  end.

(** An optional sign: [true] for a minus. *)
Definition sign (s : string) : bool * string :=
  match s with
  | String "-" s' => (true, s')
  | String "+" s' => (false, s')
  | _ => (false, s)
  end.

(** The whitespace [int] and [float] skip around a number: of the twelve
    characters of [str.isspace], all but the separators U+001C..U+001F. *)
Definition isspace (c : ascii) : bool :=
  Chr.isspace c && negb (Chr.between 28 31 c).

Fixpoint lstrip (s : string) : string :=
  match s with
  | EmptyString => EmptyString
  | String c s' => if isspace c then lstrip s' else s
  end.

Fixpoint rstrip (s : string) : string :=
  match s with
  | EmptyString => EmptyString
  | String c s' =>
      match rstrip s' with
      | EmptyString => if isspace c then EmptyString else String c EmptyString
      | t => String c t
      end
  end.

Definition strip (s : string) : string := rstrip (lstrip s).

(** [sys.get_int_max_str_digits()], as the interpreter starts with. *)
Definition max_str_digits : nat := 4300.

(** [int(s)] for a text, base ten: surrounding whitespace, a sign, then
    digits, of which there may be no more than the limit. *)
Definition int_of_str {C} (s : string) : result (exn C) Z :=
  let '(neg, body) := sign (strip s) in
  match digitpart body with
  | (String _ _ as d, EmptyString) =>
      if (max_str_digits <? String.length d)%nat then Err ValueError
      else Ok (if neg then - digits_value d else digits_value d)
  | _ => Err ValueError
  end.

(** [str(z)] for an integer, of no more digits than the limit. *)
Definition str_of_int (z : Z) : string :=
  DecimalString.NilZero.string_of_int (Z.to_int z).

(** *** Floats *)

(** The binary64 nearest to an integer, ties to even; infinite beyond
    the range. *)
Definition Z2float (z : Z) : float :=
  SF2Prim (binary_normalize prec emax z 0 false).

(** [float(z)] for an integer, also the conversion [z + f] applies to its
    left operand: out of range is an error, not an infinity. *)
Definition float_of_int {C} (z : Z) : result (exn C) float :=
  let f := Z2float z in
  if is_infinity f then Err OverflowError else Ok f.

(** The binary64 nearest to the quotient [n / d], ties to even. *)
Definition round_div (neg : bool) (n d : positive) : float :=
  let '(q, e, l) := SFdiv_core_binary prec emax (Zpos n) 0 (Zpos d) 0 in
  SF2Prim (binary_round_aux prec emax neg q e l).

(** The binary64 nearest to [(-1)^neg * m * 10^e]. *)
Definition decimal_to_float (neg : bool) (m e : Z) : float :=
  match m with
  | Zpos p =>
      match e with
      | Zneg k => round_div neg p (10 ^ k)%positive
      | _ => SF2Prim (binary_normalize prec emax
                        (if neg then - (m * 10 ^ e) else m * 10 ^ e) 0 false)
      end
  | _ => if neg then neg_zero else zero
  end.

(** [a / b] for two integers, [b] positive. *)
Definition int_truediv (a : Z) (b : positive) : float :=
  match a with
  | Z0 => zero
  | Zpos p => round_div false p b
  | Zneg p => round_div true p b
  end.

(** The exponent of a float literal: [("e" | "E") [sign] digitpart]. *)
Definition exponent (s : string) : option Z :=
  match s with
  | EmptyString => Some 0
  | String c s' =>
      if Ascii.eqb (Chr.lower c) "e" then
        let '(neg, body) := sign s' in
        match digitpart body with
        | (String _ _ as d, EmptyString) =>
            Some (if neg then - digits_value d else digits_value d)
        | _ => None
        end
      else None
  end.

(** [float(s)] for a text: surrounding whitespace, a sign, then
    [inf], [infinity], [nan] in any case, or
    [([digitpart] "." digitpart | digitpart ["."]) [exponent]]. *)
Definition float_of_str {C} (s : string) : result (exn C) float :=
  let '(neg, body) := sign (strip s) in
  let word := Str.lower body in
  if String.eqb word "inf" || String.eqb word "infinity"
  then Ok (if neg then neg_infinity else infinity)
  else if String.eqb word "nan" then Ok nan
  else
    let '(ip, r1) := digitpart body in
    let '(fp, r2) :=
      match r1 with
      | String "." r => digitpart r
      | _ => (EmptyString, r1)
      end in
    match ip +:+ fp, exponent r2 with
    | String _ _ as ds, Some e =>
        Ok (decimal_to_float neg (digits_value ds) (e - Z.of_nat (String.length fp)))
    | _, _ => Err ValueError
    end.

(** The exact value [m * 2^e] of a finite float is an integer when the
    exponent is not negative or the low bits of [m] are zero. *)
Definition is_integer (f : float) : bool :=
  match Prim2SF f with
  | S754_zero _ => true
  | S754_finite _ m e => (0 <=? e) || (Zpos m mod 2 ^ (- e) =? 0)
  | _ => false
  end.

(** [int(f)]: truncation toward zero; an error for infinities and NaN. *)
Definition int_of_float {C} (f : float) : result (exn C) Z :=
  match Prim2SF f with
  | S754_zero _ => Ok 0
  | S754_finite s m e =>
      let a := if 0 <=? e then Zpos m * 2 ^ e else Zpos m / 2 ^ (- e) in
      Ok (if s then - a else a)
  | S754_infinity _ => Err OverflowError
  | S754_nan => Err ValueError
  end.

End Py.

(** ** The fragment of [re] the script uses *)

Module Re.

(** Patterns: anchors, one character, a greedy run [c+] of a character
    class, sequence, a greedy option [r?] and a numbered group. *)
Inductive regex : Type :=
| Bol
| Eol
| Lit (c : ascii)
| Plus (cls : ascii → bool)
| Seq (r1 r2 : regex)
| Opt (r : regex)
| Group (i : nat) (r : regex).

(** Where the matcher stands: how many characters it has consumed and what
    is left of the subject. *)
Record pos : Type := Pos { idx : nat; rest : string }.

Definition advance (p : pos) (s' : string) : pos := Pos (S (idx p)) s'.

(** The text of each group that took part in the match. *)
Abbreviation captures := (gmap nat string).

(** [$] without [re.MULTILINE]: the end of the subject, or just before a
    newline that ends it. *)
Definition at_eol (s : string) : bool :=
  match s with
  | EmptyString => true
  | String c EmptyString => Ascii.eqb c "010"
  | _ => false
  end.

(** [c+]: the longest run first, giving characters back one at a time
    while the rest of the pattern fails. *)
Fixpoint plus {R} (cls : ascii → bool) (i : nat) (s : string)
    (k : pos → option R) : option R :=
  match s with
  | String c s' =>
      if cls c then
        match plus cls (S i) s' k with
        | Some r => Some r
        | None => k (Pos (S i) s')
        end
      else None
  | EmptyString => None
  end.

(** The backtracking matcher, in continuation-passing style: [k] is the
    rest of the pattern. *)
Fixpoint run (r : regex) (p : pos) (caps : captures)
    (k : pos → captures → option captures) : option captures :=
  match r with
  | Bol => if Nat.eqb (idx p) 0 then k p caps else None
  | Eol => if at_eol (rest p) then k p caps else None
  | Lit c =>
      match rest p with
      | String c' s' => if Ascii.eqb c c' then k (advance p s') caps else None
      | EmptyString => None
      end
  | Plus cls => plus cls (idx p) (rest p) (fun p' => k p' caps)
  | Seq r1 r2 => run r1 p caps (fun p' caps' => run r2 p' caps' k)
  | Opt r1 =>
      match run r1 p caps k with
      | Some m => Some m
      | None => k p caps
      end
  | Group i r1 =>
      run r1 p caps (fun p' caps' =>
        k p' (<[i := String.substring 0 (idx p' - idx p) (rest p)]> caps'))
  end.

(** [pattern.match(s)]: anchored at the start of [s]. *)
Definition match_ (r : regex) (s : string) : option captures :=
  run r (Pos 0 s) ∅ (fun _ caps => Some caps).

(** [m.group(i)]: [None] for a group that took no part. *)
Definition group (m : captures) (i : nat) : option string := m !! i.

End Re.

(** [TIME_RE = re.compile(r"^(?:(\d+):)?(\d+):(\d+(?:\.\d+)?)$")] *)
Definition TIME_RE : Re.regex :=
  Re.Seq Re.Bol
    (Re.Seq (Re.Opt (Re.Seq (Re.Group 1 (Re.Plus Chr.isdecimal)) (Re.Lit ":")))
       (Re.Seq (Re.Group 2 (Re.Plus Chr.isdecimal))
          (Re.Seq (Re.Lit ":")
             (Re.Seq
                (Re.Group 3
                   (Re.Seq (Re.Plus Chr.isdecimal)
                      (Re.Opt (Re.Seq (Re.Lit ".") (Re.Plus Chr.isdecimal)))))
                Re.Eol)))).

(** [normalize]: [re.sub(r"\s+", " ", str(s).strip())] *)
Definition normalize (s : string) : string :=
  Str.collapse_ws (Str.strip s).

(** [normalize_key]: [re.sub(r"[^a-z0-9]+", "", str(s).strip().lower())];
    deleting every run of other characters keeps exactly the characters of
    the class. *)
Definition normalize_key (s : string) : string :=
  Str.filter Chr.isalnum_lower (Str.lower (Str.strip s)).

(** ** Cells *)

Definition in_range (lo hi z : Z) : bool := (lo <=? z) && (z <? hi).

(** The fields the script reads of a [datetime.time] or a
    [datetime.datetime], within the ranges those classes enforce. *)
Record pytime : Type := Time {
  hour : Z;
  minute : Z;
  second : Z;
  microsecond : Z;
  time_ok :
    in_range 0 24 hour && in_range 0 60 minute && in_range 0 60 second
    && in_range 0 1000000 microsecond = true
}.

(** A scalar read from a spreadsheet. The objects of the pandas and
    [datetime] classes carry what the script observes of them. A column of
    a numpy dtype gives numpy scalars: [numpy.float64] is a subclass of
    [float], the numpy integers are no subclass of [int]. A float of an
    object column is a [CFloat]. *)
Inductive cell : Type :=
| CNa                                    (** [None], [NaT], [pd.NA] *)
| CPdTimedelta (total_seconds : float)   (** [pd.Timedelta] *)
| CPdTimestamp (since_midnight : float)
    (** [pd.Timestamp], with [(x - x.normalize()).total_seconds()] *)
| CTime (t : pytime)                     (** [datetime.time] *)
| CDatetime (t : pytime)                 (** [datetime.datetime] *)
| CTimedelta (total_seconds : float)     (** [datetime.timedelta] *)
| CBool (b : bool)
| CInt (z : Z)
| CFloat (f : float)
| CStr (s : string)
| CNpInt64 (z : Z)                       (** [numpy.int64] *)
| CNpUInt64 (z : Z)                      (** [numpy.uint64] *)
| CNpFloat64 (f : float).                (** [numpy.float64], of a float64 column *)

(** What [row[label]] is: one cell, or every cell under the label when the
    label is not unique in the table (a pandas [Series]). *)
Inductive value : Type :=
| Scalar (c : cell)
| Several (cs : list cell).

Abbreviation error := (exn cell).

(** What the transforms return: [None], an [int] or a [float]. *)
Inductive number : Type :=
| JNull
| JInt (z : Z)
| JFloat (f : float).

(** [pd.isna(x)] on a scalar: the missing markers and NaN. *)
Definition isna (c : cell) : bool :=
  match c with
  | CNa => true
  | CFloat f | CNpFloat64 f => is_nan f
  | _ => false
  end.

(** [if pd.isna(x):] on a [Series] has no truth value and raises. *)
Definition isna_truth (x : value) : result error bool :=
  match x with
  | Scalar c => Ok (isna c)
  | Several _ => Err ValueError
  end.

(** [isinstance(x, (int, float))]; [bool] is a subclass of [int] and
    [numpy.float64] one of [float]. *)
Definition is_number (c : cell) : bool :=
  match c with
  | CBool _ | CInt _ | CFloat _ | CNpFloat64 _ => true
  | _ => false
  end.

(** [float(x)]; a 64-bit integer is within the range of a float. *)
Definition py_float (c : cell) : result error float :=
  match c with
  | CFloat f | CNpFloat64 f => Ok f
  | CInt z => Py.float_of_int z
  | CNpInt64 z | CNpUInt64 z => Ok (Py.Z2float z)
  | CBool b => Ok (if b then one else zero)
  | CStr s => Py.float_of_str s
  | _ => Err TypeError
  end.

(** [z + f] with an [int] on the left: the integer is converted first. *)
Definition int_add_float (z : Z) (f : float) : result error float :=
  v ← Py.float_of_int z; Ok (v + f)%float.

(** ** The value transforms *)

(** [num_to_int_if_whole] *)
Definition num_to_int_if_whole (x : value) : result error number :=
  na ← isna_truth x;
  if na : bool then Ok JNull else
  match x with
  | Scalar c =>
      v ← py_float c;
      if Py.is_integer v
      then z ← Py.int_of_float v; Ok (JInt z)
      else Ok (JFloat v)
  | Several _ => Err TypeError
  end.

(** [x.hour * 3600 + x.minute * 60 + x.second + x.microsecond / 1_000_000] *)
Definition time_of_day_seconds (t : pytime) : result error float :=
  int_add_float (hour t * 3600 + minute t * 60 + second t)
                (Py.int_truediv (microsecond t) 1000000).

(** [int(m.group(1) or 0)] *)
Definition int_of_group_or_0 (g : option string) : result error Z :=
  match g with
  | None | Some EmptyString => Ok 0
  | Some s => Py.int_of_str s
  end.

(** [int(m.group(i))] and [float(m.group(i))] *)
Definition int_of_group (g : option string) : result error Z :=
  match g with
  | Some s => Py.int_of_str s
  | None => Err TypeError
  end.

Definition float_of_group (g : option string) : result error float :=
  match g with
  | Some s => Py.float_of_str s
  | None => Err TypeError
  end.

(** [str(x)] of what gets past the [isinstance] tests of [hms_to_seconds]:
    a text, or a numpy integer, whose text is its decimal form. *)
Definition text_of (c : cell) : option string :=
  match c with
  | CStr s => Some s
  | CNpInt64 z | CNpUInt64 z => Some (Py.str_of_int z)
  | _ => None
  end.

(** [hms_to_seconds]. The [isinstance] tests are tried in the order of the
    script; [float(x)] is evaluated once. *)
Definition hms_to_seconds (x : value) : result error number :=
  na ← isna_truth x;
  if na : bool then Ok JNull else
  match x with
  | Scalar (CPdTimedelta total) => Ok (JFloat total)
  | Scalar (CPdTimestamp since_midnight) => Ok (JFloat since_midnight)
  | Scalar (CTime t) => v ← time_of_day_seconds t; Ok (JFloat v)
  | Scalar (CDatetime t) => v ← time_of_day_seconds t; Ok (JFloat v)
  | Scalar (CTimedelta total) => Ok (JFloat total)
  | Scalar ((CBool _ | CInt _ | CFloat _ | CNpFloat64 _) as c) =>
      v ← py_float c;
      if ((0 <? v) && (v <=? 1))%float
      then Ok (JFloat (v * 86400)%float)
      else Ok (JFloat v)
  | Scalar c =>
      match text_of c with
      | Some s =>
          match Re.match_ TIME_RE (Str.strip s) with
          | None => Err (UnrecognizedTime c)
          | Some m =>
              h ← int_of_group_or_0 (Re.group m 1);
              mm ← int_of_group (Re.group m 2);
              ss ← float_of_group (Re.group m 3);
              v ← int_add_float (h * 3600 + mm * 60) ss;
              Ok (JFloat v)
          end
      | None => Err TypeError
      end
  | Several _ => Err TypeError
  end.

(** ** Age-column detection *)

(** The test of the first loop of [find_age_col]. *)
Definition is_age_header (c : string) : bool :=
  let cl := Str.lower (Str.strip c) in
  String.eqb cl "age" || Str.startswith "age " cl || Str.startswith "age(" cl
  || Str.startswith "age/" cl || Str.startswith "age-" cl.

(** The test of its second loop. *)
Definition mentions_age (c : string) : bool :=
  Str.contains "age" (Str.lower c).

(** [find_age_col]: each [for ... if ...: return c] is a search for the
    first hit. *)
Definition find_age_col (cols : list string) : result error string :=
  match List.find is_age_header cols with
  | Some c => Ok c
  | None =>
      match List.find mentions_age cols with
      | Some c => Ok c
      | None => Err (NoAgeColumn cols)
      end
  end.

(** ** Sheet resolution *)

(** The mapping [choose_sheets] returns. *)
Record sheet_roles : Type := Roles {
  factors : string;
  sec : string;
  hms : string
}.

(** Python's truth value of [str | None]. *)
Definition truthy (o : option string) : bool :=
  match o with
  | Some (String _ _) => true
  | _ => false
  end.

(** [{normalize_key(s): s for s in sheets}]: a later sheet replaces an
    earlier one with the same key. *)
Definition by_norm (sheets : list string) : gmap string string :=
  foldl (fun m s => <[normalize_key s := s]> m) ∅ sheets.

(** The inner function [pick] of [choose_sheets]. *)
Fixpoint pick (by_norm : gmap string string) (candidates_norm : list string)
    : option string :=
  match candidates_norm with
  | [] => None
  | k :: ks =>
      match by_norm !! k with
      | Some s => Some s
      | None => pick by_norm ks
      end
  end.

(** [if not v: for s in sheets: if word in s.lower(): v = s; break] *)
Definition last_resort (word : string) (sheets : list string)
    (v : option string) : option string :=
  if truthy v then v
  else
    match List.find (fun s => Str.contains word (Str.lower s)) sheets with
    | Some s => Some s
    | None => v
    end.

Definition factors_aliases : list string :=
  [normalize_key "AgeStdFactors"; normalize_key "Age Factors";
   normalize_key "Age factors"; normalize_key "Age Facctors"].

Definition sec_aliases : list string :=
  [normalize_key "AgeStdSec"; normalize_key "AgeStanSec"].

Definition hms_aliases : list string :=
  [normalize_key "AgeStdHMS"; normalize_key "AgeStanHMS"].

(** [choose_sheets], from the sheet names of the workbook. *)
Definition choose_sheets (sheets : list string) : result error sheet_roles :=
  let m := by_norm sheets in
  let factors := last_resort "factor" sheets (pick m factors_aliases) in
  let sec := last_resort "sec" sheets (pick m sec_aliases) in
  let hms := last_resort "hms" sheets (pick m hms_aliases) in
  let missing :=
    List.map fst
      (List.filter (fun kv => negb (truthy (snd kv)))
         [("factors", factors); ("sec", sec); ("hms", hms)]) in
  match missing, factors, sec, hms with
  | [], Some f, Some s, Some h => Ok (Roles f s h)
  | _, _, _, _ => Err (MissingSheets missing sheets)
  end.

(** ** Tables *)

(** A pandas [DataFrame]: the column labels and, for each row, one cell per
    column. A column of a numpy dtype holds the scalars of that dtype and no
    others ([CNpFloat64] for float64, [CNpInt64] for int64); every other
    column is an object column. The age column is held as stored; the
    other columns as the row iteration of the reshaper hands them to the
    value transform, beside an integer age. *)
Record dataframe : Type := DataFrame {
  columns : list string;
  rows : list (list cell)
}.

(** One row of a table, a pandas [Series]: each cell under its label. *)
Abbreviation series := (list (string * cell)).

Definition row_series (cols : list string) (row : list cell) : series :=
  zip cols row.

(** [row[label]]: the cell under the label, or all of them when the label
    is not unique. *)
Definition getitem (row : series) (label : string) : value :=
  match List.filter (fun lc => String.eqb (fst lc) label) row with
  | [(_, c)] => Scalar c
  | lcs => Several (List.map snd lcs)
  end.

(** [df[labels]] on one row: for each label in turn, every column that
    carries it. *)
Definition project (labels : list string) (row : series) : series :=
  List.flat_map
    (fun l => List.filter (fun lc => String.eqb (fst lc) l) row) labels.

(** [int(x)] *)
Definition py_int (x : value) : result error Z :=
  match x with
  | Scalar (CInt z | CNpInt64 z | CNpUInt64 z) => Ok z
  | Scalar (CBool b) => Ok (if b then 1 else 0)
  | Scalar (CFloat f | CNpFloat64 f) => Py.int_of_float f
  | Scalar (CStr s) => Py.int_of_str s
  | _ => Err TypeError
  end.

(** The 64-bit integer with the low 64 bits of [z], in two's complement. *)
Definition wrap64 (z : Z) : Z := (z + 2 ^ 63) mod 2 ^ 64 - 2 ^ 63.

(** [astype(int)] on one element of the column, on a platform whose [int]
    column is 64 bits wide. Of an integer column: numpy's cast, which keeps
    the bits, so that an unsigned integer from [2**63] on comes out
    negative. Of an object column: [int(x)], which has to fit 64 bits. (A
    float column has no cell that passes the age test: the text of a float
    is no run of digits.) *)
Definition astype_int (c : cell) : result error Z :=
  match c with
  | CNpInt64 z | CNpUInt64 z => Ok (wrap64 z)
  | _ =>
      z ← py_int (Scalar c);
      if in_range (- 2 ^ 63) (2 ^ 63) z then Ok z else Err OverflowError
  end.

(** [for x in l] with a body that may raise: stop at the first error. *)
Fixpoint for_each {A B} (body : A → result error B) (l : list A)
    : result error (list B) :=
  match l with
  | [] => Ok []
  | a :: l' => b ← body a; bs ← for_each body l'; Ok (b :: bs)
  end.

Section Tables.

(** [str(x)] of a float, of a missing marker and of the date and time
    objects is the interpreter's and pandas' formatting, which is not part
    of the script; [obj_str] stands for it. *)
Variable obj_str : cell → string.

(** [str(x)] *)
Definition py_str (c : cell) : string :=
  match c with
  | CStr s => s
  | CInt z | CNpInt64 z | CNpUInt64 z => Py.str_of_int z
  | CBool b => if b then "True" else "False"
  | _ => obj_str c
  end.

(** *** Header detection *)

(** [any(v == needle or v.startswith(needle) for v in row.values)] on
    [row = raw_df.iloc[r].astype(str).str.strip().str.lower()] *)
Definition row_has (needle : string) (row : list cell) : bool :=
  existsb
    (fun c =>
       let v := Str.lower (Str.strip (py_str c)) in
       String.eqb v needle || Str.startswith needle v)
    row.

(** [find_header_row] *)
Definition find_header_row (raw_df : list (list cell))
    (needle : string) (max_rows : nat) : option nat :=
  List.find
    (fun r =>
       match raw_df !! r with
       | Some row => row_has needle row
       | None => false
       end)
    (seq 0 (min max_rows (length raw_df))).

(** [hdr = find_header_row(raw, needle="age") or 0], with the default
    [max_rows=50]. *)
Definition detected_header (raw : list (list cell)) : nat :=
  match find_header_row raw "age" 50 with
  | Some (S r) => S r
  | _ => 0%nat
  end.

(** [read_sheet_with_detected_header]. [raw] is the sheet as read with
    [header=None]; [read_excel hdr] is pandas' second reading with
    [header=hdr]: the labels it finds in that row and the rows below. *)
Definition read_sheet_with_detected_header (raw : list (list cell))
    (read_excel : nat → list cell * list (list cell)) : dataframe :=
  let hdr := detected_header raw in
  let '(labels, body) := read_excel hdr in
  DataFrame (List.map (fun c => normalize (py_str c)) labels) body.

(** *** The table reshaper *)

(** [lambda x: pd.notna(x) and str(x).strip().isdigit()] *)
Definition is_numeric_age (x : cell) : bool :=
  negb (isna x) && Str.isdigit (Str.strip (py_str x)).

(** The row mask [df[age_col].apply(...)], for a label that selects one
    column. *)
Definition keep_row (age_col : string) (row : series) : bool :=
  match getitem row age_col with
  | Scalar x => is_numeric_age x
  | Several _ => false
  end.

(** [df[age_col] = df[age_col].astype(int)] on one row. *)
Definition set_age (age_col : string) (row : series) : result error series :=
  for_each
    (fun lc : string * cell =>
       if String.eqb (fst lc) age_col
       then z ← astype_int (snd lc); Ok (fst lc, CInt z)
       else Ok lc)
    row.

(** [dropna(subset=[age_col])] on one row. *)
Definition has_age (age_col : string) (row : series) : bool :=
  match getitem row age_col with
  | Scalar x => negb (isna x)
  | Several cs => forallb (fun x => negb (isna x)) cs
  end.

(** The table after [df = df[df[age_col].apply(...)].copy()] and
    [df[age_col] = df[age_col].astype(int)]: the rows that pass the age
    test, in order, the age cell now an integer. *)
Definition typed_rows (age_col : string) (df : dataframe)
    : result error (list series) :=
  for_each (set_age age_col)
    (List.filter (keep_row age_col)
       (List.map (row_series (columns df)) (rows df))).

(** [events = [c for c in df.columns if c != age_col]] *)
Definition events_of (age_col : string) (df : dataframe) : list string :=
  List.filter (fun c => negb (String.eqb c age_col)) (columns df).

Section Reshape.

Context {V : Type}.
Variable value_parser : value → result error V.
Variable age_col : string.

(** [for _, row in ...: age = int(row[age_col]); v = row[event];
    mapping[str(age)] = value_parser(v)], over the rows handed over. *)
Fixpoint fill_mapping (event : string) (col : list series)
    (mapping : gmap string V) : result error (gmap string V) :=
  match col with
  | [] => Ok mapping
  | row :: col' =>
      age ← py_int (getitem row age_col);
      r ← value_parser (getitem row event);
      fill_mapping event col' (<[Py.str_of_int age := r]> mapping)
  end.

(** The integer age as a float64 row holds it. *)
Definition to_float64 (lc : string * cell) : string * cell :=
  match lc with
  | (l, CInt z) => if String.eqb l age_col then (l, CNpFloat64 (Py.Z2float z)) else lc
  | _ => lc
  end.

(** Beside the age, the row holds float64 cells only. *)
Definition float64_beside (row : series) : bool :=
  forallb
    (fun lc : string * cell =>
       String.eqb (fst lc) age_col
       || match snd lc with CNpFloat64 _ => true | _ => false end)
    row.

(** [col.iterrows()]. pandas builds each row over the common dtype of the
    columns of [col]: beside a float64 event column that is float64, and
    the integer age is handed over as the float nearest to it. *)
Definition iterrows (col : list series) : list series :=
  if forallb float64_beside col
  then List.map (List.map to_float64) col
  else col.

(** The body of the loop over the events, up to its last line: the
    [mapping] of one event. *)
Definition event_mapping (df : list series) (event : string)
    : result error (gmap string V) :=
  let col :=
    List.filter (has_age age_col) (List.map (project [age_col; event]) df) in
  fill_mapping event (iterrows col) ∅.

(** [for event in events: ...; out[normalize(event)] = mapping] *)
Fixpoint fill_out (df : list series) (events : list string)
    (out : gmap string (gmap string V))
    : result error (gmap string (gmap string V)) :=
  match events with
  | [] => Ok out
  | event :: events' =>
      mapping ← event_mapping df event;
      fill_out df events' (<[normalize event := mapping]> out)
  end.

End Reshape.

(** [df_to_age_event_map]. A label that names more than one column cannot
    be the age column: the row mask of the first statement is then a table,
    and the assignment of the second statement fails. On a table without
    rows the mask is empty and not a boolean one: pandas reads it as a
    selection of no column, and [df[age_col]] fails. *)
Definition df_to_age_event_map {V} (df : dataframe)
    (value_parser : value → result error V)
    : result error (list Z * list string * gmap string (gmap string V)) :=
  age_col ← find_age_col (columns df);
  if negb (Nat.eqb (count_occ string_dec (columns df) age_col) 1)
  then Err PandasError
  else if Nat.eqb (length (rows df)) 0
  then Err PandasError
  else
    typed ← typed_rows age_col df;
    ages ← for_each (fun row => py_int (getitem row age_col)) typed;
    let events := events_of age_col df in
    out ← fill_out value_parser age_col typed events ∅;
    Ok (ages, List.map normalize events, out).

End Tables.

(** ** Paths *)

Module Pathlib.

(** An absolute POSIX path as [pathlib] holds it: the directories below the
    root, and the final component. *)
Record path : Type := Path {
  dirs : list string;
  name : string
}.

(** [path.parent.name]; the name of the root is empty. *)
Definition parent_name (p : path) : string := List.last (dirs p) "".

(** The components, in order; [str(path)] and [path.as_posix()] write each
    one after a slash. *)
Definition parts (p : path) : list string := dirs p ++ [name p].

Definition as_posix (p : path) : string :=
  foldr (fun d s => "/" +:+ d +:+ s) "" (parts p).

(** [s.rfind(c)] *)
Fixpoint rfind (c : ascii) (s : string) : option nat :=
  match s with
  | EmptyString => None
  | String a s' =>
      match rfind c s' with
      | Some i => Some (S i)
      | None => if Ascii.eqb a c then Some 0%nat else None
      end
  end.

(** [path.suffix]: from the last dot of the name on, unless that dot is the
    first or the last character. *)
Definition suffix (p : path) : string :=
  let n := name p in
  match rfind "." n with
  | Some i =>
      if (0 <? i)%nat && (i <? String.length n - 1)%nat
      then String.substring i (String.length n - i) n
      else EmptyString
  | None => EmptyString
  end.

(** [path.with_suffix(suffix)] *)
Definition with_suffix (p : path) (sfx : string) : result error path :=
  if Str.contains "/" sfx then Err ValueError
  else if match sfx with
          | EmptyString => false
          | String c r => negb (Ascii.eqb c ".") || String.eqb r EmptyString
          end
  then Err ValueError
  else
    match name p with
    | EmptyString => Err ValueError
    | n =>
        let old_suffix := suffix p in
        Ok (Path (dirs p)
              match old_suffix with
              | EmptyString => n +:+ sfx
              | _ =>
                  String.substring 0
                    (String.length n - String.length old_suffix) n +:+ sfx
              end)
    end.

(** [a < b] on lists of components: the first components that differ
    decide, and a proper prefix comes first. *)
Fixpoint parts_lt (a b : list string) : bool :=
  match a, b with
  | [], [] => false
  | [], _ :: _ => true
  | _ :: _, [] => false
  | x :: a', y :: b' => if String.eqb x y then parts_lt a' b' else String.ltb x y
  end.

(** [p < q] on paths compares their components. *)
Definition lt (p q : path) : bool := parts_lt (parts p) (parts q).

(** [sorted(files)]: ascending and stable. *)
Fixpoint insert (p : path) (l : list path) : list path :=
  match l with
  | [] => [p]
  | q :: l' => if lt p q then p :: l else q :: insert p l'
  end.

Definition sorted (l : list path) : list path :=
  foldl (fun acc p => insert p acc) [] l.

End Pathlib.

(** ** The workbook converter *)

(** [int(year) if year.isdigit() else year]: an [int] or the text. *)
Inductive year_value : Type :=
| YearInt (z : Z)
| YearStr (s : string).

Definition meta_year (year : string) : result error year_value :=
  if Str.isdigit year
  then z ← Py.int_of_str year; Ok (YearInt z)
  else Ok (YearStr year).

(** ["F" if "female" in path.name.lower() else "M"] *)
Definition meta_sex (name : string) : string :=
  if Str.contains "female" (Str.lower name) then "F" else "M".

(** One table of the output document: its ages, its event names and its
    age-event map ([standards_seconds] or [factors]). *)
Record table : Type := Table {
  table_ages : list Z;
  table_events : list string;
  table_map : gmap string (gmap string number)
}.

Record meta : Type := Meta {
  category : string;
  year : year_value;
  sex : string;
  source_file : string;
  sheets_used : sheet_roles
}.

(** The document [convert_one] serialises. *)
Record document : Type := Document {
  doc_meta : meta;
  AgeStdSec : table;
  AgeStdHMS : table;
  AgeStdFactors : table
}.

(** What pandas reads from a workbook file: the sheet names, each sheet
    without a header ([header=None]), and each sheet with the header at a
    given row: the labels of that row and the rows below it. *)
Record workbook : Type := Workbook {
  sheet_names : list string;
  raw_sheet : string → list (list cell);
  headed_sheet : string → nat → list cell * list (list cell)
}.

(** What the batch driver prints, and how it ends when it does not end
    normally: [SystemExit] without input files, or the exception of the
    failed conversion raised again. *)
Inductive line : Type :=
| Found (n : nat)                          (** [Found {n} files.] *)
| OkLine (p_name out_name : string)        (** [OK  {p.name}  ->  {out.name}] *)
| FailLine (p : Pathlib.path) (e : error). (** [FAIL {p} : {e}] *)

Inductive exit : Type :=
| NoRoadStdFiles
| Raised (e : error).

(** A run of the driver: the lines printed, the files written, in order,
    and the way it ended. *)
Record run : Type := Run {
  printed : list line;
  written : list (Pathlib.path * document);
  outcome : result exit unit
}.

Section Converter.

Variable obj_str : cell → string.

(** The workbook files on disk. *)
Variable open_workbook : Pathlib.path → workbook.

(** [df_to_age_event_map] and the unpacking of its result. *)
Definition table_of (df : dataframe) (value_parser : value → result error number)
    : result error table :=
  r ← df_to_age_event_map obj_str df value_parser;
  Ok (Table r.1.1 r.1.2 r.2).

(** [convert_one], up to the document and the path it is written to. *)
Definition convert_one (path : Pathlib.path)
    : result error (Pathlib.path * document) :=
  let wb := open_workbook path in
  let year := Pathlib.parent_name path in
  let sex := meta_sex (Pathlib.name path) in
  sheets ← choose_sheets (sheet_names wb);
  let read sheet :=
    read_sheet_with_detected_header obj_str (raw_sheet wb sheet)
      (headed_sheet wb sheet) in
  let df_factors := read (factors sheets) in
  let df_sec := read (sec sheets) in
  let df_hms := read (hms sheets) in
  t_sec ← table_of df_sec num_to_int_if_whole;
  t_hms ← table_of df_hms hms_to_seconds;
  t_fac ← table_of df_factors num_to_int_if_whole;
  y ← meta_year year;
  let out :=
    Document (Meta "road" y sex (Pathlib.as_posix path) sheets)
      t_sec t_hms t_fac in
  out_path ← Pathlib.with_suffix path ".json";
  Ok (out_path, out).

(** The loop of [main]: convert each file in turn; the first failure is
    reported and raised again. *)
Fixpoint convert_each (files : list Pathlib.path) : run :=
  match files with
  | [] => Run [] [] (Ok tt)
  | p :: files' =>
      match convert_one p with
      | Ok (out, doc) =>
          let r := convert_each files' in
          Run (OkLine (Pathlib.name p) (Pathlib.name out) :: printed r)
            ((out, doc) :: written r) (outcome r)
      | Err e => Run [FailLine p e] [] (Err (Raised e))
      end
  end.

(** The test [main] keeps a file by. *)
Definition is_roadstd (p : Pathlib.path) : bool :=
  Str.contains "roadstd" (Str.lower (Pathlib.name p)).

(** [main], from what the two searches of the standards directory yield. *)
Definition main (xls xlsx : list Pathlib.path) : run :=
  let files := List.filter is_roadstd (xls ++ xlsx) in
  match files with
  | [] => Run [] [] (Err NoRoadStdFiles)
  | _ =>
      let r := convert_each (Pathlib.sorted files) in
      Run (Found (length files) :: printed r) (written r) (outcome r)
  end.

End Converter.

(** * Specification *)

(** The notions the properties are stated with, in the words of the
    specification. *)

(** ** Age-column detection *)

(** The spec's two tests on a column name, in its own words. *)
Definition AgeHeader (c : string) : Prop :=
  let cl := Str.lower (Str.strip c) in
  cl = "age" ∨
  ∃ sep rest, sep ∈ [" "; "("; "/"; "-"]%char ∧ cl = "age" +:+ String sep rest.

Definition MentionsAge (c : string) : Prop :=
  ∃ a b, Str.lower c = a +:+ "age" +:+ b.

(** ** Header detection *)

(** A row has a cell that, as text, stripped and lower-cased, is "age" or
    starts with "age". *)
Definition RowHasAge (obj_str : cell → string) (row : list cell) : Prop :=
  ∃ c, c ∈ row ∧
    let v := Str.lower (Str.strip (py_str obj_str c)) in
    v = "age" ∨ ∃ rest, v = "age" +:+ rest.

Definition HeaderAt (obj_str : cell → string) (raw : list (list cell))
    (r : nat) : Prop :=
  ∃ row, raw !! r = Some row ∧ RowHasAge obj_str row.

(** ** Sheet resolution *)

(** [o] is the first element of [l] that satisfies [P], if there is one. *)
Definition FirstSuch {A} (P : A → Prop) (l : list A) (o : option A) : Prop :=
  match o with
  | Some x => ∃ before after,
      l = before ++ x :: after ∧ Forall (λ y, ¬ P y) before ∧ P x
  | None => Forall (λ y, ¬ P y) l
  end.

(** The normalization of the spec: the name in lower case, without its
    characters other than the letters a-z and the digits 0-9. *)
Definition lowercase_alnum (s : string) : string :=
  Str.filter (λ c, Chr.between 97 122 c || Chr.between 48 57 c) (Str.lower s).

(** An alias matches a sheet when the two have the same normalized form. *)
Definition AliasOf (sheets : list string) (a : string) : Prop :=
  ∃ s, s ∈ sheets ∧ lowercase_alnum s = lowercase_alnum a.

(** The rule of the spec for one role: the first alias that matches a
    sheet wins, and names such a sheet; when no alias does, the first sheet
    whose lower-cased name contains [word]. *)
Definition Resolves (aliases : list string) (word : string)
    (sheets : list string) (o : option string) : Prop :=
  (∃ a s,
      FirstSuch (AliasOf sheets) aliases (Some a)
      ∧ o = Some s ∧ s ∈ sheets ∧ lowercase_alnum s = lowercase_alnum a)
  ∨ (FirstSuch (AliasOf sheets) aliases None
     ∧ FirstSuch (λ s, ∃ a b, Str.lower s = a +:+ word +:+ b) sheets o).

(** The aliases of the three roles, as the script spells them. *)
Definition factors_names : list string :=
  ["AgeStdFactors"; "Age Factors"; "Age factors"; "Age Facctors"].

Definition sec_names : list string := ["AgeStdSec"; "AgeStanSec"].

Definition hms_names : list string := ["AgeStdHMS"; "AgeStanHMS"].

(** The roles left without a sheet, in the order the script lists them. *)
Definition missing_roles (f s h : option string) : list string :=
  (if f is Some _ then [] else ["factors"])
  ++ (if s is Some _ then [] else ["sec"])
  ++ (if h is Some _ then [] else ["hms"]).

(** ** The value of a float *)

(** The exact value of [f], [(-1)^s * m * 2^e], is the integer [z]. *)
Definition IsValue (f : float) (z : Z) : Prop :=
  match Prim2SF f with
  | S754_zero _ => z = 0
  | S754_finite s m e =>
      (if s then Z.neg m else Z.pos m) * 2 ^ Z.max e 0 = z * 2 ^ Z.max (- e) 0
  | _ => False
  end.

(** ** Time texts *)

(** A non-empty run of decimal digits. *)
Definition Digits (d : string) : Prop :=
  d ≠ "" ∧ Str.all Chr.isdecimal d = true.

(** The seconds part [SS[.fff]]. *)
Definition SecText (sec : string) : Prop :=
  Digits sec ∨ ∃ d f, Digits d ∧ Digits f ∧ sec = d +:+ "." +:+ f.

(** A text of the form [[H:]MM:SS[.fff]], with its parts. *)
Definition TimeText (oh : option string) (mm sec s : string) : Prop :=
  Digits mm ∧ SecText sec ∧
  match oh with
  | Some h => Digits h ∧ s = h +:+ ":" +:+ mm +:+ ":" +:+ sec
  | None => s = mm +:+ ":" +:+ sec
  end.

(** The groups a match of [TIME_RE] binds. *)
Definition time_groups (oh : option string) (mm sec : string) : gmap nat string :=
  <[3%nat := sec]>
    (<[2%nat := mm]> (if oh is Some h then <[1%nat := h]> ∅ else ∅)).

(** The hours of a time text: 0 without an hours group. *)
Definition hours_value (oh : option string) : Z :=
  if oh is Some h then Py.digits_value h else 0.

(** The integer part [H*3600 + MM*60] of the sum. *)
Definition whole_seconds (oh : option string) (mm : string) : Z :=
  hours_value oh * 3600 + Py.digits_value mm * 60.

(** The seconds of a time text: [float(SS)]. *)
Definition seconds_value (sec : string) : float :=
  if Py.float_of_str (C:=cell) sec is Ok f then f else nan.

(** A run of digits that [int] reads: within the limit on its length. *)
Definition Readable (d : string) : Prop :=
  (String.length d ≤ Py.max_str_digits)%nat.

(** The hours and minutes of a time text are both within the limit. *)
Definition GroupsReadable (oh : option string) (mm : string) : Prop :=
  (∀ h, oh = Some h → Readable h) ∧ Readable mm.

(** The date and time classes the transform recognises. *)
Definition is_time_object (c : cell) : bool :=
  match c with
  | CPdTimedelta _ | CPdTimestamp _ | CTime _ | CDatetime _ | CTimedelta _ => true
  | _ => false
  end.

(** A numeric value: a number of the interpreter or of numpy. *)
Definition is_numeric (c : cell) : bool :=
  match c with
  | CBool _ | CInt _ | CFloat _ | CNpInt64 _ | CNpUInt64 _ | CNpFloat64 _ => true
  | _ => false
  end.

(** A numpy integer. *)
Definition is_numpy_int (c : cell) : bool :=
  match c with
  | CNpInt64 _ | CNpUInt64 _ => true
  | _ => false
  end.




(** ** Times of day *)

(** The whole seconds since midnight of a time of day. *)
Definition seconds_of_day (t : pytime) : Z :=
  hour t * 3600 + minute t * 60 + second t.

(** ** Normalized names *)

(** A text in the form [normalize] produces: it does not start with
    whitespace, and every whitespace character in it is a space that a
    character other than whitespace follows. *)
Definition Normalized (s : string) : Prop :=
  (∀ c r, s = String c r → Chr.isspace c = false)
  ∧ ∀ a c b, s = a +:+ String c b → Chr.isspace c = true →
      c = " "%char ∧ ∃ d b', b = String d b' ∧ Chr.isspace d = false.

(** A sheet of the workbook has the normalized name [a]. *)
Definition Matched (sheets : list string) (a : string) : Prop :=
  ∃ s, s ∈ sheets ∧ normalize_key s = a.

(** ** Ages *)

(** An integer that a float holds exactly: [int(float(z)) == z]. *)
Definition FloatExact (z : Z) : Prop :=
  Py.int_of_float (C:=cell) (Py.Z2float z) = Ok z.

(** ** Rows and lines *)

(** The rows of a table that pass the age test, each under its labels. *)
Definition kept_rows (obj_str : cell → string) (age_col : string)
    (df : dataframe) : list series :=
  List.filter (keep_row obj_str age_col)
    (List.map (row_series (columns df)) (rows df)).

(** The age of a row after [astype(int)]. *)
Definition row_age (age_col : string) (row : series) : result error Z :=
  match getitem row age_col with
  | Scalar x => astype_int x
  | Several _ => Err PandasError
  end.

(** The line printed for a converted file. *)
Definition ok_line (p : Pathlib.path) (od : Pathlib.path * document) : line :=
  OkLine (Pathlib.name p) (Pathlib.name od.1).

(** ** Sample inputs *)

(** A run of [n] zeros, to write large numbers down. *)
Definition zeros (n : nat) : string :=
  String.string_of_list_ascii (replicate n "0"%char).

(** A stand-in for the text of the objects whose formatting the script
    leaves to the interpreter; the sample tables only have text and floats. *)
Definition sample_str (c : cell) : string := "nan".

(** A table that repeats an age and has the age 0. *)
Definition ages_table : dataframe :=
  DataFrame ["Age"; "5 km"]
    [[CStr "0"; CFloat 1500]; [CStr "5"; CFloat 1400]; [CStr "5"; CFloat 1300]].

(** A table whose two event columns carry the same name, as the column
    names are after [read_sheet_with_detected_header] has normalized two
    headers that differ in their spacing; and one whose two event columns
    still differ in their spacing. *)
Definition same_name_table : dataframe :=
  DataFrame ["Age"; "5 km"; "5 km"] [[CStr "5"; CFloat 1225; CFloat 1230]].

Definition spaced_name_table : dataframe :=
  DataFrame ["Age"; "5  km"; "5 km"] [[CStr "5"; CFloat 1225; CFloat 1230]].


(** A table with a time that is no time, and one whose age is the
    superscript two. *)
Definition bad_time_table : dataframe :=
  DataFrame ["Age"; "5 km"] [[CStr "5"; CStr "abc"]].

Definition superscript_two : string := String (ascii_of_N 178) EmptyString.

(** A number after the separator U+001C. *)
Definition separator_text : string := String (ascii_of_N 28) "12.5".

Definition superscript_age_table : dataframe :=
  DataFrame ["Age"; "5 km"] [[CStr superscript_two; CFloat 1225]].

(** A table with a float64 event column and an age beyond [2**53]; one
    with an unsigned age column. *)
Definition big_age_table : dataframe :=
  DataFrame ["Age"; "5 km"] [[CStr "9007199254740993"; CNpFloat64 1225]].

Definition unsigned_age_table : dataframe :=
  DataFrame ["Age"; "5 km"] [[CNpUInt64 (2 ^ 63 + 5); CNpFloat64 1225]].

(** A table with two events. *)
Definition two_event_table : dataframe :=
  DataFrame ["Age"; "5 km"; "10 km"] [[CStr "5"; CFloat 1225; CFloat 2550]].

(** A sheet as read without a header, with a title above the header row,
    and the same sheet read with the header at a given row. *)
Definition sample_raw : list (list cell) :=
  [[CStr "Road standards"; CNa]; [CStr " Age "; CStr "5  km"];
   [CInt 5; CFloat 1225]].

Definition sample_read_excel (hdr : nat) : list cell * list (list cell) :=
  match drop hdr sample_raw with
  | labels :: body => (labels, body)
  | [] => ([], [])
  end.

(** A workbook with the three sheets, each holding the sample sheet; a
    workbook without them; and a disk on which one file is such a
    workbook. *)
Definition sample_workbook : workbook :=
  Workbook ["AgeStdSec"; "AgeStdHMS"; "AgeStdFactors"]
    (fun _ => sample_raw) (fun _ => sample_read_excel).

Definition plain_workbook : workbook :=
  Workbook ["Sheet1"] (fun _ => []) (fun _ _ => ([], [])).

Definition sample_disk (p : Pathlib.path) : workbook :=
  if String.eqb (Pathlib.name p) "b_roadstd.xls"
  then plain_workbook else sample_workbook.

Definition file_a : Pathlib.path := Pathlib.Path ["2019"] "a_roadstd.xls".
Definition file_b : Pathlib.path := Pathlib.Path ["2020"] "b_roadstd.xls".
Definition file_c : Pathlib.path := Pathlib.Path ["2021"] "c_RoadStd.xlsx".
Definition file_notes : Pathlib.path := Pathlib.Path ["2021"] "notes.xlsx".

(** ** Auxiliary notions of the proofs *)

(** The rest of a pattern gives up when a digit comes next. *)
Definition StopsAtDigit {R} (k : Re.pos → option R) : Prop :=
  ∀ p, Py.starts_with_digit (Re.rest p) = true → k p = None.

(** The parts of [TIME_RE]. *)
Definition re_digits : Re.regex := Re.Plus Chr.isdecimal.

Definition re_seconds : Re.regex :=
  Re.Group 3 (Re.Seq re_digits (Re.Opt (Re.Seq (Re.Lit ".") re_digits))).

Definition re_tail : Re.regex :=
  Re.Seq (Re.Group 2 re_digits) (Re.Seq (Re.Lit ":") (Re.Seq re_seconds Re.Eol)).

Definition re_hours : Re.regex := Re.Seq (Re.Group 1 re_digits) (Re.Lit ":").

(** The small integers the time-of-day branch converts are within the
    range of a float: checked one by one. *)
Fixpoint all_finite_from (z : Z) (n : nat) : bool :=
  match n with
  | O => true
  | S n' => negb (is_infinity (Py.Z2float z)) && all_finite_from (z + 1) n'
  end.

(** The test [getitem] and [project] select with. *)
Definition under (l : string) (lc : string * cell) : bool :=
  String.eqb (fst lc) l.

(** What the loop over the rows of one event reads of a typed row: the cell
    of the event as it is, and the age as it is or through a float. *)
Definition Handed (age_col event : string) (trow hrow : series) : Prop :=
  getitem hrow event = getitem trow event
  ∧ ∃ z k, getitem trow age_col = Scalar (CInt z)
           ∧ py_int (getitem hrow age_col) = Ok k
           ∧ (k = z ∨ Py.int_of_float (C:=cell) (Py.Z2float z) = Ok k).

(** The test behind [IsValue], and the whole seconds of a day checked one
    by one: the sum with a zero fraction is exact. *)
Definition is_value (f : float) (z : Z) : bool :=
  match Prim2SF f with
  | S754_zero _ => z =? 0
  | S754_finite s m e =>
      (if s then Z.neg m else Z.pos m) * 2 ^ Z.max e 0 =? z * 2 ^ Z.max (- e) 0
  | _ => false
  end.

Fixpoint all_exact_from (z : Z) (n : nat) : bool :=
  match n with
  | O => true
  | S n' => is_value (Py.Z2float z + zero)%float z && all_exact_from (z + 1) n'
  end.

(** The tests behind [Normalized]. *)
Definition starts_with_space (s : string) : bool :=
  match s with
  | String c _ => Chr.isspace c
  | EmptyString => false
  end.

Fixpoint tidy (s : string) : bool :=
  match s with
  | EmptyString => true
  | String c s' =>
      (negb (Chr.isspace c)
       || (Ascii.eqb c " "
           && match s' with
              | String d _ => negb (Chr.isspace d)
              | EmptyString => false
              end))
      && tidy s'
  end.

(** * Properties *)

(** ** Strings *)

Section StringFacts.

Lemma app_cons (x : ascii) (a b : string) : String x a +:+ b = String x (a +:+ b).
Proof. reflexivity. Qed.

Lemma app_nil (b : string) : "" +:+ b = b.
Proof. reflexivity. Qed.

Lemma app_assoc_str (a b c : string) : (a +:+ b) +:+ c = a +:+ (b +:+ c).
Proof. induction a as [|x a IH]; [done | by rewrite !app_cons, IH]. Qed.

Lemma app_empty_r (a : string) : a +:+ "" = a.
Proof. induction a as [|x a IH]; [done | by rewrite app_cons, IH]. Qed.

Lemma map_app f (a b : string) :
  Str.map f (a +:+ b) = Str.map f a +:+ Str.map f b.
Proof. induction a as [|x a IH]; [done | by rewrite app_cons; simpl; rewrite IH]. Qed.

Lemma all_app p (a b : string) :
  Str.all p (a +:+ b) = Str.all p a && Str.all p b.
Proof.
  induction a as [|x a IH]; [done |].
  rewrite app_cons. simpl. rewrite IH. by destruct (p x).
Qed.

Lemma startswith_spec (p s : string) :
  Str.startswith p s = true ↔ ∃ r, s = p +:+ r.
Proof.
  revert s. induction p as [|a p IH]; intros s; simpl.
  - split; [by exists s | done].
  - destruct s as [|b s]; [split; [done | by intros [r Hr]] |].
    rewrite andb_true_iff, IH. split.
    + intros [Hab [r ->]]. apply Ascii.eqb_eq in Hab as ->. by exists r.
    + intros [r Hr]. rewrite app_cons in Hr. injection Hr as -> ->.
      split; [apply Ascii.eqb_refl | by exists r].
Qed.

Lemma contains_spec (p s : string) :
  Str.contains p s = true ↔ ∃ a b, s = a +:+ p +:+ b.
Proof.
  induction s as [|c s IH].
  - cbn [Str.contains]. rewrite orb_false_r, startswith_spec. split.
    + intros [r Hr]. by exists "", r.
    + intros [a [b Hab]]. destruct a; [by exists b | done].
  - cbn [Str.contains]. rewrite orb_true_iff, startswith_spec, IH. split.
    + intros [[r Hr] | [a [b Hab]]].
      * by exists "", r.
      * exists (String c a), b. by rewrite app_cons, Hab.
    + intros [a [b Hab]]. destruct a as [|x a].
      * left. by exists b.
      * right. rewrite app_cons in Hab. injection Hab as _ Hab. by exists a, b.
Qed.

Lemma lstrip_suffix (s : string) : ∃ w, s = w +:+ Str.lstrip s.
Proof.
  induction s as [|c s [w Hw]]; simpl; [by exists "" |].
  destruct (Chr.isspace c).
  - exists (String c w). by rewrite app_cons, <- Hw.
  - by exists "".
Qed.

Lemma rstrip_prefix (s : string) : ∃ w, s = Str.rstrip s +:+ w.
Proof.
  induction s as [|c s [w Hw]]; simpl; [by exists "" |].
  destruct (Str.rstrip s) as [|d t].
  - destruct (Chr.isspace c).
    + by exists (String c s).
    + exists w. rewrite app_cons. by rewrite <- Hw.
  - exists w. rewrite app_cons. by rewrite <- Hw.
Qed.

(** Stripping only removes characters at the two ends. *)
Lemma strip_infix (s : string) : ∃ a b, s = a +:+ Str.strip s +:+ b.
Proof.
  destruct (lstrip_suffix s) as [a Ha].
  destruct (rstrip_prefix (Str.lstrip s)) as [b Hb].
  exists a, b. unfold Str.strip. by rewrite <- Hb.
Qed.

Lemma contains_strip_lower (p s : string) :
  Str.contains p (Str.lower (Str.strip s)) = true →
  Str.contains p (Str.lower s) = true.
Proof.
  rewrite !contains_spec. intros [a [b Hab]].
  destruct (strip_infix s) as [u [v Huv]].
  exists (Str.lower u +:+ a), (b +:+ Str.lower v).
  unfold Str.lower in *.
  rewrite Huv at 1. rewrite !map_app, Hab. by rewrite !app_assoc_str.
Qed.

(** A text whose first and last characters are not whitespace is its own
    stripped form. *)
Lemma lstrip_id c s :
  Chr.isspace c = false → Str.lstrip (String c s) = String c s.
Proof. intros H. simpl. by rewrite H. Qed.

Lemma rstrip_id (s : string) c :
  Chr.isspace c = false →
  Str.rstrip (s +:+ String c "") = s +:+ String c "".
Proof.
  intros H. induction s as [|d s IH].
  - simpl. by rewrite H.
  - rewrite app_cons. simpl. rewrite IH. by destruct s.
Qed.

End StringFacts.

(** ** Searching a list for its first hit *)

Section FirstHit.

Context {A : Type} (p : A → bool).

Lemma find_first (before : list A) (c : A) (after : list A) :
  Forall (λ x, p x = false) before → p c = true →
  List.find p (before ++ c :: after) = Some c.
Proof.
  induction 1 as [|x before Hx _ IH]; intros Hc; simpl.
  - by rewrite Hc.
  - rewrite Hx. by apply IH.
Qed.

Lemma find_is_first (l : list A) (c : A) :
  List.find p l = Some c →
  ∃ before after,
    l = before ++ c :: after ∧ Forall (λ x, p x = false) before ∧ p c = true.
Proof.
  induction l as [|x l IH]; simpl; [done |].
  destruct (p x) eqn:Hx.
  - intros [= ->]. by exists [], l.
  - intros Hc. destruct (IH Hc) as (before & after & -> & Hb & Hpc).
    exists (x :: before), after. by repeat split; [constructor |].
Qed.

Lemma find_none_iff (l : list A) :
  List.find p l = None ↔ Forall (λ x, p x = false) l.
Proof.
  induction l as [|x l IH]; simpl; [by split; [constructor |] |].
  destruct (p x) eqn:Hx.
  - split; [done | intros H; inversion H; congruence].
  - rewrite IH. split; [by constructor | by inversion 1].
Qed.

Lemma find_append (l1 l2 : list A) :
  List.find p (l1 ++ l2) =
  match List.find p l1 with
  | Some x => Some x
  | None => List.find p l2
  end.
Proof. induction l1 as [|x l1 IH]; simpl; [done | by destruct (p x)]. Qed.

End FirstHit.

(** ** Age-column detection (claim C7) *)

Lemma is_age_header_spec (c : string) : is_age_header c = true ↔ AgeHeader c.
Proof.
  unfold is_age_header, AgeHeader. cbv zeta.
  rewrite !orb_true_iff, String.eqb_eq, !startswith_spec. split.
  - intros [[[[H | [r H]] | [r H]] | [r H]] | [r H]]; [by left | right ..].
    + exists " "%char, r. split; [set_solver | done].
    + exists "("%char, r. split; [set_solver | done].
    + exists "/"%char, r. split; [set_solver | done].
    + exists "-"%char, r. split; [set_solver | done].
  - intros [H | (sep & r & Hsep & H)]; [by repeat left |].
    rewrite !elem_of_cons, elem_of_nil in Hsep.
    destruct Hsep as [-> | [-> | [-> | [-> | []]]]].
    + do 3 left. right. by exists r.
    + do 2 left. right. by exists r.
    + left. right. by exists r.
    + right. by exists r.
Qed.

Lemma mentions_age_spec (c : string) : mentions_age c = true ↔ MentionsAge c.
Proof. apply contains_spec. Qed.

(** A name that passes the first test also passes the second. *)
Lemma is_age_header_mentions (c : string) :
  is_age_header c = true → mentions_age c = true.
Proof.
  intros H. apply contains_strip_lower, contains_spec.
  apply is_age_header_spec in H as [H | (sep & r & _ & H)]; rewrite H.
  - by exists "", "".
  - by exists "", (String sep r).
Qed.

(** C7. [find_age_col] returns the first column whose stripped lower-cased
    name is "age" or starts with "age " / "age(" / "age/" / "age-"; without
    such a column, the first one whose lower-cased name contains "age"; and it
    raises, reporting all the column names, exactly when no column contains
    "age". *)
Theorem find_age_col_spec (cols : list string) :
  (∀ before c after,
     cols = before ++ c :: after →
     Forall (λ x, ¬ AgeHeader x) before → AgeHeader c →
     find_age_col cols = Ok c)
  ∧ (Forall (λ x, ¬ AgeHeader x) cols →
     ∀ before c after,
       cols = before ++ c :: after →
       Forall (λ x, ¬ MentionsAge x) before → MentionsAge c →
       find_age_col cols = Ok c)
  ∧ (∀ e, find_age_col cols = Err e ↔
          e = NoAgeColumn cols ∧ Forall (λ x, ¬ MentionsAge x) cols).
Proof.
  assert (Hneg1 : ∀ l, Forall (λ x, ¬ AgeHeader x) l ↔
                       Forall (λ x, is_age_header x = false) l).
  { intros l. apply Forall_iff. intros x.
    rewrite <- is_age_header_spec. by destruct (is_age_header x). }
  assert (Hneg2 : ∀ l, Forall (λ x, ¬ MentionsAge x) l ↔
                       Forall (λ x, mentions_age x = false) l).
  { intros l. apply Forall_iff. intros x.
    rewrite <- mentions_age_spec. by destruct (mentions_age x). }
  unfold find_age_col. split; [| split; [| intros e; split]].
  - intros before c after -> Hb Hc.
    apply Hneg1 in Hb. apply is_age_header_spec in Hc.
    by rewrite (find_first _ _ _ _ Hb Hc).
  - intros Hno before c after -> Hb Hc.
    apply Hneg1, find_none_iff in Hno. rewrite Hno.
    apply Hneg2 in Hb. apply mentions_age_spec in Hc.
    by rewrite (find_first _ _ _ _ Hb Hc).
  - destruct (List.find is_age_header cols) eqn:H1; [done |].
    destruct (List.find mentions_age cols) eqn:H2; [done |].
    intros [= <-]. split; [done |]. by apply Hneg2, find_none_iff.
  - intros [-> Hno]. apply Hneg2 in Hno.
    assert (List.find mentions_age cols = None) as -> by by apply find_none_iff.
    assert (List.find is_age_header cols = None) as ->; [| done].
    apply find_none_iff. eapply Forall_impl; [exact Hno |].
    intros x Hx. simpl in Hx. destruct (is_age_header x) eqn:E; [| done].
    apply is_age_header_mentions in E. congruence.
Qed.

(** ** Header detection (claim C6) *)

Lemma find_seq_Some (f : nat → bool) (a n r : nat) :
  List.find f (seq a n) = Some r ↔
  (a ≤ r < a + n)%nat ∧ f r = true ∧ ∀ r', (a ≤ r' < r)%nat → f r' = false.
Proof.
  revert a. induction n as [|n IH]; intros a; simpl.
  - split; [done | lia].
  - destruct (f a) eqn:Ha.
    + split.
      * intros [= <-]. repeat split; [lia.. | done | lia].
      * intros (Hr & Hfr & Hmin). f_equal.
        destruct (decide (a = r)) as [| Hne]; [done |].
        rewrite Hmin in Ha; [done | lia].
    + rewrite IH. split.
      * intros (Hr & Hfr & Hmin). repeat split; [lia.. | done |].
        intros r' Hr'. destruct (decide (r' = a)) as [-> |]; [done |].
        apply Hmin. lia.
      * intros (Hr & Hfr & Hmin).
        assert (a ≠ r) by congruence.
        repeat split; [lia.. | done |]. intros r' Hr'. apply Hmin. lia.
Qed.

Lemma find_seq_None (f : nat → bool) (a n : nat) :
  List.find f (seq a n) = None ↔ ∀ r, (a ≤ r < a + n)%nat → f r = false.
Proof.
  rewrite find_none_iff, Forall_forall. by setoid_rewrite elem_of_seq.
Qed.

Section HeaderDetection.

Variable obj_str : cell → string.

Lemma row_has_spec (row : list cell) :
  row_has obj_str "age" row = true ↔ RowHasAge obj_str row.
Proof.
  unfold row_has, RowHasAge. rewrite existsb_exists.
  setoid_rewrite orb_true_iff. setoid_rewrite String.eqb_eq.
  setoid_rewrite startswith_spec. setoid_rewrite list_elem_of_In. done.
Qed.

Lemma header_test_spec (raw : list (list cell)) (r : nat) :
  match raw !! r with
  | Some row => row_has obj_str "age" row
  | None => false
  end = true ↔ HeaderAt obj_str raw r.
Proof.
  unfold HeaderAt. destruct (raw !! r) as [row |].
  - rewrite row_has_spec. split; [by exists row | by intros [? [[= <-] ?]]].
  - split; [done | by intros [? [? ?]]].
Qed.

Lemma header_test_false (raw : list (list cell)) (r : nat) :
  match raw !! r with
  | Some row => row_has obj_str "age" row
  | None => false
  end = false ↔ ¬ HeaderAt obj_str raw r.
Proof. rewrite <- header_test_spec. by destruct (match raw !! r with _ => _ end). Qed.

(** C6. Header detection returns the smallest index among the first
    [min 50 (length raw)] rows of a row with a cell that, stripped and
    lower-cased, equals "age" or starts with "age"; without such a row the
    header row is 0. If rows 0..2 have no such cell and row 3 holds the cell
    "Age", the header row is 3. *)
Theorem find_header_row_spec (raw : list (list cell)) :
  (∀ r, find_header_row obj_str raw "age" 50 = Some r ↔
        (r < min 50 (length raw))%nat ∧ HeaderAt obj_str raw r ∧
        ∀ r', (r' < r)%nat → ¬ HeaderAt obj_str raw r')
  ∧ (find_header_row obj_str raw "age" 50 = None ↔
     ∀ r, (r < min 50 (length raw))%nat → ¬ HeaderAt obj_str raw r)
  ∧ detected_header obj_str raw =
      default 0%nat (find_header_row obj_str raw "age" 50)
  ∧ (∀ row,
       (∀ r', (r' < 3)%nat → ¬ HeaderAt obj_str raw r') →
       raw !! 3%nat = Some row → CStr "Age" ∈ row →
       detected_header obj_str raw = 3%nat).
Proof.
  assert (Hsome : ∀ r, find_header_row obj_str raw "age" 50 = Some r ↔
        (r < min 50 (length raw))%nat ∧ HeaderAt obj_str raw r ∧
        ∀ r', (r' < r)%nat → ¬ HeaderAt obj_str raw r').
  { intros r. unfold find_header_row. rewrite find_seq_Some.
    rewrite header_test_spec. setoid_rewrite header_test_false.
    split; intros (? & ? & Hmin); (repeat split; [lia.. | done |]);
      intros r' ?; apply Hmin; lia. }
  assert (Hdef : detected_header obj_str raw =
      default 0%nat (find_header_row obj_str raw "age" 50)).
  { unfold detected_header.
    by destruct (find_header_row obj_str raw "age" 50) as [[|r] |]. }
  split; [exact Hsome |]. split; [| split; [exact Hdef |]].
  - unfold find_header_row. rewrite find_seq_None.
    setoid_rewrite header_test_false.
    split; intros H r ?; apply H; lia.
  - intros row Hbefore Hrow Hage. rewrite Hdef.
    assert (find_header_row obj_str raw "age" 50 = Some 3%nat) as ->; [| done].
    apply Hsome. apply lookup_lt_Some in Hrow as Hlen.
    repeat split; [lia | | done].
    exists row. split; [done |]. exists (CStr "Age"). split; [done |].
    by left.
Qed.

End HeaderDetection.

(** ** Sheet names and their keys *)

Section KeyFacts.

Lemma filter_app_str p (a b : string) :
  Str.filter p (a +:+ b) = Str.filter p a +:+ Str.filter p b.
Proof.
  induction a as [|x a IH]; [done |]. rewrite app_cons. simpl.
  destruct (p x); by rewrite IH.
Qed.

Lemma lstrip_spaces (s : string) :
  ∃ w, s = w +:+ Str.lstrip s ∧ Str.all Chr.isspace w = true.
Proof.
  induction s as [|c s (w & Hw & Hsp)]; simpl; [by exists "" |].
  destruct (Chr.isspace c) eqn:Hc.
  - exists (String c w). rewrite app_cons, <- Hw. simpl. by rewrite Hc.
  - by exists "".
Qed.

Lemma rstrip_spaces (s : string) :
  ∃ w, s = Str.rstrip s +:+ w ∧ Str.all Chr.isspace w = true.
Proof.
  induction s as [|c s (w & Hw & Hsp)]; simpl; [by exists "" |].
  destruct (Str.rstrip s) as [|d t].
  - destruct (Chr.isspace c) eqn:Hc.
    + exists (String c s). split; [done |]. simpl. rewrite Hc.
      rewrite app_nil in Hw. by rewrite Hw.
    + exists w. rewrite app_cons. by rewrite <- Hw.
  - exists w. rewrite app_cons. by rewrite <- Hw.
Qed.

Lemma space_not_alnum (c : ascii) :
  Chr.isspace c = true → Chr.isalnum_lower (Chr.lower c) = false.
Proof. by destruct c as [[] [] [] [] [] [] [] []]. Qed.

Lemma alnum_lower_fixed (c : ascii) :
  Chr.isalnum_lower c = true →
  Chr.lower c = c ∧ Chr.isspace c = false.
Proof. by destruct c as [[] [] [] [] [] [] [] []]. Qed.

Lemma key_of_spaces (w : string) :
  Str.all Chr.isspace w = true →
  Str.filter Chr.isalnum_lower (Str.lower w) = "".
Proof.
  unfold Str.lower. induction w as [|c w IH]; [done |]. simpl.
  intros [Hc Hw]%andb_true_iff. by rewrite space_not_alnum, IH.
Qed.

(** Stripping first changes nothing: whitespace is not kept anyway. *)
Lemma normalize_key_unstripped (s : string) :
  normalize_key s = Str.filter Chr.isalnum_lower (Str.lower s).
Proof.
  unfold normalize_key, Str.strip.
  destruct (lstrip_spaces s) as (w & Hw & Hsp).
  destruct (rstrip_spaces (Str.lstrip s)) as (w' & Hw' & Hsp').
  rewrite Hw at 2. rewrite Hw' at 2. unfold Str.lower.
  rewrite !map_app, !filter_app_str.
  fold (Str.lower w) (Str.lower w').
  by rewrite (key_of_spaces w Hsp), (key_of_spaces w' Hsp'), app_nil, app_empty_r.
Qed.

(** The key of the script is the normalization of the spec. *)
Lemma normalize_key_spec (s : string) : normalize_key s = lowercase_alnum s.
Proof. apply normalize_key_unstripped. Qed.

End KeyFacts.

(** ** Sheet resolution (claim C2) *)

Section SheetResolution.

Lemma find_FirstSuch {A} (p : A → bool) (P : A → Prop) (l : list A) :
  (∀ x, p x = true ↔ P x) → FirstSuch P l (List.find p l).
Proof.
  intros HP.
  assert (Hneg : ∀ l', Forall (λ x, p x = false) l' → Forall (λ y, ¬ P y) l').
  { intros l' Hl'. eapply Forall_impl; [exact Hl' |].
    intros x Hx HPx. apply HP in HPx. congruence. }
  destruct (List.find p l) as [x |] eqn:E; simpl.
  - apply find_is_first in E as (before & after & -> & Hb & Hx).
    exists before, after. repeat split; [by apply Hneg | by apply HP].
  - by apply Hneg, find_none_iff.
Qed.

(** The dictionary of normalized names: a key is bound to the last sheet
    that has it. *)
Lemma by_norm_fold (m : gmap string string) (sheets : list string) (k : string) :
  foldl (λ m s, <[normalize_key s := s]> m) m sheets !! k =
  match List.find (λ s, String.eqb (normalize_key s) k) (rev sheets) with
  | Some s => Some s
  | None => m !! k
  end.
Proof.
  revert m. induction sheets as [|x sheets IH]; intros m; simpl; [done |].
  rewrite IH, find_append.
  destruct (List.find _ (rev sheets)); [done |]. simpl.
  destruct (String.eqb (normalize_key x) k) eqn:E.
  - apply String.eqb_eq in E as <-. by rewrite lookup_insert_eq.
  - apply String.eqb_neq in E. by rewrite lookup_insert_ne.
Qed.

Lemma by_norm_Some (sheets : list string) (k s : string) :
  by_norm sheets !! k = Some s → s ∈ sheets ∧ normalize_key s = k.
Proof.
  unfold by_norm. rewrite by_norm_fold, lookup_empty.
  destruct (List.find _ (rev sheets)) as [x |] eqn:E; [| done].
  intros [= ->]. apply find_some in E as [Hin Hk].
  apply String.eqb_eq in Hk. split; [| done].
  apply list_elem_of_In. by apply in_rev.
Qed.

Lemma by_norm_None (sheets : list string) (k : string) :
  by_norm sheets !! k = None ↔ ¬ ∃ s, s ∈ sheets ∧ normalize_key s = k.
Proof.
  unfold by_norm. rewrite by_norm_fold, lookup_empty. split.
  - destruct (List.find _ (rev sheets)) as [x |] eqn:E; [done |].
    intros _ (s & Hin & Hk).
    apply list_elem_of_In, in_rev in Hin.
    apply (find_none _ _ E) in Hin. apply String.eqb_neq in Hin. done.
  - intros Hno. destruct (List.find _ (rev sheets)) as [x |] eqn:E; [| done].
    destruct Hno. exists x. apply find_some in E as [Hin Hk].
    apply String.eqb_eq in Hk. split; [| done].
    apply list_elem_of_In. by apply in_rev.
Qed.

Lemma pick_spec (sheets aliases : list string) :
  match pick (by_norm sheets) aliases with
  | Some s => ∃ a,
      FirstSuch (λ a, ∃ s, s ∈ sheets ∧ normalize_key s = a) aliases (Some a)
      ∧ s ∈ sheets ∧ normalize_key s = a
  | None =>
      FirstSuch (λ a, ∃ s, s ∈ sheets ∧ normalize_key s = a) aliases None
  end.
Proof.
  induction aliases as [|k ks IH]; simpl; [constructor |].
  destruct (by_norm sheets !! k) as [s |] eqn:E.
  - apply by_norm_Some in E as [Hin Hk]. exists k. split; [| done].
    exists [], ks. repeat split; [constructor | by exists s].
  - apply by_norm_None in E.
    destruct (pick (by_norm sheets) ks) as [s |].
    + destruct IH as (a & (before & after & -> & Hb & Ha) & Hin & Hk).
      exists a. split; [| done].
      exists (k :: before), after. repeat split; [by constructor | done].
    + by constructor.
Qed.

(** What [pick] finds for an alias list without the empty key is a sheet
    with a name, so Python's truth test on it is a test for [None]. *)
Lemma pick_truthy (sheets aliases : list string) :
  "" ∉ aliases →
  truthy (pick (by_norm sheets) aliases) =
  bool_decide (is_Some (pick (by_norm sheets) aliases)).
Proof.
  intros Hne. pose proof (pick_spec sheets aliases) as H.
  destruct (pick (by_norm sheets) aliases) as [[|c s] |]; [| done..].
  destruct H as (a & (before & after & -> & _ & _) & _ & <-).
  destruct Hne. rewrite elem_of_app, elem_of_cons. right. by left.
Qed.

(** The first hit of a list of images is the image of a first hit. *)
Lemma FirstSuch_map {A B} (f : A → B) (P : B → Prop) (l : list A) (o : option B) :
  FirstSuch P (List.map f l) o →
  match o with
  | Some b => ∃ a, f a = b ∧ FirstSuch (λ x, P (f x)) l (Some a)
  | None => FirstSuch (λ x, P (f x)) l None
  end.
Proof.
  destruct o as [b |]; simpl.
  - intros (before & after & Hl & Hb & Hx).
    apply map_eq_app in Hl as (l1 & l2 & -> & <- & Hl2).
    apply map_eq_cons in Hl2 as (a & l3 & -> & <- & <-).
    exists a. split; [done |]. exists l1, l3. repeat split; [| done].
    by rewrite Forall_map in Hb.
  - intros H. by rewrite Forall_map in H.
Qed.

Lemma FirstSuch_ext {A} (P Q : A → Prop) (l : list A) (o : option A) :
  (∀ x, P x ↔ Q x) → FirstSuch P l o → FirstSuch Q l o.
Proof.
  intros HPQ. destruct o as [x |]; simpl.
  - intros (before & after & -> & Hb & Hx). exists before, after.
    repeat split; [| by apply HPQ].
    eapply Forall_impl; [exact Hb |]. intros y Hy HQ. by apply Hy, HPQ.
  - intros H. eapply Forall_impl; [exact H |]. intros y Hy HQ. by apply Hy, HPQ.
Qed.

Lemma last_resort_spec (names : list string) (word : string)
    (sheets : list string) :
  "" ∉ List.map normalize_key names → Str.contains word "" = false →
  let o := last_resort word sheets
             (pick (by_norm sheets) (List.map normalize_key names)) in
  Resolves names word sheets o ∧ truthy o = bool_decide (is_Some o).
Proof.
  intros Hne Hword. cbv zeta. unfold last_resort.
  pose proof (pick_truthy sheets _ Hne) as Ht.
  pose proof (pick_spec sheets (List.map normalize_key names)) as H.
  assert (Hsame : ∀ a, (∃ s, s ∈ sheets ∧ normalize_key s = normalize_key a)
                       ↔ AliasOf sheets a).
  { intros a. unfold AliasOf. by setoid_rewrite normalize_key_spec. }
  destruct (pick (by_norm sheets) (List.map normalize_key names)) as [s |].
  - assert (truthy (Some s) = true) as Hs.
    { rewrite Ht. apply bool_decide_eq_true. by exists s. }
    rewrite Hs. split; [| done].
    left. destruct H as (k & Hfirst & Hin & Hk).
    apply FirstSuch_map in Hfirst as (a & <- & Hfirst).
    exists a, s. split; [by apply (FirstSuch_ext _ _ _ _ Hsame) |].
    by rewrite <- !normalize_key_spec.
  - cbn [truthy]. apply FirstSuch_map in H.
    apply (FirstSuch_ext _ _ _ _ Hsame) in H.
    pose proof (find_FirstSuch (λ s, Str.contains word (Str.lower s))
      (λ s, ∃ a b, Str.lower s = a +:+ word +:+ b) sheets
      (λ s, contains_spec word (Str.lower s))) as Hfind.
    destruct (List.find _ sheets) as [s |] eqn:F; [| split; [by right | done]].
    split; [by right |].
    destruct s; [| done]. apply find_some in F as [_ F].
    change (Str.lower "") with "" in F. congruence.
Qed.

(** C2. The key [choose_sheets] compares names by is the normalization of
    the spec: lower case, every character other than a-z and 0-9 removed.
    [choose_sheets] resolves each of the three roles by its ordered alias
    list under that normalization, the first alias that matches a sheet
    winning, and falls back to the first sheet whose lower-cased name
    contains "factor", "sec" or "hms" only when no alias matches; it raises,
    naming the unresolved roles and the sheets, when a role stays
    unresolved. The sheets "Age Facctors", "AgeStanSec", "AgeStanHMS"
    resolve all three roles; so do names that differ from the aliases in
    case, spacing and punctuation; and an alias wins over an earlier sheet
    that only contains the word. *)
Theorem choose_sheets_spec (sheets : list string) :
  (∀ s, normalize_key s = lowercase_alnum s)
  ∧ (∃ f s h,
       Resolves factors_names "factor" sheets f
       ∧ Resolves sec_names "sec" sheets s
       ∧ Resolves hms_names "hms" sheets h
       ∧ choose_sheets sheets =
         match f, s, h with
         | Some f, Some s, Some h => Ok (Roles f s h)
         | _, _, _ => Err (MissingSheets (missing_roles f s h) sheets)
         end)
  ∧ choose_sheets ["Age Facctors"; "AgeStanSec"; "AgeStanHMS"] =
    Ok (Roles "Age Facctors" "AgeStanSec" "AgeStanHMS")
  ∧ choose_sheets [" age-std FACTORS "; "Age_Stan_Sec"; "agestd (hms)"] =
    Ok (Roles " age-std FACTORS " "Age_Stan_Sec" "agestd (hms)")
  ∧ choose_sheets ["Sections"; "AgeStdSec"; "Factors 2020"; "HMS"] =
    Ok (Roles "Factors 2020" "AgeStdSec" "HMS").
Proof.
  split; [exact normalize_key_spec |].
  split; [| by vm_compute].
  unfold choose_sheets.
  change factors_aliases with (List.map normalize_key factors_names).
  change sec_aliases with (List.map normalize_key sec_names).
  change hms_aliases with (List.map normalize_key hms_names).
  destruct (last_resort_spec factors_names "factor" sheets) as [Hf Tf];
    [by apply (bool_decide_unpack _) | done |].
  destruct (last_resort_spec sec_names "sec" sheets) as [Hs Ts];
    [by apply (bool_decide_unpack _) | done |].
  destruct (last_resort_spec hms_names "hms" sheets) as [Hh Th];
    [by apply (bool_decide_unpack _) | done |].
  eexists _, _, _. split; [exact Hf |]. split; [exact Hs |]. split; [exact Hh |].
  cbn [List.filter List.map fst snd]. rewrite Tf, Ts, Th.
  destruct (last_resort "factor" _ _), (last_resort "sec" _ _),
    (last_resort "hms" _ _); done.
Qed.

End SheetResolution.

(** ** Floats *)

Section FloatFacts.

Lemma SFcompare_antisym (x y : spec_float) :
  SFcompare y x = CompOpp <$> SFcompare x y.
Proof.
  destruct x as [sx | sx | | sx mx ex], y as [sy | sy | | sy my ey];
    try destruct sx; try destruct sy; try reflexivity; simpl.
  - rewrite (Z.compare_antisym ex ey).
    destruct (ex ?= ey); simpl; try reflexivity.
    f_equal. rewrite CompOpp_involutive.
    exact (Pos.compare_cont_antisym my mx Eq).
  - rewrite (Z.compare_antisym ex ey).
    destruct (ex ?= ey); simpl; try reflexivity.
    f_equal. symmetry. exact (Pos.compare_cont_antisym mx my Eq).
Qed.

Lemma leb_ltb (x y : float) : (x <=? y)%float = true → (y <? x)%float = false.
Proof.
  rewrite leb_spec, ltb_spec. unfold SFleb, SFltb.
  rewrite (SFcompare_antisym (Prim2SF x) (Prim2SF y)).
  by destruct (SFcompare (Prim2SF x) (Prim2SF y)) as [[] |].
Qed.

Lemma ltb_leb (x y : float) : (x <? y)%float = true → (y <=? x)%float = false.
Proof.
  rewrite leb_spec, ltb_spec. unfold SFleb, SFltb.
  rewrite (SFcompare_antisym (Prim2SF x) (Prim2SF y)).
  by destruct (SFcompare (Prim2SF x) (Prim2SF y)) as [[] |].
Qed.

Lemma Prim2SF_not_nan (x : float) : is_nan x = false → Prim2SF x ≠ S754_nan.
Proof.
  intros H. unfold Prim2SF. rewrite H.
  destruct (is_zero x); [done |]. destruct (is_infinity x); [done |].
  destruct (Z.frexp x) as [r e]. destruct (shr_fexp _ _ _ _ _) as [m e'].
  by destruct (shr_m m).
Qed.

(** Two floats that are numbers are comparable. *)
Lemma ltb_total (x y : float) :
  is_nan x = false → is_nan y = false →
  (x <? y)%float = negb (y <=? x)%float.
Proof.
  intros Hx%Prim2SF_not_nan Hy%Prim2SF_not_nan.
  rewrite leb_spec, ltb_spec. unfold SFleb, SFltb.
  rewrite (SFcompare_antisym (Prim2SF x) (Prim2SF y)).
  destruct (Prim2SF x) as [sx | sx | | sx mx ex], (Prim2SF y) as [sy | sy | | sy my ey];
    try done; try destruct sx; try destruct sy; try reflexivity; simpl.
  - by destruct (ex ?= ey), (Pos.compare_cont Eq mx my).
  - by destruct (ex ?= ey), (Pos.compare_cont Eq mx my).
Qed.

End FloatFacts.

(** ** The float of a 64-bit integer *)

Section FloatRange.

Lemma pow2_pos_arg (x a : Z) : 0 < x → x < 2 ^ a → 0 < a.
Proof.
  intros Hx Ha. destruct a as [| a | a]; [simpl in Ha; lia | lia |].
  rewrite Z.pow_neg_r in Ha; lia.
Qed.

Lemma digits2_pos_bound (p : positive) (a : Z) :
  Z.pos p < 2 ^ a → Z.pos (digits2_pos p) ≤ a.
Proof.
  revert a. induction p as [p IH | p IH |]; intros a Ha; simpl.
  - pose proof (pow2_pos_arg (Z.pos p~1) a ltac:(lia) Ha).
    replace a with (Z.succ (a - 1)) in Ha by lia. rewrite Z.pow_succ_r in Ha by lia.
    specialize (IH (a - 1)). lia.
  - pose proof (pow2_pos_arg (Z.pos p~0) a ltac:(lia) Ha).
    replace a with (Z.succ (a - 1)) in Ha by lia. rewrite Z.pow_succ_r in Ha by lia.
    specialize (IH (a - 1)). lia.
  - pose proof (pow2_pos_arg 1 a ltac:(lia) Ha). lia.
Qed.

Lemma Zdigits2_bound (m a : Z) : 0 ≤ a → 0 ≤ m < 2 ^ a → Zdigits2 m ≤ a.
Proof.
  intros Ha [Hm Hlt]. destruct m as [| p | p]; [done | | lia].
  by apply digits2_pos_bound.
Qed.

Lemma shr_1_bound (mrs : shr_record) (B : Z) :
  0 ≤ shr_m mrs ≤ B → 0 ≤ shr_m (shr_1 mrs) ≤ B.
Proof.
  destruct mrs as [m r s]. simpl. destruct m as [| [p | p |] | [p | p |]]; simpl; lia.
Qed.

Lemma iter_shr_1_bound (n : positive) (mrs : shr_record) (B : Z) :
  0 ≤ shr_m mrs ≤ B → 0 ≤ shr_m (SpecFloat.iter_pos shr_1 n mrs) ≤ B.
Proof.
  revert mrs. induction n as [n IH | n IH |]; intros mrs H; simpl.
  - by apply IH, IH, shr_1_bound.
  - by apply IH, IH.
  - by apply shr_1_bound.
Qed.

Lemma shr_record_of_loc_m (m : Z) (l : location) : shr_m (shr_record_of_loc m l) = m.
Proof. by destruct l as [| []]. Qed.

(** One alignment keeps the mantissa within its bound, and the exponent
    below the larger of the old one and what the digits ask for. *)
Lemma shr_fexp_bound (m e : Z) (l : location) (a : Z) :
  0 ≤ a → 0 ≤ m < 2 ^ a →
  0 ≤ shr_m (shr_fexp prec emax m e l).1 ≤ m
  ∧ (shr_fexp prec emax m e l).2 ≤ Z.max e (Z.max (a + e - 53) (-1074)).
Proof.
  intros Ha Hm. pose proof (Zdigits2_bound m a Ha Hm) as Hd.
  unfold shr_fexp, shr.
  destruct (fexp prec emax (Zdigits2 m + e) - e) as [| n | n] eqn:En; cbn [fst snd].
  - rewrite shr_record_of_loc_m. lia.
  - split; [apply iter_shr_1_bound; rewrite shr_record_of_loc_m; lia |].
    rewrite <- En. unfold fexp, emin, prec, emax. lia.
  - rewrite shr_record_of_loc_m. lia.
Qed.

Lemma round_nearest_even_bound (m : Z) (l : location) :
  0 ≤ m → m ≤ round_nearest_even m l ≤ m + 1.
Proof. intros Hm. destruct l as [| []]; simpl; [lia | destruct (Z.even m); lia | lia..]. Qed.

Lemma binary_round_aux_finite (sx : bool) (m e : Z) (a : Z) :
  0 ≤ a ≤ 200 → 0 ≤ m < 2 ^ a → -1074 ≤ e ≤ 0 →
  match binary_round_aux prec emax sx m e loc_Exact with
  | S754_zero _ | S754_finite _ _ _ => True
  | _ => False
  end.
Proof.
  intros Ha Hm He. unfold binary_round_aux.
  pose proof (shr_fexp_bound m e loc_Exact a ltac:(lia) Hm) as [Hm1 He1].
  destruct (shr_fexp prec emax m e loc_Exact) as [mrs1 e1]. cbn [fst snd] in *.
  pose proof (round_nearest_even_bound (shr_m mrs1) (loc_of_shr_record mrs1) ltac:(lia)) as Hr.
  set (m2 := round_nearest_even _ _) in *.
  assert (Hm2 : 0 ≤ m2 < 2 ^ (a + 1)).
  { rewrite Z.pow_add_r by lia. lia. }
  pose proof (shr_fexp_bound m2 e1 loc_Exact (a + 1) ltac:(lia) Hm2) as [Hm3 He3].
  destruct (shr_fexp prec emax m2 e1 loc_Exact) as [mrs3 e3]. cbn [fst snd] in *.
  destruct (shr_m mrs3) as [| p | p]; [done | | lia].
  assert (e3 ≤ emax - prec) as ->%Z.leb_le; [unfold emax, prec; lia | done].
Qed.

Lemma binary_round_finite (sx : bool) (m : positive) :
  Z.pos m < 2 ^ 64 →
  match binary_round prec emax sx m 0 with
  | S754_zero _ | S754_finite _ _ _ => True
  | _ => False
  end.
Proof.
  intros Hm. unfold binary_round, shl_align.
  pose proof (Pos2Z.is_pos (digits2_pos m)) as Hd.
  destruct (fexp prec emax (Z.pos (digits2_pos m) + 0) - 0) as [| d | d] eqn:Ed.
  - apply (binary_round_aux_finite sx _ _ 64); lia.
  - apply (binary_round_aux_finite sx _ _ 64); lia.
  - assert (Hd52 : Z.pos d ≤ 52) by (unfold fexp, emin, prec, emax in Ed; lia).
    apply (binary_round_aux_finite sx _ _ 116); [lia | | unfold fexp, emin, prec, emax in *; lia].
    fold (Zpower.shift_pos d m). rewrite Zpower.shift_pos_correct.
    rewrite Z.pow_pos_fold. split; [lia |].
    change (2 ^ 116) with (2 ^ 52 * 2 ^ 64).
    assert (2 ^ Z.pos d ≤ 2 ^ 52) by (apply Z.pow_le_mono_r; lia).
    assert (0 < 2 ^ Z.pos d) by (apply Z.pow_pos_nonneg; lia). nia.
Qed.

Lemma binary_round_opp (m : positive) (e : Z) :
  binary_round prec emax true m e = SFopp (binary_round prec emax false m e).
Proof.
  unfold binary_round, binary_round_aux.
  destruct (shl_align _ _ _) as [mz ez].
  destruct (shr_fexp _ _ _ _ _) as [mrs1 e1].
  destruct (shr_fexp _ _ _ _ _) as [mrs2 e2].
  destruct (shr_m mrs2); [done | | done]. by destruct (_ <=? _).
Qed.

(** Within the 64-bit range the float of an integer is what the rounding
    of the IEEE specification gives. *)
Lemma Prim2SF_Z2float (z : Z) :
  - 2 ^ 63 ≤ z < 2 ^ 63 →
  Prim2SF (Py.Z2float z) = binary_normalize prec emax z 0 false.
Proof.
  intros Hz.
  assert (Hpos : ∀ n, 0 ≤ n < 2 ^ 63 →
            Prim2SF (Py.Z2float n) = binary_normalize prec emax n 0 false).
  { intros n Hn. unfold Py.Z2float.
    rewrite (Uint63.is_int n) at 1 2 by done.
    by rewrite <- of_uint63_spec, SF2Prim_Prim2SF. }
  destruct z as [| m | m].
  - by apply Hpos.
  - by apply Hpos.
  - destruct (decide (Z.neg m = - 2 ^ 63)) as [-> | Hne]; [by vm_compute |].
    pose proof (Hpos (Z.pos m) ltac:(lia)) as Hsf.
    unfold Py.Z2float in *. cbn [binary_normalize] in *.
    rewrite binary_round_opp, <- Hsf, <- opp_spec. by rewrite SF2Prim_Prim2SF, opp_spec.
Qed.

(** The float of a 64-bit integer is finite, and [int] of it returns. *)
Lemma int_of_float_int64 (z : Z) :
  - 2 ^ 63 ≤ z < 2 ^ 63 →
  ∃ z', Py.int_of_float (C:=cell) (Py.Z2float z) = Ok z'.
Proof.
  intros Hz. unfold Py.int_of_float. rewrite Prim2SF_Z2float by done.
  assert (Hfin : match binary_normalize prec emax z 0 false with
                 | S754_zero _ | S754_finite _ _ _ => True
                 | _ => False
                 end).
  { destruct z as [| m | m]; [done | |]; cbn [binary_normalize];
      apply binary_round_finite; change (2 ^ 64) with (2 * 2 ^ 63); lia. }
  destruct (binary_normalize prec emax z 0 false); try done; by eexists.
Qed.

Lemma digits2_pos_shift (m k : positive) :
  Z.pos (digits2_pos (Pos.iter xO m k)) = Z.pos (digits2_pos m) + Z.pos k.
Proof.
  induction k as [| k IH] using Pos.peano_ind; [simpl; lia |].
  rewrite Pos.iter_succ. cbn [digits2_pos]. lia.
Qed.

(** An integer of at most 53 bits is its own float: the rounding has
    nothing to shift away. *)
Lemma binary_round_exact (sx : bool) (m : positive) :
  Z.pos m < 2 ^ 53 →
  ∃ mz ez,
    binary_round prec emax sx m 0 = S754_finite sx mz ez
    ∧ -52 ≤ ez ≤ 0 ∧ Z.pos mz = Z.pos m * 2 ^ (- ez).
Proof.
  intros Hm. pose proof (digits2_pos_bound m 53 Hm) as Hd.
  pose proof (Pos2Z.is_pos (digits2_pos m)) as Hd0.
  assert (Haux : ∀ mz ez, Z.pos (digits2_pos mz) = 53 → -52 ≤ ez ≤ 0 →
            binary_round_aux prec emax sx (Z.pos mz) ez loc_Exact = S754_finite sx mz ez).
  { intros mz ez Hdig Hez. unfold binary_round_aux, shr_fexp. cbn [Zdigits2].
    assert (fexp prec emax (Z.pos (digits2_pos mz) + ez) - ez = 0) as ->
      by (unfold fexp, emin, prec, emax; lia).
    cbn [shr shr_record_of_loc shr_m loc_of_shr_record round_nearest_even Zdigits2].
    assert (fexp prec emax (Z.pos (digits2_pos mz) + ez) - ez = 0) as ->
      by (unfold fexp, emin, prec, emax; lia).
    cbn [shr shr_record_of_loc shr_m].
    assert ((ez <=? emax - prec) = true) as ->; [| done].
    apply Z.leb_le. unfold emax, prec. lia. }
  unfold binary_round, shl_align.
  destruct (fexp prec emax (Z.pos (digits2_pos m) + 0) - 0) as [| d | d] eqn:Ed;
    unfold fexp, emin, prec, emax in Ed.
  - exists m, 0. rewrite Haux by lia. split; [done |]. simpl. lia.
  - lia.
  - exists (Pos.iter xO m d), (Z.max (Z.pos (digits2_pos m) + 0 - 53) (3 - 1024 - 53)).
    unfold fexp, emin, prec, emax.
    rewrite Haux; [| rewrite digits2_pos_shift; lia | lia].
    split; [done |]. split; [lia |].
    fold (Zpower.shift_pos d m). rewrite Zpower.shift_pos_correct, Z.pow_pos_fold.
    replace (- Z.max (Z.pos (digits2_pos m) + 0 - 53) (3 - 1024 - 53)) with (Z.pos d) by lia.
    lia.
Qed.

(** Every integer up to [2**53] in absolute value is held exactly. *)
Lemma FloatExact_53 (z : Z) : - 2 ^ 53 ≤ z ≤ 2 ^ 53 → FloatExact z.
Proof.
  intros Hz. unfold FloatExact.
  destruct (decide (z = 2 ^ 53)) as [-> | Hhi]; [by vm_compute |].
  destruct (decide (z = - 2 ^ 53)) as [-> | Hlo]; [by vm_compute |].
  unfold Py.int_of_float. rewrite Prim2SF_Z2float by lia.
  destruct z as [| m | m]; [done | |]; cbn [binary_normalize].
  - destruct (binary_round_exact false m ltac:(lia)) as (mz & ez & -> & Hez & Hmz).
    destruct (Z.leb_spec 0 ez).
    + assert (ez = 0) as -> by lia. f_equal. simpl in Hmz. lia.
    + rewrite Hmz, Z.div_mul; [done |]. apply Z.pow_nonzero; lia.
  - destruct (binary_round_exact true m ltac:(lia)) as (mz & ez & -> & Hez & Hmz).
    destruct (Z.leb_spec 0 ez).
    + assert (ez = 0) as -> by lia. f_equal. simpl in Hmz. lia.
    + rewrite Hmz, Z.div_mul; [f_equal; lia |]. apply Z.pow_nonzero; lia.
Qed.

End FloatRange.

(** ** The int-if-whole transform (claim C8) *)





(** ** The time pattern *)

Section TimePattern.

Lemma substring_prefix (d r : string) :
  String.substring 0 (String.length d) (d +:+ r) = d.
Proof.
  induction d as [|c d IH].
  - by destruct r.
  - rewrite app_cons. simpl. by rewrite IH.
Qed.

Lemma length_app_str (a b : string) :
  String.length (a +:+ b) = (String.length a + String.length b)%nat.
Proof. induction a as [|c a IH]; [done |]. rewrite app_cons. simpl. by rewrite IH. Qed.

(** Whatever [c+] hands to the rest of the pattern is a non-empty run of
    the class. *)
Lemma plus_sound {R} cls (i : nat) (s : string) (k : Re.pos → option R) (r : R) :
  Re.plus cls i s k = Some r →
  ∃ d rest,
    s = d +:+ rest ∧ d ≠ "" ∧ Str.all cls d = true
    ∧ k (Re.Pos (i + String.length d) rest) = Some r.
Proof.
  revert i. induction s as [|c s IH]; intros i; simpl; [done |].
  destruct (cls c) eqn:Hc; [| done].
  destruct (Re.plus cls (S i) s k) as [r' |] eqn:E.
  - intros [= <-]. destruct (IH _ E) as (d & rest & -> & _ & Hd & Hk).
    exists (String c d), rest. simpl. rewrite Hc, Hd.
    repeat split; [done |]. by rewrite <- Nat.add_succ_comm.
  - intros Hk. exists (String c ""), s. simpl. rewrite Hc.
    repeat split; [done |]. by rewrite Nat.add_1_r.
Qed.

(** When the rest of the pattern gives up before a digit, [\d+] takes the
    whole run and does not backtrack into it. *)
Lemma plus_greedy {R} (i : nat) (d rest : string) (k : Re.pos → option R) :
  Digits d → Py.starts_with_digit rest = false → StopsAtDigit k →
  Re.plus Chr.isdecimal i (d +:+ rest) k =
  k (Re.Pos (i + String.length d) rest).
Proof.
  intros [Hne Hd] Hrest Hk. revert i.
  induction d as [|c d IH]; intros i; [done |].
  rewrite app_cons. simpl in *. apply andb_true_iff in Hd as [Hc Hd]. rewrite Hc.
  destruct d as [|c' d].
  - rewrite app_nil, Nat.add_1_r.
    assert (Re.plus Chr.isdecimal (S i) rest k = None) as ->; [| done].
    destruct rest as [|x rest]; simpl in *; [done | by rewrite Hrest].
  - rewrite IH by done. rewrite <- Nat.add_succ_comm.
    destruct (k (Re.Pos (S i + _) rest)) eqn:E; [done |].
    apply Hk. simpl.
    by apply andb_true_iff in Hd as [-> _].
Qed.

Lemma run_digits_sound (i : nat) (p : Re.pos) (caps : gmap nat string) k m :
  Re.run (Re.Group i (Re.Plus Chr.isdecimal)) p caps k = Some m →
  ∃ d rest,
    Re.rest p = d +:+ rest ∧ Digits d
    ∧ k (Re.Pos (Re.idx p + String.length d) rest) (<[i := d]> caps) = Some m.
Proof.
  simpl. intros H. apply plus_sound in H as (d & rest & Hp & Hne & Hd & Hk).
  exists d, rest. repeat split; [done.. |].
  cbn [Re.idx] in Hk. rewrite Hp in Hk.
  replace (Re.idx p + String.length d - Re.idx p)%nat with (String.length d) in Hk by lia.
  by rewrite substring_prefix in Hk.
Qed.

Lemma run_digits_greedy (i : nat) (p : Re.pos) (caps : gmap nat string) k
    (d rest : string) :
  Re.rest p = d +:+ rest → Digits d → Py.starts_with_digit rest = false →
  (∀ caps', StopsAtDigit (λ p', k p' caps')) →
  Re.run (Re.Group i (Re.Plus Chr.isdecimal)) p caps k =
  k (Re.Pos (Re.idx p + String.length d) rest) (<[i := d]> caps).
Proof.
  intros Hp Hd Hrest Hk. simpl. rewrite Hp.
  rewrite plus_greedy; [| done | done | intros p' Hp'; apply Hk, Hp'].
  cbn [Re.idx].
  replace (Re.idx p + String.length d - Re.idx p)%nat with (String.length d) by lia.
  by rewrite substring_prefix.
Qed.

Lemma TIME_RE_parts :
  TIME_RE = Re.Seq Re.Bol (Re.Seq (Re.Opt re_hours) re_tail).
Proof. reflexivity. Qed.

Lemma Digits_app_digit (d : string) (c : ascii) (r : string) :
  Digits d → Chr.isdecimal c = true → Py.starts_with_digit (d +:+ String c r) = true.
Proof. intros [Hne Hd] Hc. destruct d; [done |]. simpl in *. by destruct (Chr.isdecimal a). Qed.

Lemma seconds_sound (p : Re.pos) (caps : gmap nat string) k m :
  Re.run re_seconds p caps k = Some m →
  ∃ sec rest,
    Re.rest p = sec +:+ rest ∧ SecText sec
    ∧ k (Re.Pos (Re.idx p + String.length sec) rest) (<[3%nat := sec]> caps) = Some m.
Proof.
  unfold re_seconds, re_digits. cbn [Re.run]. intros H.
  apply plus_sound in H as (d & r1 & Hp & Hne & Hd & H).
  cbn [Re.rest Re.idx Re.advance] in H.
  destruct (match r1 with String c' s' => _ | EmptyString => None end) as [m' |] eqn:E.
  - injection H as ->. destruct r1 as [|c s']; [done |].
    destruct (Ascii.eqb "." c) eqn:Hc; [| done]. apply Ascii.eqb_eq in Hc as <-.
    apply plus_sound in E as (f & r2 & -> & Hnf & Hf & E).
    exists (d +:+ "." +:+ f), r2. split; [| split].
    + by rewrite Hp, !app_assoc_str.
    + right. by exists d, f.
    + rewrite Hp in E. cbn [Re.idx] in E.
      rewrite !length_app_str. cbn [String.length].
      replace (S (Re.idx p + String.length d) + String.length f - Re.idx p)%nat
        with (String.length (d +:+ "." +:+ f)) in E
        by (rewrite !length_app_str; cbn [String.length]; lia).
      replace (d +:+ String "." (f +:+ r2)) with ((d +:+ "." +:+ f) +:+ r2) in E
        by by rewrite !app_assoc_str.
      rewrite substring_prefix in E. rewrite <- E. f_equal. f_equal. lia.
  - exists d, r1. split; [done |]. split; [by left |].
    rewrite Hp in H.
    replace (Re.idx p + String.length d - Re.idx p)%nat with (String.length d) in H by lia.
    by rewrite substring_prefix in H.
Qed.

(** What a decimal digit is not. *)
Lemma digit_facts (c : ascii) :
  Chr.isdecimal c = true →
  Ascii.eqb "." c = false ∧ Ascii.eqb ":" c = false ∧ Ascii.eqb c "010" = false
  ∧ Ascii.eqb c "_" = false ∧ Chr.isspace c = false ∧ Chr.lower c = c
  ∧ Ascii.eqb c "i" = false ∧ Ascii.eqb c "n" = false
  ∧ ∀ r, Py.sign (String c r) = (false, String c r).
Proof. by destruct c as [[] [] [] [] [] [] [] []]. Qed.

(** Closes a goal [StopsAtDigit k] for a [k] that wants a dot, a colon or
    the end of the text next. *)
Ltac stops_at_digit :=
  let c := fresh "c" in let r := fresh "r" in let Hc := fresh "Hc" in
  let j := fresh "j" in
  let H1 := fresh in let H2 := fresh in let H3 := fresh in
  intros [j [|c r]] Hc;
  cbn [Re.rest Re.idx Re.advance Py.starts_with_digit Re.run] in *;
  [done |];
  destruct (digit_facts c Hc) as (H1 & H2 & H3 & _);
  rewrite ?H1, ?H2; try done;
  destruct r; cbn [Re.at_eol]; rewrite ?H3; done.

(** The seconds part followed by the end of the text. *)
Lemma seconds_complete (p : Re.pos) (caps : gmap nat string) (sec : string) :
  Re.rest p = sec → SecText sec →
  Re.run (Re.Seq re_seconds Re.Eol) p caps (λ _ m, Some m) =
  Some (<[3%nat := sec]> caps).
Proof.
  intros Hp Hsec. unfold re_seconds, re_digits. cbn [Re.run].
  destruct Hsec as [Hd | (d & f & Hd & Hf & ->)].
  - rewrite <- (app_empty_r sec) in Hp. rewrite Hp.
    rewrite plus_greedy; [| done | done | stops_at_digit].
    cbn [Re.rest Re.idx Re.at_eol].
    replace (Re.idx p + String.length sec - Re.idx p)%nat with (String.length sec) by lia.
    by rewrite substring_prefix.
  - rewrite Hp.
    rewrite plus_greedy; [| done | done | stops_at_digit].
    cbn [Re.rest Re.idx Re.advance].
    change ("." +:+ f) with (String "."%char f). cbv beta iota.
    rewrite Ascii.eqb_refl. rewrite <- (app_empty_r f) at 1.
    rewrite plus_greedy; [| done | done | stops_at_digit].
    cbn [Re.rest Re.idx Re.at_eol].
    replace (S (Re.idx p + String.length d) + String.length f - Re.idx p)%nat
      with (String.length (d +:+ "." +:+ f))
      by (rewrite !length_app_str; cbn [String.length]; lia).
    change (d +:+ String "."%char f) with (d +:+ "." +:+ f).
    pose proof (substring_prefix (d +:+ "." +:+ f) "") as Hsub.
    rewrite app_empty_r in Hsub. by rewrite Hsub.
Qed.

(** One step of the matcher on each construct. *)
Lemma run_seq r1 r2 p (caps : gmap nat string) k :
  Re.run (Re.Seq r1 r2) p caps k =
  Re.run r1 p caps (λ p' caps', Re.run r2 p' caps' k).
Proof. reflexivity. Qed.

Lemma run_opt r p (caps : gmap nat string) k :
  Re.run (Re.Opt r) p caps k =
  match Re.run r p caps k with Some m => Some m | None => k p caps end.
Proof. reflexivity. Qed.

Lemma run_lit c i c' s' (caps : gmap nat string) k :
  Re.run (Re.Lit c) (Re.Pos i (String c' s')) caps k =
  if Ascii.eqb c c' then k (Re.Pos (S i) s') caps else None.
Proof. reflexivity. Qed.

Lemma run_lit_nil c i (caps : gmap nat string) k :
  Re.run (Re.Lit c) (Re.Pos i "") caps k = None.
Proof. reflexivity. Qed.

Lemma run_eol p (caps : gmap nat string) k :
  Re.run Re.Eol p caps k = if Re.at_eol (Re.rest p) then k p caps else None.
Proof. reflexivity. Qed.

(** The minutes, the colon, the seconds and the end of the text. *)
Lemma tail_sound (p : Re.pos) (caps m : gmap nat string) :
  Re.run re_tail p caps (λ _ m, Some m) = Some m →
  ∃ mm sec r,
    Re.rest p = mm +:+ ":" +:+ sec +:+ r ∧ Digits mm ∧ SecText sec
    ∧ Re.at_eol r = true ∧ m = <[3%nat := sec]> (<[2%nat := mm]> caps).
Proof.
  unfold re_tail, re_digits. rewrite run_seq. intros H.
  apply run_digits_sound in H as (mm & r1 & Hp & Hmm & H).
  rewrite run_seq in H. destruct r1 as [|c r1]; [by rewrite run_lit_nil in H |].
  rewrite run_lit in H. destruct (Ascii.eqb ":" c) eqn:Hc; [| done].
  apply Ascii.eqb_eq in Hc as <-. rewrite run_seq in H.
  apply seconds_sound in H as (sec & r & Hr & Hsec & H).
  rewrite run_eol in H. cbn [Re.rest] in *.
  destruct (Re.at_eol r) eqn:Heol; [| done]. injection H as <-.
  exists mm, sec, r. by rewrite Hp, Hr.
Qed.

Lemma tail_complete (p : Re.pos) (caps : gmap nat string) (mm sec : string) :
  Re.rest p = mm +:+ ":" +:+ sec → Digits mm → SecText sec →
  Re.run re_tail p caps (λ _ m, Some m) =
  Some (<[3%nat := sec]> (<[2%nat := mm]> caps)).
Proof.
  intros Hp Hmm Hsec. unfold re_tail, re_digits. rewrite run_seq.
  rewrite (run_digits_greedy _ _ _ _ mm (":" +:+ sec));
    [| done | done | done | intros caps'; stops_at_digit].
  rewrite run_seq. change (":" +:+ sec) with (String ":"%char sec).
  rewrite run_lit, Ascii.eqb_refl. by apply seconds_complete.
Qed.

(** Without a colon after the first run of digits the tail does not match. *)
Lemma tail_fails (p : Re.pos) (caps : gmap nat string) (sec : string) :
  Re.rest p = sec → SecText sec →
  Re.run re_tail p caps (λ _ m, Some m) = None.
Proof.
  intros Hp Hsec. unfold re_tail, re_digits. rewrite run_seq.
  destruct Hsec as [Hd | (d & f & Hd & Hf & ->)].
  - rewrite (run_digits_greedy _ _ _ _ sec "");
      [| by rewrite app_empty_r | done | done | intros caps'; stops_at_digit].
    by rewrite run_seq, run_lit_nil.
  - rewrite (run_digits_greedy _ _ _ _ d ("." +:+ f));
      [| done | done | done | intros caps'; stops_at_digit].
    rewrite run_seq. change ("." +:+ f) with (String "."%char f).
    by rewrite run_lit.
Qed.

(** [TIME_RE] matches exactly the texts [[H:]MM:SS[.fff]], possibly followed
    by one newline, and binds the groups to their parts. *)
Lemma time_re_sound (s : string) (m : gmap nat string) :
  Re.match_ TIME_RE s = Some m →
  ∃ oh mm sec s' r,
    TimeText oh mm sec s' ∧ s = s' +:+ r ∧ Re.at_eol r = true
    ∧ m = time_groups oh mm sec.
Proof.
  unfold Re.match_. rewrite TIME_RE_parts, run_seq. cbn [Re.run Re.idx].
  cbn [Nat.eqb]. fold (Re.run re_hours) (Re.run re_tail).
  destruct (Re.run re_hours _ _ _) as [m' |] eqn:E.
  - intros [= ->]. unfold re_hours, re_digits in E. rewrite run_seq in E.
    apply run_digits_sound in E as (h & r1 & Hp & Hh & E).
    cbn [Re.rest Re.idx] in *. subst s.
    destruct r1 as [|c r1]; [by rewrite run_lit_nil in E |].
    rewrite run_lit in E. destruct (Ascii.eqb ":" c) eqn:Hc; [| done].
    apply Ascii.eqb_eq in Hc as <-.
    apply tail_sound in E as (mm & sec & r & Hr & Hmm & Hsec & Heol & ->).
    cbn [Re.rest] in Hr. subst r1.
    exists (Some h), mm, sec, (h +:+ ":" +:+ mm +:+ ":" +:+ sec), r.
    split; [exact (conj Hmm (conj Hsec (conj Hh eq_refl))) |].
    split; [| done].
    change (String ":"%char (mm +:+ ":" +:+ sec +:+ r))
      with (":" +:+ mm +:+ ":" +:+ sec +:+ r).
    by rewrite !app_assoc_str.
  - intros H. apply tail_sound in H as (mm & sec & r & Hr & Hmm & Hsec & Heol & ->).
    cbn [Re.rest] in Hr. subst s.
    exists None, mm, sec, (mm +:+ ":" +:+ sec), r.
    split; [exact (conj Hmm (conj Hsec eq_refl)) |].
    split; [| done]. by rewrite !app_assoc_str.
Qed.

Lemma time_re_complete (oh : option string) (mm sec s : string) :
  TimeText oh mm sec s → Re.match_ TIME_RE s = Some (time_groups oh mm sec).
Proof.
  intros (Hmm & Hsec & Hs).
  unfold Re.match_. rewrite TIME_RE_parts, run_seq. cbn [Re.run Re.idx].
  cbn [Nat.eqb]. fold (Re.run re_hours) (Re.run re_tail).
  unfold re_hours, re_digits. rewrite run_seq.
  destruct oh as [h |]; [destruct Hs as [Hh ->] | subst s].
  - rewrite (run_digits_greedy _ _ _ _ h (":" +:+ mm +:+ ":" +:+ sec));
      [| done | done | done | intros caps'; stops_at_digit].
    change (":" +:+ mm +:+ ":" +:+ sec) with (String ":"%char (mm +:+ ":" +:+ sec)).
    rewrite run_lit, Ascii.eqb_refl.
    by rewrite (tail_complete _ _ mm sec).
  - rewrite (run_digits_greedy _ _ _ _ mm (":" +:+ sec));
      [| done | done | done | intros caps'; stops_at_digit].
    change (":" +:+ sec) with (String ":"%char sec).
    rewrite run_lit, Ascii.eqb_refl.
    rewrite (tail_fails _ _ sec) by done.
    by rewrite (tail_complete _ _ mm sec).
Qed.

End TimePattern.

(** ** Reading numbers from digit runs *)

Section DigitRuns.

Lemma Digits_first (d : string) :
  Digits d → ∃ c r, d = String c r ∧ Chr.isdecimal c = true.
Proof.
  intros [Hne Hd]. destruct d as [|c r]; [done |].
  exists c, r. split; [done |]. simpl in Hd. by destruct (Chr.isdecimal c).
Qed.

Lemma Digits_last (d : string) :
  Digits d → ∃ t c, d = t +:+ String c "" ∧ Chr.isdecimal c = true.
Proof.
  intros [Hne Hd]. induction d as [|c d IH]; [done |].
  simpl in Hd. apply andb_true_iff in Hd as [Hc Hd].
  destruct d as [|c' d].
  - by exists "", c.
  - destruct IH as (t & x & Ht & Hx); [done.. |].
    exists (String c t), x. by rewrite app_cons, <- Ht.
Qed.

(** A text that starts and ends with a digit is its own stripped form. *)
Lemma strip_digit_ends (s : string) :
  (∃ c r, s = String c r ∧ Chr.isdecimal c = true) →
  (∃ t c, s = t +:+ String c "" ∧ Chr.isdecimal c = true) →
  Str.strip s = s.
Proof.
  intros (c & r & Hs & Hc) (t & c' & Hs' & Hc'). unfold Str.strip.
  destruct (digit_facts c Hc) as (_ & _ & _ & _ & Hsp & _).
  destruct (digit_facts c' Hc') as (_ & _ & _ & _ & Hsp' & _).
  rewrite Hs at 1. rewrite lstrip_id by done. rewrite <- Hs, Hs'.
  by apply rstrip_id.
Qed.

Lemma SecText_last (sec : string) :
  SecText sec → ∃ t c, sec = t +:+ String c "" ∧ Chr.isdecimal c = true.
Proof.
  intros [Hd | (d & f & Hd & Hf & ->)]; [by apply Digits_last |].
  destruct (Digits_last f Hf) as (t & c & -> & Hc).
  exists (d +:+ "." +:+ t), c. by rewrite !app_assoc_str.
Qed.

Lemma SecText_first (sec : string) :
  SecText sec → ∃ c r, sec = String c r ∧ Chr.isdecimal c = true.
Proof.
  intros [Hd | (d & f & Hd & Hf & ->)]; [by apply Digits_first |].
  destruct (Digits_first d Hd) as (c & r & -> & Hc).
  exists c, (r +:+ "." +:+ f). by rewrite app_cons.
Qed.

Lemma strip_TimeText oh mm sec s : TimeText oh mm sec s → Str.strip s = s.
Proof.
  intros (Hmm & Hsec & Hs). apply strip_digit_ends.
  - destruct oh as [h |]; [destruct Hs as [Hh ->] | subst s].
    + destruct (Digits_first h Hh) as (c & r & -> & Hc).
      exists c, (r +:+ ":" +:+ mm +:+ ":" +:+ sec). by rewrite app_cons.
    + destruct (Digits_first mm Hmm) as (c & r & -> & Hc).
      exists c, (r +:+ ":" +:+ sec). by rewrite app_cons.
  - destruct (SecText_last sec Hsec) as (t & c & -> & Hc).
    destruct oh as [h |]; [destruct Hs as [Hh ->] | subst s].
    + exists (h +:+ ":" +:+ mm +:+ ":" +:+ t), c. by rewrite !app_assoc_str.
    + exists (mm +:+ ":" +:+ t), c. by rewrite !app_assoc_str.
Qed.

Lemma rstrip_trailing_space (t : string) (c : ascii) :
  Chr.isspace c = true → Str.rstrip (t +:+ String c "") = Str.rstrip t.
Proof.
  intros Hc. induction t as [|d t IH].
  - simpl. by rewrite Hc.
  - rewrite app_cons. simpl. by rewrite IH.
Qed.

(** What [$] lets follow a time text is stripped away. *)
Lemma strip_TimeText_eol oh mm sec s r :
  TimeText oh mm sec s → Re.at_eol r = true → Str.strip (s +:+ r) = s.
Proof.
  intros Ht Hr. pose proof (strip_TimeText _ _ _ _ Ht) as Hs.
  destruct r as [|c [|c' r]]; [by rewrite app_empty_r | | done].
  simpl in Hr. apply Ascii.eqb_eq in Hr as ->.
  pose proof Ht as (Hmm & _ & Hshape).
  assert (Hfirst : ∃ x t, s = String x t ∧ Chr.isspace x = false).
  { destruct oh as [h |]; [destruct Hshape as [Hh ->] | subst s].
    - destruct (Digits_first h Hh) as (x & t & -> & Hx).
      exists x, (t +:+ ":" +:+ mm +:+ ":" +:+ sec). rewrite app_cons.
      split; [done |]. by destruct (digit_facts x Hx) as (_ & _ & _ & _ & ? & _).
    - destruct (Digits_first mm Hmm) as (x & t & -> & Hx).
      exists x, (t +:+ ":" +:+ sec). rewrite app_cons.
      split; [done |]. by destruct (digit_facts x Hx) as (_ & _ & _ & _ & ? & _). }
  destruct Hfirst as (x & t & Hxt & Hx).
  unfold Str.strip in *. rewrite Hxt in Hs |- *.
  rewrite app_cons. rewrite lstrip_id in Hs |- * by done.
  rewrite <- app_cons. by rewrite rstrip_trailing_space.
Qed.

(** [digitpart] reads a whole run of digits when what follows is neither a
    digit nor an underscore that joins more digits. *)
Lemma digitpart_run (d rest : string) :
  Digits d →
  match rest with
  | String u r =>
      Chr.isdecimal u = false ∧ Ascii.eqb u "_" && Py.starts_with_digit r = false
  | EmptyString => True
  end →
  Py.digitpart (d +:+ rest) = (d, rest).
Proof.
  intros [Hne Hd] Hrest. induction d as [|c d IH]; [done |].
  rewrite app_cons. simpl in Hd. apply andb_true_iff in Hd as [Hc Hd].
  cbn [Py.digitpart]. rewrite Hc. destruct d as [|c' d].
  - rewrite app_nil. destruct rest as [|u r]; [done |].
    destruct Hrest as [Hu Hj]. rewrite Hj. cbn [Py.digitpart]. by rewrite Hu.
  - rewrite app_cons. rewrite app_cons in IH.
    simpl in Hd. apply andb_true_iff in Hd as [Hc' Hd].
    destruct (digit_facts c' Hc') as (_ & _ & _ & -> & _). cbn [andb].
    rewrite IH; [done | done |]. simpl. by rewrite Hc', Hd.
Qed.

(** What [int] and [float] skip is whitespace of [str.strip] as well. *)
Lemma py_isspace_sub (c : ascii) : Chr.isspace c = false → Py.isspace c = false.
Proof. unfold Py.isspace. by intros ->. Qed.

Lemma py_rstrip_id (s : string) c :
  Py.isspace c = false →
  Py.rstrip (s +:+ String c "") = s +:+ String c "".
Proof.
  intros H. induction s as [|d s IH].
  - simpl. by rewrite H.
  - rewrite app_cons. simpl. rewrite IH. by destruct s.
Qed.

(** [int] and [float] find nothing to skip around a text that starts and
    ends with a digit. *)
Lemma py_strip_digit_ends (s : string) :
  (∃ c r, s = String c r ∧ Chr.isdecimal c = true) →
  (∃ t c, s = t +:+ String c "" ∧ Chr.isdecimal c = true) →
  Py.strip s = s.
Proof.
  intros (c & r & Hs & Hc) (t & c' & Hs' & Hc'). unfold Py.strip.
  destruct (digit_facts c Hc) as (_ & _ & _ & _ & Hsp%py_isspace_sub & _).
  destruct (digit_facts c' Hc') as (_ & _ & _ & _ & Hsp'%py_isspace_sub & _).
  rewrite Hs at 1. cbn [Py.lstrip]. rewrite Hsp, <- Hs, Hs'.
  by apply py_rstrip_id.
Qed.

Lemma Readable_dec (d : string) : {Readable d} + {¬ Readable d}.
Proof. unfold Readable. apply le_dec. Qed.

Lemma GroupsReadable_dec (oh : option string) (mm : string) :
  {GroupsReadable oh mm} + {¬ GroupsReadable oh mm}.
Proof.
  unfold GroupsReadable. destruct (Readable_dec mm) as [Hmm | Hmm];
    [| right; by intros [_ ?]].
  destruct oh as [h |].
  - destruct (Readable_dec h) as [Hh | Hh].
    + left. split; [by intros ? [= <-] | done].
    + right. intros [H _]. by apply Hh, H.
  - left. by split.
Qed.

(** [int] of a run of digits is its decimal value, when the run is within
    the limit on its length, and an error when it is not. *)
Lemma int_of_str_Digits (d : string) :
  Digits d →
  Py.int_of_str (C:=cell) d =
  if Readable_dec d then Ok (Py.digits_value d) else Err ValueError.
Proof.
  intros Hd. unfold Py.int_of_str.
  rewrite py_strip_digit_ends by (by apply Digits_first || by apply Digits_last).
  destruct (Digits_first d Hd) as (c & r & Hcr & Hc).
  destruct (digit_facts c Hc) as (_ & _ & _ & _ & _ & _ & _ & _ & Hsign).
  rewrite Hcr at 1. rewrite Hsign, <- Hcr.
  rewrite <- (app_empty_r d) at 1. rewrite digitpart_run by done.
  rewrite Hcr. cbv beta iota.
  destruct (Readable_dec (String c r)) as [Hr | Hr]; unfold Readable in Hr.
  - by apply Nat.ltb_ge in Hr as ->.
  - by apply Nat.nle_gt, Nat.ltb_lt in Hr as ->.
Qed.

(** [float] of a seconds text reads its digits as an integer and scales it
    by the number of digits after the point. *)
Lemma float_of_str_seconds (sec : string) :
  SecText sec →
  ∃ d f,
    (sec = d ∧ f = "" ∨ sec = d +:+ "." +:+ f)
    ∧ Py.float_of_str (C:=cell) sec =
      Ok (Py.decimal_to_float false (Py.digits_value (d +:+ f))
            (- Z.of_nat (String.length f))).
Proof.
  intros Hsec.
  assert (Hstart : ∀ body,
    Py.float_of_str (C:=cell) sec = body →
    (let '(ip, r1) := Py.digitpart sec in
     let '(fp, r2) :=
       match r1 with
       | String "." r => Py.digitpart r
       | _ => (EmptyString, r1)
       end in
     match ip +:+ fp, Py.exponent r2 with
     | String _ _ as ds, Some e =>
         Ok (Py.decimal_to_float false (Py.digits_value ds)
               (e - Z.of_nat (String.length fp)))
     | _, _ => Err ValueError
     end) = body).
  { intros body <-. unfold Py.float_of_str.
    rewrite py_strip_digit_ends by (by apply SecText_first || by apply SecText_last).
    destruct (SecText_first sec Hsec) as (c & r & Hcr & Hc).
    destruct (digit_facts c Hc) as (_ & _ & _ & _ & _ & Hlow & Hi & Hn & Hsign).
    rewrite Hcr at 2. rewrite Hsign, <- Hcr.
    assert (Str.lower sec = String c (Str.lower r)) as ->.
    { rewrite Hcr. unfold Str.lower. simpl. by rewrite Hlow. }
    cbn [String.eqb]. by rewrite Hi, Hn. }
  specialize (Hstart _ eq_refl). rewrite <- Hstart. clear Hstart.
  destruct Hsec as [Hd | (d & f & Hd & Hf & ->)].
  - exists sec, "". split; [by left |].
    rewrite <- (app_empty_r sec) at 1. rewrite digitpart_run by done.
    rewrite !app_empty_r. cbn [Py.exponent String.length].
    destruct sec; [by destruct Hd |]. done.
  - exists d, f. split; [by right |].
    rewrite digitpart_run; [| done | done].
    change ("." +:+ f) with (String "."%char f). cbv beta iota.
    rewrite <- (app_empty_r f) at 1. rewrite digitpart_run by done.
    cbn [Py.exponent].
    destruct (Digits_first d Hd) as (c' & r' & -> & _). rewrite app_cons.
    by rewrite Z.sub_0_l.
Qed.

Lemma float_of_str_SecText (sec : string) :
  SecText sec → Py.float_of_str (C:=cell) sec = Ok (seconds_value sec).
Proof.
  intros Hsec. destruct (float_of_str_seconds sec Hsec) as (d & f & _ & H).
  unfold seconds_value. by rewrite H.
Qed.

End DigitRuns.

(** ** The time transform on numbers and on texts (claims C1, C4 and C5) *)

Section TimeTexts.

Lemma time_groups_lookup (oh : option string) (mm sec : string) :
  time_groups oh mm sec !! 1%nat = oh
  ∧ time_groups oh mm sec !! 2%nat = Some mm
  ∧ time_groups oh mm sec !! 3%nat = Some sec.
Proof.
  unfold time_groups. repeat split.
  - rewrite !lookup_insert_ne by done. destruct oh; [by rewrite lookup_insert_eq | done].
  - rewrite lookup_insert_ne by done. by rewrite lookup_insert_eq.
  - by rewrite lookup_insert_eq.
Qed.

Lemma time_groups_inj oh mm sec oh' mm' sec' :
  time_groups oh mm sec = time_groups oh' mm' sec' →
  oh = oh' ∧ mm = mm' ∧ sec = sec'.
Proof.
  intros H.
  destruct (time_groups_lookup oh mm sec) as (H1 & H2 & H3).
  destruct (time_groups_lookup oh' mm' sec') as (H1' & H2' & H3').
  rewrite H in H1, H2, H3. repeat split; congruence.
Qed.

(** The last lines of the transform, on an input that gets to them. *)
Lemma hms_to_seconds_text (c : cell) (s : string) :
  text_of c = Some s →
  isna c = false ∧ is_time_object c = false ∧ is_number c = false
  ∧ hms_to_seconds (Scalar c) =
    match Re.match_ TIME_RE (Str.strip s) with
    | None => Err (UnrecognizedTime c)
    | Some m =>
        h ← int_of_group_or_0 (Re.group m 1);
        mm ← int_of_group (Re.group m 2);
        ss ← float_of_group (Re.group m 3);
        v ← int_add_float (h * 3600 + mm * 60) ss;
        Ok (JFloat v)
    end.
Proof. by destruct c; intros [= <-]. Qed.

(** What the transform does with a text whose stripped form matched. *)
Lemma hms_to_seconds_matched (c : cell) (s : string) oh mm sec :
  text_of c = Some s →
  Re.match_ TIME_RE (Str.strip s) = Some (time_groups oh mm sec) →
  (∀ h, oh = Some h → Digits h) → Digits mm → SecText sec →
  hms_to_seconds (Scalar c) =
  if GroupsReadable_dec oh mm
  then v ← int_add_float (whole_seconds oh mm) (seconds_value sec); Ok (JFloat v)
  else Err ValueError.
Proof.
  intros Hc Hm Hh Hmm Hsec.
  destruct (hms_to_seconds_text c s Hc) as (_ & _ & _ & ->). rewrite Hm.
  destruct (time_groups_lookup oh mm sec) as (H1 & H2 & H3).
  unfold Re.group. rewrite H1, H2, H3.
  assert (int_of_group_or_0 oh =
          if oh is Some h then Py.int_of_str h else Ok 0) as ->.
  { destruct oh as [h |]; [| done]. destruct (Hh h eq_refl) as [Hne _]. by destruct h. }
  cbn [int_of_group float_of_group].
  rewrite (int_of_str_Digits mm), float_of_str_SecText by done.
  unfold whole_seconds, hours_value.
  destruct oh as [h |].
  - rewrite (int_of_str_Digits h) by eauto.
    destruct (Readable_dec h) as [Rh | Rh]; cbn [mbind result_bind].
    + destruct (Readable_dec mm) as [Rm | Rm]; cbn [mbind result_bind].
      * destruct (GroupsReadable_dec _ _) as [_ | G]; [done |].
        destruct G. split; [by intros ? [= <-] | done].
      * destruct (GroupsReadable_dec _ _) as [[_ G] | _]; done.
    + destruct (GroupsReadable_dec _ _) as [[G _] | _]; [| done].
      destruct Rh. by apply G.
  - cbn [mbind result_bind].
    destruct (Readable_dec mm) as [Rm | Rm]; cbn [mbind result_bind].
    + destruct (GroupsReadable_dec _ _) as [_ | G]; [done |].
      destruct G. by split.
    + destruct (GroupsReadable_dec _ _) as [[_ G] | _]; done.
Qed.

(** The decimal text of an integer has no colon, and so is no time. *)
Lemma string_of_uint_no_colon (d : Decimal.uint) :
  Str.all (λ c, negb (Ascii.eqb c ":")) (DecimalString.NilZero.string_of_uint d) = true.
Proof.
  assert (H : Str.all (λ c, negb (Ascii.eqb c ":"))
                (DecimalString.NilEmpty.string_of_uint d) = true)
    by (induction d; simpl; done).
  by destruct d.
Qed.

Lemma str_of_int_no_colon (z : Z) :
  Str.all (λ c, negb (Ascii.eqb c ":")) (Py.str_of_int z) = true.
Proof.
  unfold Py.str_of_int, DecimalString.NilZero.string_of_int.
  destruct (Z.to_int z) as [d | d]; [apply string_of_uint_no_colon |].
  cbn [Str.all]. by rewrite string_of_uint_no_colon.
Qed.

(** A text with a colon in it, as every time text is. *)
Lemma TimeText_colon oh mm sec s :
  TimeText oh mm sec s → ∃ a b, s = a +:+ ":" +:+ b.
Proof.
  intros (_ & _ & Hs). destruct oh as [h |]; [destruct Hs as [_ ->] | subst s].
  - by exists h, (mm +:+ ":" +:+ sec).
  - by exists mm, sec.
Qed.

(** The text of a numpy integer is no time. *)
Lemma str_of_int_no_time (z : Z) :
  Re.match_ TIME_RE (Str.strip (Py.str_of_int z)) = None.
Proof.
  destruct (Re.match_ TIME_RE (Str.strip (Py.str_of_int z))) as [m |] eqn:Hm; [| done].
  destruct (time_re_sound _ _ Hm) as (oh & mm & sec & s' & r & Ht & Hs & _ & _).
  destruct (TimeText_colon _ _ _ _ Ht) as (a & b & ->).
  destruct (strip_infix (Py.str_of_int z)) as (x & y & Hxy).
  pose proof (str_of_int_no_colon z) as Hno.
  rewrite Hxy, Hs, !all_app in Hno. cbn [Str.all] in Hno.
  rewrite !andb_true_iff in Hno. destruct Hno as (_ & ((_ & ([H _] & _)) & _) & _).
  by vm_compute in H.
Qed.

(** C4 as stated: every numeric input that is not missing yields a float,
    [v * 86400] or [v]. It fails on a numpy integer, the cell of an integer
    column: that is no instance of [int] or [float], and is read as a text,
    which is no time. It also fails on an [int] beyond the range of a float:
    [float(x)] raises [OverflowError]. *)
Lemma hms_to_seconds_number_raises :
  ¬ (∀ c, is_numeric c = true → isna c = false →
          ∃ v, hms_to_seconds (Scalar c) = Ok (JFloat v))
  ∧ ¬ (∀ c, is_number c = true → isna c = false →
            ∃ v, hms_to_seconds (Scalar c) = Ok (JFloat v)).
Proof.
  split; intros H.
  - destruct (H (CNpInt64 1225) eq_refl eq_refl) as [v Hv].
    vm_compute in Hv. discriminate Hv.
  - destruct (H (CInt (2 ^ 1024)) eq_refl eq_refl) as [v Hv].
    vm_compute in Hv. discriminate Hv.
Qed.

(** C4, amended. Take an input that is not missing. When it is an instance
    of [int] or [float] (an [int], a [bool], a [float] or a
    [numpy.float64]) and has the value [v] as a float: when [0 < v <= 1] the
    time transform returns [v * 86400]; when [v <= 0] or [v > 1] it returns
    [v]; a [v] that is a number is in one of the two cases; and when the
    conversion to float raises (an [int] beyond the range of a float), so
    does the transform. When it is a numpy integer, it is not taken for a
    number: the transform raises the unrecognized-time error. *)
Theorem hms_to_seconds_number (c : cell) :
  isna c = false →
  (is_number c = true →
     (∀ v, py_float c = Ok v →
        ((0 <? v)%float = true ∧ (v <=? 1)%float = true →
           hms_to_seconds (Scalar c) = Ok (JFloat (v * 86400)%float))
        ∧ ((v <=? 0)%float = true ∨ (1 <? v)%float = true →
           hms_to_seconds (Scalar c) = Ok (JFloat v))
        ∧ (is_nan v = false →
           ((0 <? v)%float = true ∧ (v <=? 1)%float = true)
           ∨ (v <=? 0)%float = true ∨ (1 <? v)%float = true))
     ∧ (∀ e, py_float c = Err e → hms_to_seconds (Scalar c) = Err e))
  ∧ (is_numpy_int c = true →
     hms_to_seconds (Scalar c) = Err (UnrecognizedTime c)).
Proof.
  intros Hna. split.
  - intros Hnum.
    assert (Hrun : hms_to_seconds (Scalar c) =
              v ← py_float c;
              if ((0 <? v) && (v <=? 1))%float
              then Ok (JFloat (v * 86400)%float) else Ok (JFloat v)).
    { unfold hms_to_seconds. cbn [isna_truth mbind result_bind]. rewrite Hna.
      by destruct c. }
    split; [intros v Hv | intros e He]; rewrite Hrun.
    + rewrite Hv. cbn [mbind result_bind]. split; [| split].
      * intros [H0 H1]. by rewrite H0, H1.
      * intros [H0 | H1].
        -- by rewrite (leb_ltb _ _ H0).
        -- by rewrite (ltb_leb _ _ H1), andb_false_r.
      * intros Hnan.
        rewrite (ltb_total 0 v), (ltb_total 1 v) by done.
        destruct (v <=? 0)%float, (v <=? 1)%float; simpl; auto.
    + by rewrite He.
  - intros Hnp.
    assert (∃ z, text_of c = Some (Py.str_of_int z)) as [z Hz]
      by (destruct c; try done; by eexists).
    destruct (hms_to_seconds_text c _ Hz) as (_ & _ & _ & ->).
    by rewrite str_of_int_no_time.
Qed.

Lemma hms_to_seconds_number_witness :
  hms_to_seconds (Scalar (CFloat 0.5)) = Ok (JFloat 43200)
  ∧ hms_to_seconds (Scalar (CInt 1225)) = Ok (JFloat 1225)
  ∧ hms_to_seconds (Scalar (CInt (2 ^ 1024))) = Err OverflowError
  ∧ hms_to_seconds (Scalar (CNpInt64 1225)) = Err (UnrecognizedTime (CNpInt64 1225)).
Proof.
  split; [| split; [| split]].
  - apply (proj1 (proj1 (hms_to_seconds_number (CFloat 0.5) eq_refl) eq_refl) 0.5%float);
      [reflexivity | split; reflexivity].
  - apply (proj1 (proj1 (hms_to_seconds_number (CInt 1225) eq_refl) eq_refl) 1225%float);
      [reflexivity | right; reflexivity].
  - apply (proj2 (proj1 (hms_to_seconds_number (CInt (2 ^ 1024)) eq_refl) eq_refl)).
    by vm_compute.
  - apply (proj2 (hms_to_seconds_number (CNpInt64 1225) eq_refl)). reflexivity.
Defined.

(** C1 as stated: every text the pattern matches yields a float. It fails
    when [H*3600 + MM*60] is beyond the range of a float: adding the float
    [SS] to that integer raises [OverflowError]. *)
Lemma hms_to_seconds_time_text_overflow :
  ¬ (∀ s m, Re.match_ TIME_RE s = Some m →
       ∃ v, hms_to_seconds (Scalar (CStr s)) = Ok (JFloat v)).
Proof.
  intros H.
  pose (h := String "1" (zeros 309)).
  destruct (H (h +:+ ":00:00") (time_groups (Some h) "00" "00")) as [v Hv].
  - apply time_re_complete. repeat split; try done. by left.
  - vm_compute in Hv. discriminate Hv.
Qed.

(** C1, amended. A text the pattern matches is [[H:]MM:SS[.fff]], with the
    groups bound to [H], [MM] and [SS[.fff]]; on it the time transform
    returns [H*3600 + MM*60 + SS], a missing hours group counting as 0,
    provided [H] and [MM] have no more digits than [int] reads (4300) and
    the integer [H*3600 + MM*60] converts to a float. When that integer is
    beyond the range of a float the sum raises [OverflowError]; when [H] or
    [MM] has more digits than [int] reads, [int] raises [ValueError]. *)
Theorem hms_to_seconds_time_text (s : string) (m : gmap nat string) :
  Re.match_ TIME_RE s = Some m →
  ∃ oh mm sec,
    m = time_groups oh mm sec
    ∧ (∃ s' r, TimeText oh mm sec s' ∧ s = s' +:+ r ∧ Re.at_eol r = true)
    ∧ Py.float_of_str (C:=cell) sec = Ok (seconds_value sec)
    ∧ (GroupsReadable oh mm →
       is_infinity (Py.Z2float (whole_seconds oh mm)) = false →
       hms_to_seconds (Scalar (CStr s)) =
       Ok (JFloat (Py.Z2float (whole_seconds oh mm) + seconds_value sec)%float))
    ∧ (GroupsReadable oh mm →
       is_infinity (Py.Z2float (whole_seconds oh mm)) = true →
       hms_to_seconds (Scalar (CStr s)) = Err OverflowError)
    ∧ (¬ GroupsReadable oh mm →
       hms_to_seconds (Scalar (CStr s)) = Err ValueError).
Proof.
  intros Hm.
  destruct (time_re_sound _ _ Hm) as (oh & mm & sec & s' & r & Ht & -> & Hr & ->).
  pose proof Ht as (Hmm & Hsec & Hs).
  exists oh, mm, sec. split; [done |]. split; [by exists s', r |].
  split; [by apply float_of_str_SecText |].
  assert (Hrun : hms_to_seconds (Scalar (CStr (s' +:+ r))) =
    if GroupsReadable_dec oh mm
    then v ← int_add_float (whole_seconds oh mm) (seconds_value sec); Ok (JFloat v)
    else Err ValueError).
  { apply (hms_to_seconds_matched _ (s' +:+ r)); [done | | | done..].
    - rewrite (strip_TimeText_eol _ _ _ _ _ Ht Hr). by apply time_re_complete.
    - intros h ->. by destruct Hs. }
  rewrite Hrun. unfold int_add_float, Py.float_of_int.
  destruct (GroupsReadable_dec oh mm) as [G | G].
  - repeat split; [by intros _ -> | by intros _ -> | done].
  - by repeat split.
Qed.

(** "20:25" gives 1225.0 and "1:03:05.5" gives 3785.5. *)
Lemma hms_to_seconds_time_text_witness :
  (∃ oh mm sec,
     hms_to_seconds (Scalar (CStr "20:25")) =
     Ok (JFloat (Py.Z2float (whole_seconds oh mm) + seconds_value sec)%float))
  ∧ hms_to_seconds (Scalar (CStr "20:25")) = Ok (JFloat 1225)
  ∧ hms_to_seconds (Scalar (CStr "1:03:05.5")) = Ok (JFloat 3785.5).
Proof.
  split; [| by vm_compute].
  destruct (hms_to_seconds_time_text "20:25" (time_groups None "20" "25") eq_refl)
    as (oh & mm & sec & Hg & _ & _ & Hfin & _).
  apply time_groups_inj in Hg as (<- & <- & <-).
  exists None, "20", "25". apply Hfin; [| reflexivity].
  split; [done |]. unfold Readable, Py.max_str_digits. simpl. lia.
Defined.

Lemma all_finite_from_spec (z : Z) (n : nat) :
  all_finite_from z n = true →
  ∀ k, z ≤ k < z + Z.of_nat n → is_infinity (Py.Z2float k) = false.
Proof.
  revert z. induction n as [|n IH]; intros z; simpl; [lia |].
  intros [Hz Hrest]%andb_true_iff k Hk.
  destruct (decide (k = z)) as [-> |]; [by apply negb_true_iff |].
  apply (IH (z + 1)); [done | lia].
Qed.

Lemma day_seconds_finite (z : Z) :
  0 ≤ z < 86400 → is_infinity (Py.Z2float z) = false.
Proof.
  intros Hz. apply (all_finite_from_spec 0 (Z.to_nat 86400)); [by vm_compute | lia].
Qed.





End TimeTexts.

(** ** The table reshaper (claims C3, C9 and C10) *)

Section Loops.

Context {A B : Type} (body : A → result error B).

(** A loop that ran to its end ran its body on every element. *)
Lemma for_each_Ok (l : list A) (bs : list B) :
  for_each body l = Ok bs ↔ Forall2 (λ a b, body a = Ok b) l bs.
Proof.
  revert bs. induction l as [|a l IH]; intros bs; simpl.
  - split; [by intros [= <-]; constructor | by inversion 1].
  - destruct (body a) as [b | e] eqn:Ha; cbn [mbind result_bind].
    + destruct (for_each body l) as [bs' | e] eqn:Hl; cbn [mbind result_bind].
      * split.
        -- intros [= <-]. constructor; [done | by apply IH].
        -- inversion 1 as [| ? b' ? bs'' Hb Hbs]; subst.
           apply IH in Hbs. congruence.
      * split; [done |]. inversion 1 as [| ? b' ? bs'' Hb Hbs]; subst.
        apply IH in Hbs. done.
    + split; [done |]. inversion 1; congruence.
Qed.

Lemma for_each_total (l : list A) :
  Forall (λ a, ∃ b, body a = Ok b) l → ∃ bs, for_each body l = Ok bs.
Proof.
  induction 1 as [|a l [b Hb] _ [bs Hbs]]; simpl; [by eexists |].
  rewrite Hb, Hbs. by eexists.
Qed.

End Loops.

Section Selections.

Implicit Types (row : series) (l a e : string).

Lemma filter_under_same l row :
  List.filter (under l) (List.filter (under l) row) = List.filter (under l) row.
Proof.
  induction row as [|x row IH]; simpl; [done |].
  destruct (under l x) eqn:E; simpl; [by rewrite E, IH | done].
Qed.

Lemma filter_under_other l l' row :
  l ≠ l' → List.filter (under l) (List.filter (under l') row) = [].
Proof.
  intros Hne. induction row as [|x row IH]; simpl; [done |].
  destruct (under l' x) eqn:E; simpl; [| done].
  unfold under in *. apply String.eqb_eq in E.
  destruct (String.eqb_spec (fst x) l); [congruence | done].
Qed.

(** [df[[age_col, event]]] keeps what is under the two labels. *)
Lemma getitem_project_age a e row :
  e ≠ a → getitem (project [a; e] row) a = getitem row a.
Proof.
  intros Hne. unfold getitem, project. simpl. fold (under a) (under e).
  rewrite app_nil_r, List.filter_app, filter_under_same.
  by rewrite (filter_under_other a e), app_nil_r.
Qed.

Lemma getitem_project_event a e row :
  e ≠ a → getitem (project [a; e] row) e = getitem row e.
Proof.
  intros Hne. unfold getitem, project. simpl. fold (under a) (under e).
  rewrite app_nil_r, List.filter_app, filter_under_same.
  by rewrite (filter_under_other e a).
Qed.

End Selections.

Section ReshaperLoops.

Context {V : Type}.
Variable value_parser : value → result error V.
Variable age_col : string.

(** Every key of a mapping was written for a row of the column. *)
Lemma fill_mapping_keys (event : string) (col : list series)
    (m0 m : gmap string V) (k : string) :
  fill_mapping value_parser age_col event col m0 = Ok m →
  is_Some (m !! k) →
  is_Some (m0 !! k)
  ∨ ∃ row age, row ∈ col ∧ py_int (getitem row age_col) = Ok age
               ∧ k = Py.str_of_int age.
Proof.
  revert m0. induction col as [|row col IH]; intros m0; simpl.
  - intros [= <-]. by left.
  - destruct (py_int (getitem row age_col)) as [age | e] eqn:Hage;
      cbn [mbind result_bind]; [| done].
    destruct (value_parser (getitem row event)) as [r | e];
      cbn [mbind result_bind]; [| done].
    intros Hm Hk. destruct (IH _ Hm Hk) as [Hin | (row' & age' & Hin & Hage' & ->)].
    + destruct (decide (Py.str_of_int age = k)) as [<- | Hne].
      * right. exists row, age. repeat split; [by left | done].
      * left. by rewrite lookup_insert_ne in Hin.
    + right. exists row', age'. repeat split; [by right | done].
Qed.

(** Every entry of the output was written for one of the events. *)
Lemma fill_out_entries (df : list series) (events : list string)
    (out0 out : gmap string (gmap string V)) (n : string) (m : gmap string V) :
  fill_out value_parser age_col df events out0 = Ok out →
  out !! n = Some m →
  out0 !! n = Some m
  ∨ ∃ e, e ∈ events ∧ normalize e = n
         ∧ event_mapping value_parser age_col df e = Ok m.
Proof.
  revert out0. induction events as [|e events IH]; intros out0; simpl.
  - intros [= <-]. by left.
  - destruct (event_mapping value_parser age_col df e) as [me | err] eqn:He;
      cbn [mbind result_bind]; [| done].
    intros Hout Hn. destruct (IH _ Hout Hn) as [Hin | (e' & Hin & Hne' & He')].
    + destruct (decide (normalize e = n)) as [<- | Hne].
      * rewrite lookup_insert_eq in Hin. injection Hin as <-.
        right. exists e. repeat split; [by left | done].
      * left. by rewrite lookup_insert_ne in Hin.
    + right. exists e'. repeat split; [by right | done..].
Qed.

(** Events with other names leave an entry as it is. *)
Lemma fill_out_other (df : list series) (events : list string)
    (out0 out : gmap string (gmap string V)) (n : string) :
  fill_out value_parser age_col df events out0 = Ok out →
  Forall (λ e, normalize e ≠ n) events →
  out !! n = out0 !! n.
Proof.
  revert out0. induction events as [|e events IH]; intros out0; simpl.
  - by intros [= <-].
  - destruct (event_mapping value_parser age_col df e) as [m | err];
      cbn [mbind result_bind]; [| done].
    intros Hout Hall. inversion Hall as [| ? ? Hne Hrest]; subst.
    rewrite (IH _ Hout Hrest). by rewrite lookup_insert_ne.
Qed.

(** The entry under a name is the mapping of the last event with that
    name; the events before it leave no trace. *)
Lemma fill_out_last (df : list series) (before after : list string)
    (e : string) (out0 out : gmap string (gmap string V)) :
  fill_out value_parser age_col df (before ++ e :: after) out0 = Ok out →
  Forall (λ e', normalize e' ≠ normalize e) after →
  ∃ m, event_mapping value_parser age_col df e = Ok m
       ∧ out !! normalize e = Some m.
Proof.
  revert out0. induction before as [|b before IH]; intros out0; simpl.
  - destruct (event_mapping value_parser age_col df e) as [m | err] eqn:He;
      cbn [mbind result_bind]; [| done].
    intros Hout Hafter. exists m. split; [done |].
    rewrite (fill_out_other _ _ _ _ _ Hout Hafter). by rewrite lookup_insert_eq.
  - destruct (event_mapping value_parser age_col df b) as [m | err];
      cbn [mbind result_bind]; [| done].
    apply IH.
Qed.

(** The loop over the events runs to its end when each event's mapping can
    be built. *)
Lemma fill_out_total (df : list series) (events : list string)
    (out0 : gmap string (gmap string V)) :
  Forall (λ e, ∃ m, event_mapping value_parser age_col df e = Ok m) events →
  ∃ out, fill_out value_parser age_col df events out0 = Ok out.
Proof.
  intros Hall. revert out0.
  induction Hall as [|e events [m Hm] _ IH]; intros out0; simpl; [by eexists |].
  rewrite Hm. cbn [mbind result_bind]. apply IH.
Qed.

(** The loop over the rows runs to its end when the age converts and the
    value transform returns on every row. *)
Lemma fill_mapping_total (event : string) (col : list series)
    (m0 : gmap string V) :
  Forall (λ row, (∃ age, py_int (getitem row age_col) = Ok age)
                 ∧ ∃ v, value_parser (getitem row event) = Ok v) col →
  ∃ m, fill_mapping value_parser age_col event col m0 = Ok m.
Proof.
  intros Hall. revert m0.
  induction Hall as [|row col [[age Hage] [v Hv]] _ IH]; intros m0; simpl;
    [by eexists |].
  rewrite Hage. cbn [mbind result_bind]. rewrite Hv. cbn [mbind result_bind].
  apply IH.
Qed.

End ReshaperLoops.

Lemma events_of_spec (age_col : string) (df : dataframe) (e : string) :
  e ∈ events_of age_col df ↔ e ∈ columns df ∧ e ≠ age_col.
Proof.
  unfold events_of. rewrite !list_elem_of_In, filter_In, negb_true_iff.
  by rewrite String.eqb_neq.
Qed.

Lemma Forall2_in_l {A B} (R : A → B → Prop) (l : list A) (k : list B) (a : A) :
  Forall2 R l k → a ∈ l → ∃ b, b ∈ k ∧ R a b.
Proof.
  induction 1 as [|x y l k Hxy _ IH]; [by intros ?%elem_of_nil |].
  intros [-> | Hin]%elem_of_cons.
  - exists y. split; [by left | done].
  - destruct (IH Hin) as (b & Hb & Hab). exists b. split; [by right | done].
Qed.

Lemma Forall2_in_r {A B} (R : A → B → Prop) (l : list A) (k : list B) (b : B) :
  Forall2 R l k → b ∈ k → ∃ a, a ∈ l ∧ R a b.
Proof.
  induction 1 as [|x y l k Hxy _ IH]; [by intros ?%elem_of_nil |].
  intros [-> | Hin]%elem_of_cons.
  - exists x. split; [by left | done].
  - destruct (IH Hin) as (a & Ha & Hab). exists a. split; [by right | done].
Qed.

Lemma Forall2_with_l {A B} (P : A → Prop) (R : A → B → Prop)
    (l : list A) (k : list B) :
  Forall P l → Forall2 R l k → Forall2 (λ a b, P a ∧ R a b) l k.
Proof.
  intros HP HR. induction HR as [|x y l k Hxy _ IH]; [constructor |].
  inversion HP; subst. constructor; [done | by apply IH].
Qed.

Lemma filter_all_true {A} (p : A → bool) (l : list A) :
  Forall (λ x, p x = true) (List.filter p l).
Proof.
  apply Forall_forall. intros x Hx%list_elem_of_In. by apply filter_In in Hx as [_ ?].
Qed.

Lemma filter_map_comm {A B} (f : A → B) (p : B → bool) (l : list A) :
  List.filter p (List.map f l) = List.map f (List.filter (λ a, p (f a)) l).
Proof.
  induction l as [|a l IH]; simpl; [done |].
  destruct (p (f a)); simpl; by rewrite IH.
Qed.

Lemma Forall2_map_l {A B C} (R : B → C → Prop) (f : A → B) (l : list A) (k : list C) :
  Forall2 R (List.map f l) k ↔ Forall2 (λ a c, R (f a) c) l k.
Proof.
  revert k. induction l as [|a l IH]; intros k; simpl.
  - split; inversion 1; constructor.
  - split; inversion 1; subst; constructor; try done; by apply IH.
Qed.

Lemma Forall2_compose {A B C} (R : A → B → Prop) (S : B → C → Prop)
    (l : list A) (m : list B) (k : list C) :
  Forall2 R l m → Forall2 S m k → Forall2 (λ a c, ∃ b, R a b ∧ S b c) l k.
Proof.
  intros H. revert k. induction H as [|a b l m Hab _ IH]; intros k.
  - inversion 1. constructor.
  - inversion 1; subst. constructor; [by exists b | by apply IH].
Qed.

Section AgeColumn.

Variable obj_str : cell → string.
Variable age_col : string.

Lemma Forall2_filter_under (R : string * cell → string * cell → Prop)
    (l : string) (row row' : series) :
  (∀ x y, R x y → fst x = fst y) →
  Forall2 R row row' →
  Forall2 R (List.filter (under l) row) (List.filter (under l) row').
Proof.
  intros Hfst. induction 1 as [|x y row row' Hxy _ IH]; simpl; [constructor |].
  assert (under l y = under l x) as -> by (unfold under; by rewrite (Hfst _ _ Hxy)).
  destruct (under l x); [by constructor | done].
Qed.

Lemma set_age_labels (x y : string * cell) :
  (if String.eqb (fst x) age_col
   then z ← astype_int (snd x); Ok (fst x, CInt z)
   else Ok x) = Ok y → fst x = fst y.
Proof.
  destruct (String.eqb (fst x) age_col); [| by intros [= <-]].
  destruct (astype_int (snd x)); cbn [mbind result_bind]; [by intros [= <-] | done].
Qed.

Lemma getitem_Scalar (row : series) (l : string) (x : cell) :
  getitem row l = Scalar x ↔ ∃ l', List.filter (under l) row = [(l', x)].
Proof.
  unfold getitem. fold (under l).
  destruct (List.filter (under l) row) as [| [l' c] [| lc lcs]]; split;
    try done; try (by intros [? ?]).
  - intros [= <-]. by exists l'.
  - by intros [? [= _ <-]].
Qed.

(** [astype(int)] turns the age cell of a kept row into its integer. *)
Lemma set_age_age (row row' : series) (x : cell) :
  set_age age_col row = Ok row' → getitem row age_col = Scalar x →
  ∃ z, astype_int x = Ok z ∧ getitem row' age_col = Scalar (CInt z).
Proof.
  intros Hset%for_each_Ok [l' Hx]%getitem_Scalar.
  apply (Forall2_filter_under _ age_col) in Hset; [| apply set_age_labels].
  rewrite Hx in Hset.
  inversion Hset as [| ? y ? ys Hy Hys Heq1 Heq2]; subst. inversion Hys; subst.
  assert (Hl : under age_col (l', x) = true).
  { assert (Hin : In (l', x) (List.filter (under age_col) row)) by (rewrite Hx; by left).
    by apply filter_In in Hin as [_ ?]. }
  unfold under in Hl. cbn [fst snd] in *. rewrite Hl in Hy.
  destruct (astype_int x) as [z | e]; cbn [mbind result_bind] in Hy; [| done].
  injection Hy as <-. exists z. split; [done |].
  apply getitem_Scalar. exists l'. congruence.
Qed.

(** ... and leaves the other cells as they are. *)
Lemma set_age_other (row row' : series) (l : string) :
  set_age age_col row = Ok row' → l ≠ age_col →
  getitem row' l = getitem row l.
Proof.
  intros Hset%for_each_Ok Hne.
  apply (Forall2_filter_under _ l) in Hset; [| apply set_age_labels].
  unfold getitem. fold (under l).
  assert (List.filter (under l) row' = List.filter (under l) row) as ->; [| done].
  assert (Hall : Forall (λ x, under l x = true) (List.filter (under l) row)).
  { apply Forall_forall. intros x Hx%list_elem_of_In. by apply filter_In in Hx as [_ ?]. }
  induction Hset as [|x y r r' Hxy _ IH]; [done |].
  inversion Hall as [| ? ? Hx Hr]; subst. rewrite IH by done. f_equal.
  unfold under in Hx. apply String.eqb_eq in Hx.
  destruct (String.eqb_spec (fst x) age_col); [congruence |]. congruence.
Qed.

Lemma keep_row_spec (row : series) :
  keep_row obj_str age_col row = true ↔
  ∃ x, getitem row age_col = Scalar x ∧ is_numeric_age obj_str x = true.
Proof.
  unfold keep_row. destruct (getitem row age_col) as [x | cs].
  - split; [by exists x | by intros (? & [= <-] & ?)].
  - split; [done | by intros (? & ? & ?)].
Qed.

(** The cast to 64 bits: within the range, and the identity there. *)
Lemma wrap64_range (z : Z) : - 2 ^ 63 ≤ wrap64 z < 2 ^ 63.
Proof.
  unfold wrap64. pose proof (Z.mod_pos_bound (z + 2 ^ 63) (2 ^ 64) eq_refl). lia.
Qed.

Lemma wrap64_id (z : Z) : - 2 ^ 63 ≤ z < 2 ^ 63 → wrap64 z = z.
Proof. intros Hz. unfold wrap64. rewrite Z.mod_small; lia. Qed.

Lemma astype_int_range (x : cell) (z : Z) :
  astype_int x = Ok z → - 2 ^ 63 ≤ z < 2 ^ 63.
Proof.
  assert (Hobj : (u ← py_int (Scalar x);
                  if in_range (- 2 ^ 63) (2 ^ 63) u then Ok u else Err OverflowError)
                 = Ok z → - 2 ^ 63 ≤ z < 2 ^ 63).
  { destruct (py_int (Scalar x)) as [u | e]; cbn [mbind result_bind]; [| done].
    destruct (in_range _ _ u) eqn:E; [| done]. intros [= <-].
    unfold in_range in E. apply andb_true_iff in E as [?%Z.leb_le ?%Z.ltb_lt]. lia. }
  destruct x; try exact Hobj; intros [= <-]; apply wrap64_range.
Qed.

(** The integer [astype(int)] gives is what [int] reads of the cell, but
    for a numpy integer outside the signed range, whose bits are kept. *)
Lemma astype_int_spec (x : cell) (z : Z) :
  astype_int x = Ok z →
  ∃ u, py_int (Scalar x) = Ok u
       ∧ (z = u ∨ is_numpy_int x = true ∧ ¬ (- 2 ^ 63 ≤ u < 2 ^ 63) ∧ z = wrap64 u).
Proof.
  assert (Hobj : (u ← py_int (Scalar x);
                  if in_range (- 2 ^ 63) (2 ^ 63) u then Ok u else Err OverflowError)
                 = Ok z →
                 ∃ u, py_int (Scalar x) = Ok u
                      ∧ (z = u ∨ is_numpy_int x = true
                                 ∧ ¬ (- 2 ^ 63 ≤ u < 2 ^ 63) ∧ z = wrap64 u)).
  { destruct (py_int (Scalar x)) as [u | e]; cbn [mbind result_bind]; [| done].
    destruct (in_range _ _ u) eqn:E; [| done]. intros [= <-]. exists u. by split; [| left]. }
  assert (Hnp : ∀ u, ∃ u', Ok (E:=error) u = Ok u'
                   ∧ (wrap64 u = u' ∨ true = true ∧ ¬ (- 2 ^ 63 ≤ u' < 2 ^ 63)
                                      ∧ wrap64 u = wrap64 u')).
  { intros u. exists u. split; [done |].
    destruct (decide (- 2 ^ 63 ≤ u < 2 ^ 63)) as [Hu | Hu]; [left; by apply wrap64_id |].
    by right. }
  destruct x; try exact Hobj; intros [= <-]; apply Hnp.
Qed.

(** A kept row and the row [astype(int)] makes of it. *)
Lemma typed_row_of (row trow : series) :
  keep_row obj_str age_col row = true → set_age age_col row = Ok trow →
  ∃ x z,
    getitem row age_col = Scalar x ∧ is_numeric_age obj_str x = true
    ∧ astype_int x = Ok z
    ∧ getitem trow age_col = Scalar (CInt z)
    ∧ ∀ e, e ≠ age_col → getitem trow e = getitem row e.
Proof.
  intros (x & Hx & Hnum)%keep_row_spec Hset.
  destruct (set_age_age _ _ _ Hset Hx) as (z & Hz & Htrow).
  exists x, z. repeat split; [done.. |].
  intros e He. by apply set_age_other.
Qed.

(** The typed rows are the kept rows, each with its age converted. *)
Lemma typed_rows_kept (df : dataframe) (typed : list series) :
  typed_rows obj_str age_col df = Ok typed →
  Forall2 (λ row trow,
      keep_row obj_str age_col row = true ∧ set_age age_col row = Ok trow)
    (kept_rows obj_str age_col df) typed.
Proof.
  unfold typed_rows. fold (kept_rows obj_str age_col df).
  intros Htyped%for_each_Ok.
  pose proof (filter_all_true (keep_row obj_str age_col)
    (List.map (row_series (columns df)) (rows df))) as Hkept.
  fold (kept_rows obj_str age_col df) in Hkept.
  induction Htyped as [|row trow kept typed Hset _ IH]; [constructor |].
  inversion Hkept; subst. constructor; [done | by apply IH].
Qed.

(** After [astype(int)] every row holds a 64-bit integer under the age
    label. *)
Lemma typed_rows_int64 (df : dataframe) (typed : list series) :
  typed_rows obj_str age_col df = Ok typed →
  Forall (λ trow, ∃ z, getitem trow age_col = Scalar (CInt z)
                       ∧ - 2 ^ 63 ≤ z < 2 ^ 63) typed.
Proof.
  intros Htyped%typed_rows_kept.
  induction Htyped as [|row trow kept typed [Hkeep Hset] _ IH]; [constructor |].
  constructor; [| done].
  destruct (typed_row_of row trow Hkeep Hset) as (x & z & _ & _ & Hz & Htrow & _).
  exists z. split; [done |]. by apply (astype_int_range x).
Qed.

End AgeColumn.

Lemma typed_rows_ages (obj_str : cell → string) (age_col : string)
    (df : dataframe) (typed : list series) :
  typed_rows obj_str age_col df = Ok typed →
  Forall (λ trow, ∃ z, getitem trow age_col = Scalar (CInt z)) typed.
Proof.
  intros Htyped%typed_rows_int64.
  eapply Forall_impl; [exact Htyped |]. intros trow (z & Hz & _). by exists z.
Qed.

Section NumericAges.

Variable obj_str : cell → string.

(** The text of a float, of a missing marker or of a date or time object is
    never a run of digits. *)
Hypothesis obj_str_not_digits :
  ∀ c, Str.isdigit (Str.strip (obj_str c)) = false.

Lemma rstrip_head (c : ascii) (r : string) :
  Chr.isspace c = false → ∃ t, Str.rstrip (String c r) = String c t.
Proof.
  intros Hc. simpl. destruct (Str.rstrip r); [| by eexists].
  rewrite Hc. by eexists.
Qed.

Lemma digits_value_from_nonneg (acc : Z) (d : string) :
  0 ≤ acc → Str.all Chr.isdecimal d = true → 0 ≤ Py.digits_value_from acc d.
Proof.
  revert acc. induction d as [|c d IH]; intros acc Hacc; simpl; [done |].
  intros [Hc Hd]%andb_true_iff. apply IH; [| done].
  unfold Chr.isdecimal, Chr.between, Chr.digit_value in *.
  apply andb_true_iff in Hc as [Hlo%N.leb_le _]. lia.
Qed.

Lemma digitpart_decimal (s d r : string) :
  Py.digitpart s = (d, r) → Str.all Chr.isdecimal d = true.
Proof.
  assert (H : ∀ n s d r, (String.length s < n)%nat →
              Py.digitpart s = (d, r) → Str.all Chr.isdecimal d = true).
  { clear. induction n as [|n IH]; intros s d r Hlen; [lia |].
    destruct s as [|c s]; [by intros [= <- <-] |].
    cbn [Py.digitpart]. destruct (Chr.isdecimal c) eqn:Hc; [| by intros [= <- <-]].
    destruct s as [|u s]; [intros [= <- <-]; simpl; by rewrite Hc |].
    simpl in Hlen. destruct (Ascii.eqb u "_" && Py.starts_with_digit s).
    - destruct (Py.digitpart s) as [d' r'] eqn:E. intros [= <- <-].
      simpl. rewrite Hc. apply (IH s d' r'); [lia | done].
    - destruct (Py.digitpart (String u s)) as [d' r'] eqn:E. intros [= <- <-].
      simpl. rewrite Hc. apply (IH (String u s) d' r'); [simpl; lia | done]. }
  intros Hd. apply (H (S (String.length s)) s d r); [lia | done].
Qed.

(** A minus sign is read only from a text that starts with one. *)
Lemma sign_minus (s body : string) :
  Py.sign s = (true, body) → s = String "-" body.
Proof.
  destruct s as [|c r]; [done |].
  destruct c as [[] [] [] [] [] [] [] []]; simpl; by intros [= <-].
Qed.

(** Where [int] finds a minus sign after the whitespace it skips,
    [str.strip] finds it as well. *)
Lemma py_lstrip_minus (s r : string) :
  Py.lstrip s = String "-" r → Str.lstrip s = String "-" r.
Proof.
  induction s as [|c s IH]; [done |]. cbn [Py.lstrip Str.lstrip].
  unfold Py.isspace. destruct (Chr.isspace c) eqn:Hc; cbn [andb].
  - destruct (negb (Chr.between 28 31 c)) eqn:Hb; [done |].
    intros [= -> _]. done.
  - done.
Qed.

Lemma py_strip_minus (s r : string) :
  Py.strip s = String "-" r → ∃ t, Str.strip s = String "-" t.
Proof.
  unfold Py.strip, Str.strip. intros H.
  assert (∃ r', Py.lstrip s = String "-" r') as [r' Hr'].
  { destruct (Py.lstrip s) as [|c u]; [done |]. cbn [Py.rstrip] in H.
    destruct (Py.rstrip u); [destruct (Py.isspace c); [done |] |];
      injection H as -> _; by eexists. }
  rewrite (py_lstrip_minus _ _ Hr'). by apply rstrip_head.
Qed.

(** [int] of a text that [str.isdigit] accepts once stripped is not
    negative. *)
Lemma int_of_str_nonneg (s : string) (z : Z) :
  Str.isdigit (Str.strip s) = true → Py.int_of_str (C:=cell) s = Ok z → 0 ≤ z.
Proof.
  intros Hd. unfold Py.int_of_str.
  destruct (Py.sign (Py.strip s)) as [neg body] eqn:Hsign.
  destruct (Py.digitpart body) as [d r] eqn:E.
  destruct d as [|c' d]; [done |]. destruct r; [| done].
  destruct (_ <? _)%nat; [done |]. intros [= <-].
  pose proof (digits_value_from_nonneg 0 (String c' d) ltac:(done)
                (digitpart_decimal _ _ _ E)) as Hv.
  destruct neg; [| done].
  apply sign_minus, py_strip_minus in Hsign as [t Ht].
  by rewrite Ht in Hd.
Qed.

Lemma str_of_int_negative (p : positive) :
  Str.isdigit (Str.strip (Py.str_of_int (Z.neg p))) = false.
Proof.
  unfold Py.str_of_int. cbn [Z.to_int DecimalString.NilZero.string_of_int].
  unfold Str.strip. rewrite lstrip_id by done.
  destruct (rstrip_head "-" (DecimalString.NilZero.string_of_uint (Pos.to_uint p)) eq_refl)
    as [t ->]. done.
Qed.

(** A cell that passes the age test is read as an integer that is not
    negative. *)
Lemma numeric_age_nonneg (x : cell) (z : Z) :
  is_numeric_age obj_str x = true → py_int (Scalar x) = Ok z → 0 ≤ z.
Proof.
  unfold is_numeric_age. intros [Hna Hd]%andb_true_iff.
  assert (Hint : ∀ z0, Str.isdigit (Str.strip (Py.str_of_int z0)) = true → 0 ≤ z0).
  { intros [| p | p] H; [done | done |]. by rewrite str_of_int_negative in H. }
  destruct x as [| ts | ts | t | t | ts | b | z0 | f | s | z0 | z0 | f];
    cbn [py_str] in Hd; try (by rewrite obj_str_not_digits in Hd).
  - by destruct b.
  - intros [= <-]. by apply Hint.
  - by apply int_of_str_nonneg.
  - intros [= <-]. by apply Hint.
  - intros [= <-]. by apply Hint.
Qed.

End NumericAges.

(** ** The rows as the loop over an event reads them *)

Section RowIteration.

Context {V : Type}.
Variable value_parser : value → result error V.
Variable age_col : string.

Lemma to_float64_label (lc : string * cell) : fst (to_float64 age_col lc) = fst lc.
Proof. destruct lc as [l []]; simpl; try done. by destruct (String.eqb l age_col). Qed.

Lemma filter_under_to_float64 (l : string) (row : series) :
  List.filter (under l) (List.map (to_float64 age_col) row)
  = List.map (to_float64 age_col) (List.filter (under l) row).
Proof.
  induction row as [|x row IH]; simpl; [done |].
  assert (under l (to_float64 age_col x) = under l x) as ->
    by (unfold under; by rewrite to_float64_label).
  destruct (under l x); simpl; by rewrite IH.
Qed.

(** A float64 row differs from the row it is built from in the age only. *)
Lemma getitem_to_float64_other (row : series) (e : string) :
  e ≠ age_col → getitem (List.map (to_float64 age_col) row) e = getitem row e.
Proof.
  intros Hne. unfold getitem. fold (under e). rewrite filter_under_to_float64.
  assert (List.map (to_float64 age_col) (List.filter (under e) row)
          = List.filter (under e) row) as ->; [| done].
  induction row as [|[l c] row IH]; simpl; [done |].
  destruct (under e (l, c)) eqn:E; [| done]. cbn [List.map]. rewrite IH. f_equal.
  unfold under in E. cbn [fst] in E. apply String.eqb_eq in E as ->.
  destruct c; simpl; try done.
  by destruct (String.eqb_spec e age_col).
Qed.

Lemma getitem_to_float64_age (row : series) (z : Z) :
  getitem row age_col = Scalar (CInt z) →
  getitem (List.map (to_float64 age_col) row) age_col
  = Scalar (CNpFloat64 (Py.Z2float z)).
Proof.
  intros [l Hl]%getitem_Scalar. apply getitem_Scalar. exists l.
  rewrite filter_under_to_float64, Hl.
  assert (under age_col (l, CInt z) = true) as E.
  { assert (In (l, CInt z) (List.filter (under age_col) row)) as Hin
      by (rewrite Hl; by left).
    by apply filter_In in Hin as [_ ?]. }
  unfold under in E. cbn [fst] in E. cbn [List.map to_float64]. by rewrite E.
Qed.

(** The row iteration hands over each row as it is, or over float64. *)
Lemma iterrows_rows (col : list series) :
  Forall2 (λ row hrow, hrow = row ∨ hrow = List.map (to_float64 age_col) row)
    col (iterrows age_col col).
Proof.
  unfold iterrows. destruct (forallb _ col).
  - induction col; constructor; [by right | done].
  - induction col; constructor; [by left | done].
Qed.

(** In the table of one event every typed row stays. *)
Lemma event_rows (typed : list series) (e : string) :
  e ≠ age_col →
  Forall (λ trow, ∃ z, getitem trow age_col = Scalar (CInt z)) typed →
  List.filter (has_age age_col) (List.map (project [age_col; e]) typed)
  = List.map (project [age_col; e]) typed.
Proof.
  intros He. induction 1 as [|trow typed [z Hz] _ IH]; [done |].
  cbn [List.map List.filter].
  assert (has_age age_col (project [age_col; e] trow) = true) as ->.
  { unfold has_age. by rewrite getitem_project_age, Hz. }
  by rewrite IH.
Qed.

(** The loop over the rows of one event runs over one handed row for each
    typed row. *)
Lemma event_col (typed : list series) (event : string) :
  event ≠ age_col →
  Forall (λ trow, ∃ z, getitem trow age_col = Scalar (CInt z)
                       ∧ - 2 ^ 63 ≤ z < 2 ^ 63) typed →
  ∃ hcol,
    event_mapping value_parser age_col typed event
    = fill_mapping value_parser age_col event hcol ∅
    ∧ Forall2 (Handed age_col event) typed hcol.
Proof.
  intros Hne Hint. unfold event_mapping. rewrite event_rows; [| done |].
  2: { eapply Forall_impl; [exact Hint |]. intros trow (z & Hz & _). by exists z. }
  eexists. split; [done |].
  pose proof (iterrows_rows (List.map (project [age_col; event]) typed)) as H.
  apply Forall2_map_l in H. apply (Forall2_with_l _ _ _ _ Hint) in H.
  eapply Forall2_impl; [exact H |].
  intros trow hrow [(z & Hz & Hrange) [-> | ->]]; unfold Handed.
  - rewrite getitem_project_event, getitem_project_age by done.
    split; [done |]. exists z, z. rewrite Hz. repeat split. by left.
  - rewrite getitem_to_float64_other, getitem_project_event by done.
    split; [done |].
    destruct (int_of_float_int64 z Hrange) as [k Hk]. exists z, k.
    rewrite (getitem_to_float64_age _ z) by by rewrite getitem_project_age.
    split; [done |]. split; [exact Hk |]. by right.
Qed.

(** The loop over the rows of one event runs to its end when the value
    transform returns on the cell of every typed row. *)
Lemma event_mapping_total (typed : list series) (event : string) :
  event ≠ age_col →
  Forall (λ trow, ∃ z, getitem trow age_col = Scalar (CInt z)
                       ∧ - 2 ^ 63 ≤ z < 2 ^ 63) typed →
  Forall (λ trow, ∃ v, value_parser (getitem trow event) = Ok v) typed →
  ∃ m, event_mapping value_parser age_col typed event = Ok m.
Proof.
  intros Hne Hint Hvp.
  destruct (event_col typed event Hne Hint) as (hcol & -> & Hcol).
  apply fill_mapping_total. apply Forall_forall. intros hrow Hhrow.
  destruct (Forall2_in_r _ _ _ _ Hcol Hhrow) as (trow & Htrow & He & z & k & _ & Hk & _).
  split; [by exists k |]. rewrite He.
  rewrite Forall_forall in Hvp. by apply Hvp.
Qed.

End RowIteration.

(** What a run of the reshaper that returns went through. *)
Lemma df_to_age_event_map_inv (obj_str : cell → string) {V : Type}
    (df : dataframe) (vp : value → result error V)
    (ages : list Z) (events : list string) (out : gmap string (gmap string V)) :
  df_to_age_event_map obj_str df vp = Ok (ages, events, out) →
  ∃ a typed,
    find_age_col (columns df) = Ok a
    ∧ rows df ≠ []
    ∧ typed_rows obj_str a df = Ok typed
    ∧ for_each (λ row, py_int (getitem row a)) typed = Ok ages
    ∧ events = List.map normalize (events_of a df)
    ∧ fill_out vp a typed (events_of a df) ∅ = Ok out.
Proof.
  unfold df_to_age_event_map.
  destruct (find_age_col (columns df)) as [a | e]; cbn [mbind result_bind]; [| done].
  destruct (negb _); [done |].
  destruct (rows df) as [| r rs] eqn:Hrows; [done |]. cbn [length Nat.eqb].
  rewrite <- Hrows.
  destruct (typed_rows obj_str a df) as [typed | e] eqn:Ht;
    cbn [mbind result_bind]; [| done].
  destruct (for_each _ typed) as [ages' | e] eqn:Ha; cbn [mbind result_bind]; [| done].
  destruct (fill_out _ _ _ _ _) as [out' | e] eqn:Ho; cbn [mbind result_bind]; [| done].
  intros [= <- <- <-]. exists a, typed. repeat split; try done. by rewrite Hrows.
Qed.

(** The ages returned are the ages of the typed rows, in their order. *)
Lemma ages_of_typed (age_col : string) (typed : list series) (ages : list Z) :
  for_each (λ row, py_int (getitem row age_col)) typed = Ok ages →
  Forall2 (λ trow z, py_int (getitem trow age_col) = Ok z) typed ages.
Proof. by intros ?%for_each_Ok. Qed.

(** C3 as stated: the ages returned are distinct and positive. Both fail: a
    table that repeats an age returns it twice, and the age cell "0" is a
    digit string and yields the age 0. *)
Lemma reshaper_ages_repeat_and_zero :
  ¬ (∀ obj_str df (vp : value → result error number) ages events out,
       df_to_age_event_map obj_str df vp = Ok (ages, events, out) →
       NoDup ages)
  ∧ ¬ (∀ obj_str df (vp : value → result error number) ages events out,
       df_to_age_event_map obj_str df vp = Ok (ages, events, out) →
       Forall (λ a, 0 < a) ages).
Proof.
  split; intros H.
  - epose proof (H sample_str ages_table num_to_int_if_whole _ _ _ ltac:(by vm_compute))
      as Hnd.
    apply NoDup_cons in Hnd as [_ Hnd]. apply NoDup_cons in Hnd as [Hnotin _].
    apply Hnotin. by left.
  - epose proof (H sample_str ages_table num_to_int_if_whole _ _ _ ltac:(by vm_compute))
      as Hpos.
    by inversion Hpos.
Qed.

(** C3, amended. The ages returned by the table reshaper are one per row
    that passes the age test, in the order of the rows (an age that the table
    repeats is repeated). The age cell of such a row is not missing, its
    text, stripped, is all digits, and [int] reads it as an integer [u] that
    is not negative. The age is [u], with one exception: for a cell of a
    numpy integer column that holds a [u] outside the signed 64-bit range, as
    an unsigned column does from [2**63] on, the age has the low 64 bits of
    [u], and is negative there. *)
Theorem reshaper_ages (obj_str : cell → string) {V : Type}
    (df : dataframe) (value_parser : value → result error V)
    (ages : list Z) (events : list string) (out : gmap string (gmap string V)) :
  (∀ c, Str.isdigit (Str.strip (obj_str c)) = false) →
  df_to_age_event_map obj_str df value_parser = Ok (ages, events, out) →
  ∃ age_col,
    find_age_col (columns df) = Ok age_col
    ∧ Forall2
        (λ row age, ∃ x u,
           getitem (row_series (columns df) row) age_col = Scalar x
           ∧ isna x = false
           ∧ Str.isdigit (Str.strip (py_str obj_str x)) = true
           ∧ py_int (Scalar x) = Ok u ∧ 0 ≤ u
           ∧ (age = u
              ∨ is_numpy_int x = true ∧ 2 ^ 63 ≤ u ∧ age = wrap64 u))
        (List.filter
           (λ row, keep_row obj_str age_col (row_series (columns df) row))
           (rows df))
        ages.
Proof.
  intros Hstr (age_col & typed & Hcol & _ & Htyped & Hages & _ & _)%df_to_age_event_map_inv.
  exists age_col. split; [done |].
  apply typed_rows_kept in Htyped. apply ages_of_typed in Hages.
  pose proof (Forall2_compose _ _ _ _ _ Htyped Hages) as Hall.
  unfold kept_rows in Hall. rewrite filter_map_comm in Hall.
  apply Forall2_map_l in Hall.
  eapply Forall2_impl; [exact Hall |].
  intros row age (trow & [Hkeep Hset] & Hage).
  destruct (typed_row_of obj_str age_col _ trow Hkeep Hset)
    as (x & z & Hx & Hnum & Hz & Htrow & _).
  rewrite Htrow in Hage. injection Hage as <-.
  destruct (astype_int_spec x z Hz) as (u & Hu & Hzu).
  pose proof (numeric_age_nonneg obj_str Hstr x u Hnum Hu) as Hnonneg.
  unfold is_numeric_age in Hnum. apply andb_true_iff in Hnum as [Hna%negb_true_iff Hd].
  exists x, u. repeat split; try done.
  destruct Hzu as [-> | (Hnp & Hout & ->)]; [by left |].
  right. split; [done |]. split; [lia | done].
Qed.

Lemma reshaper_ages_witness :
  (∃ age_col,
    find_age_col (columns ages_table) = Ok age_col
    ∧ Forall2
        (λ row age, ∃ x u,
           getitem (row_series (columns ages_table) row) age_col = Scalar x
           ∧ isna x = false
           ∧ Str.isdigit (Str.strip (py_str sample_str x)) = true
           ∧ py_int (Scalar x) = Ok u ∧ 0 ≤ u
           ∧ (age = u
              ∨ is_numpy_int x = true ∧ 2 ^ 63 ≤ u ∧ age = wrap64 u))
        (List.filter
           (λ row, keep_row sample_str age_col (row_series (columns ages_table) row))
           (rows ages_table))
        [0; 5; 5])
  ∧ ∃ out,
      df_to_age_event_map sample_str unsigned_age_table num_to_int_if_whole
      = Ok ([wrap64 (2 ^ 63 + 5)], ["5 km"], out)
      ∧ wrap64 (2 ^ 63 + 5) = - 2 ^ 63 + 5.
Proof.
  split; [| eexists; split; vm_compute; reflexivity].
  eapply (reshaper_ages sample_str ages_table num_to_int_if_whole).
  - intros c. reflexivity.
  - vm_compute. reflexivity.
Defined.

(** C10 as stated: every key is the decimal text of an age of the returned
    list. It fails beside a float64 event column for an age that no float
    holds: the row is built over float64, and the key is the text of the
    float nearest to the age. The age 9007199254740993 is stored under
    "9007199254740992". *)
Lemma reshaper_keys_rounded :
  ¬ (∀ obj_str df (vp : value → result error number) ages events out,
       df_to_age_event_map obj_str df vp = Ok (ages, events, out) →
       ∀ event mapping key,
         out !! event = Some mapping → is_Some (mapping !! key) →
         ∃ age, age ∈ ages ∧ key = Py.str_of_int age).
Proof.
  intros H.
  destruct (H sample_str big_age_table num_to_int_if_whole
              [9007199254740993] ["5 km"]
              (<["5 km" := <["9007199254740992" := JInt 1225]> ∅]> ∅)
              ltac:(by vm_compute) "5 km"
              (<["9007199254740992" := JInt 1225]> ∅) "9007199254740992")
    as (age & ->%list_elem_of_singleton & Hkey).
  - by rewrite lookup_insert_eq.
  - by rewrite lookup_insert_eq.
  - vm_compute in Hkey. discriminate Hkey.
Qed.

(** C10, amended. In the output of the table reshaper, whatever the value
    transform, every key of every inner map is the decimal text of what the
    loop reads back of an age of the returned ages list: the age itself, or
    the integer of the float nearest to it. So when every age of the list is
    an integer that a float holds exactly, as every integer up to [2**53] in
    absolute value is, every key is the decimal text of an age of the
    list. *)
Theorem reshaper_keys_are_ages (obj_str : cell → string) {V : Type}
    (df : dataframe) (value_parser : value → result error V)
    (ages : list Z) (events : list string) (out : gmap string (gmap string V)) :
  df_to_age_event_map obj_str df value_parser = Ok (ages, events, out) →
  ∀ event mapping key,
    out !! event = Some mapping → is_Some (mapping !! key) →
    (∃ age k, age ∈ ages
              ∧ (k = age ∨ Py.int_of_float (C:=cell) (Py.Z2float age) = Ok k)
              ∧ key = Py.str_of_int k)
    ∧ (Forall (λ age, - 2 ^ 53 ≤ age ≤ 2 ^ 53) ages →
       ∃ age, age ∈ ages ∧ key = Py.str_of_int age).
Proof.
  intros (age_col & typed & _ & _ & Htyped & Hages & _ & Hout)%df_to_age_event_map_inv
    event mapping key Hevent Hkey.
  apply ages_of_typed in Hages.
  destruct (fill_out_entries _ _ _ _ _ _ _ _ Hout Hevent)
    as [Hempty | (e & He & _ & Hmap)]; [by rewrite lookup_empty in Hempty |].
  apply events_of_spec in He as [_ Hne].
  destruct (event_col value_parser age_col typed e Hne
              (typed_rows_int64 _ _ _ _ Htyped)) as (hcol & Hrun & Hcol).
  rewrite Hrun in Hmap.
  destruct (fill_mapping_keys _ _ _ _ _ _ _ Hmap Hkey)
    as [Hempty | (hrow & k & Hhrow & Hk & ->)];
    [by rewrite lookup_empty in Hempty; destruct Hempty |].
  destruct (Forall2_in_r _ _ _ _ Hcol Hhrow)
    as (trow & Htrow & _ & z & k' & Hz & Hk' & Hread).
  assert (k' = k) as -> by congruence.
  destruct (Forall2_in_l _ _ _ _ Hages Htrow) as (age & Hage & Hint).
  rewrite Hz in Hint. injection Hint as <-.
  split; [by exists z, k |].
  intros Hexact. exists z. split; [done |].
  rewrite Forall_forall in Hexact. pose proof (FloatExact_53 z (Hexact z Hage)) as Hz53.
  destruct Hread as [-> | Hread]; [done |].
  unfold FloatExact in Hz53. congruence.
Qed.

Lemma reshaper_keys_are_ages_witness :
  ∃ out,
    df_to_age_event_map sample_str ages_table num_to_int_if_whole
    = Ok ([0; 5; 5], ["5 km"], out)
    ∧ ∀ mapping key,
        out !! "5 km" = Some mapping → is_Some (mapping !! key) →
        ∃ age, age ∈ [0; 5; 5] ∧ key = Py.str_of_int age.
Proof.
  eexists. split; [vm_compute; reflexivity |].
  intros mapping key Hm Hk.
  apply (reshaper_keys_are_ages sample_str ages_table num_to_int_if_whole
           [0; 5; 5] ["5 km"] _ ltac:(vm_compute; reflexivity) "5 km" mapping key Hm Hk).
  repeat constructor; lia.
Defined.

(** C9 as stated: whenever two event columns have names that normalize to
    the same text, the reshaper returns. It fails when the two names are the
    same: [row[event]] is then both cells at once, and the transform raises on
    [if pd.isna(x)]. *)
Lemma reshaper_same_name_raises :
  ¬ (∀ obj_str df age_col i j e1 e2,
       find_age_col (columns df) = Ok age_col →
       i ≠ j →
       events_of age_col df !! i = Some e1 →
       events_of age_col df !! j = Some e2 →
       normalize e1 = normalize e2 →
       ∃ ages events out,
         df_to_age_event_map obj_str df num_to_int_if_whole
         = Ok (ages, events, out)).
Proof.
  intros H.
  destruct (H sample_str same_name_table "Age" 0%nat 1%nat "5 km" "5 km")
    as (ages & events & out & Hout); [done.. |].
  vm_compute in Hout. discriminate Hout.
Qed.

(** C9, amended. Take a table with at least one row whose age column is
    found under a label of its own and whose kept age cells convert, and a
    value transform that returns on what every kept row has under every
    event name. If two event columns have names that normalize to the same
    text, the reshaper returns without an error; the event list names the
    shared text once per column, and the output map holds one entry under it:
    the mapping of the later column. The earlier column has no entry. *)
Theorem reshaper_name_collision (obj_str : cell → string) {V : Type}
    (df : dataframe) (value_parser : value → result error V)
    (age_col : string) (typed : list series)
    (before : list string) (e1 : string) (mid : list string) (e2 : string)
    (after : list string) :
  rows df ≠ [] →
  find_age_col (columns df) = Ok age_col →
  count_occ string_dec (columns df) age_col = 1%nat →
  typed_rows obj_str age_col df = Ok typed →
  (∀ trow e, trow ∈ typed → e ∈ events_of age_col df →
             ∃ v, value_parser (getitem trow e) = Ok v) →
  events_of age_col df = before ++ e1 :: mid ++ e2 :: after →
  normalize e1 = normalize e2 →
  Forall (λ e, normalize e ≠ normalize e2) after →
  ∃ ages out m2,
    df_to_age_event_map obj_str df value_parser
    = Ok (ages, List.map normalize (events_of age_col df), out)
    ∧ event_mapping value_parser age_col typed e2 = Ok m2
    ∧ out !! normalize e1 = Some m2
    ∧ out !! normalize e2 = Some m2.
Proof.
  intros Hrows Hcol Hone Htyped Hvp Hevents Hsame Hlast.
  assert (Hmaps : Forall
            (λ e, ∃ m, event_mapping value_parser age_col typed e = Ok m)
            (events_of age_col df)).
  { apply Forall_forall. intros e He. apply event_mapping_total.
    - by apply events_of_spec in He as [_ ?].
    - by apply (typed_rows_int64 obj_str _ df).
    - apply Forall_forall. intros trow Htrow. by apply Hvp. }
  unfold df_to_age_event_map. rewrite Hcol. cbn [mbind result_bind].
  rewrite Hone. cbn [Nat.eqb negb].
  destruct (rows df) as [| r rs] eqn:Hr; [done |]. cbn [length Nat.eqb].
  rewrite Htyped. cbn [mbind result_bind].
  assert (Hages : ∃ ages, for_each (λ row, py_int (getitem row age_col)) typed = Ok ages).
  { apply for_each_total.
    eapply Forall_impl; [exact (typed_rows_ages _ _ _ _ Htyped) |].
    intros trow [z ->]. by exists z. }
  destruct Hages as [ages ->]. cbn [mbind result_bind].
  destruct (fill_out_total value_parser age_col typed _ ∅ Hmaps) as [out Hout].
  rewrite Hout. cbn [mbind result_bind].
  rewrite Hevents in Hout.
  replace (before ++ e1 :: mid ++ e2 :: after)
    with ((before ++ e1 :: mid) ++ e2 :: after) in Hout
    by by rewrite <- app_assoc.
  destruct (fill_out_last _ _ _ _ _ _ _ _ Hout Hlast) as (m2 & Hm2 & Hlook).
  exists ages, out, m2. rewrite Hsame. by repeat split.
Qed.

Lemma reshaper_name_collision_witness :
  ∃ ages out m2,
    df_to_age_event_map sample_str spaced_name_table num_to_int_if_whole
    = Ok (ages, ["5 km"; "5 km"], out)
    ∧ event_mapping num_to_int_if_whole "Age"
        [[("Age", CInt 5); ("5  km", CFloat 1225); ("5 km", CFloat 1230)]] "5 km"
      = Ok m2
    ∧ out !! normalize "5  km" = Some m2
    ∧ out !! normalize "5 km" = Some m2.
Proof.
  apply (reshaper_name_collision sample_str spaced_name_table num_to_int_if_whole
           "Age" [[("Age", CInt 5); ("5  km", CFloat 1225); ("5 km", CFloat 1230)]]
           [] "5  km" [] "5 km" []); try done.
  intros trow e ->%list_elem_of_singleton He.
  change (events_of "Age" spaced_name_table) with ["5  km"; "5 km"] in He.
  apply elem_of_cons in He as [-> | ->%list_elem_of_singleton];
    eexists; vm_compute; reflexivity.
Defined.

(** * Further properties *)

(** ** The two normalizers *)

Section Normalizers.

Lemma tidy_spec (s : string) :
  tidy s = true ↔
  ∀ a c b, s = a +:+ String c b → Chr.isspace c = true →
    c = " "%char ∧ ∃ d b', b = String d b' ∧ Chr.isspace d = false.
Proof.
  induction s as [|x s IH].
  - split; [| done]. intros _ [|y a] c b; [rewrite app_nil | rewrite (app_cons y a)]; done.
  - cbn [tidy]. rewrite andb_true_iff, IH. split.
    + intros [Hx Hs] [|y a] c b.
      * rewrite app_nil. intros [= <- <-] Hc. rewrite Hc in Hx. cbn in Hx.
        apply andb_true_iff in Hx as [->%Ascii.eqb_eq Hnext]. split; [done |].
        destruct s as [|d s']; [done |]. exists d, s'. split; [done |].
        by apply negb_true_iff.
      * rewrite app_cons. intros [= <- ->]. by apply (Hs a).
    + intros H. split.
      * destruct (Chr.isspace x) eqn:Hx; [| done]. cbn [negb orb].
        destruct (H "" x s eq_refl Hx) as (-> & d & b' & -> & Hd).
        by rewrite Hd.
      * intros a c b ->. apply (H (String x a)). by rewrite app_cons.
Qed.

Lemma Normalized_tidy (s : string) :
  Normalized s ↔ starts_with_space s = false ∧ tidy s = true.
Proof.
  unfold Normalized. rewrite tidy_spec. split; intros [H1 H2]; (split; [| done]).
  - destruct s as [|c r]; [done |]. by apply (H1 c r).
  - by intros c r ->.
Qed.

Lemma rstrip_cons (c : ascii) (u : string) :
  Str.rstrip (String c u) = String c u →
  (u = "" ∧ Chr.isspace c = false) ∨ (u ≠ "" ∧ Str.rstrip u = u).
Proof.
  simpl. destruct (Str.rstrip u) as [|d t] eqn:E.
  - destruct (Chr.isspace c) eqn:Hc; [done |]. intros [= <-]. by left.
  - intros [= <-]. by right.
Qed.

Lemma rstrip_idem (s : string) : Str.rstrip (Str.rstrip s) = Str.rstrip s.
Proof.
  induction s as [|c s IH]; [done |]. simpl.
  destruct (Str.rstrip s) as [|d t] eqn:E.
  - destruct (Chr.isspace c) eqn:Hc; [done |]. simpl. by rewrite Hc.
  - change (Str.rstrip (String c (String d t))) with
      match Str.rstrip (String d t) with
      | EmptyString => if Chr.isspace c then EmptyString else String c EmptyString
      | t' => String c t'
      end.
    by rewrite IH.
Qed.

Lemma lstrip_head (s : string) : starts_with_space (Str.lstrip s) = false.
Proof.
  induction s as [|c s IH]; [done |]. simpl.
  destruct (Chr.isspace c) eqn:Hc; [done |]. simpl. done.
Qed.

Lemma lstrip_fix (s : string) : starts_with_space s = false → Str.lstrip s = s.
Proof. destruct s as [|c s]; [done |]. simpl. by intros ->. Qed.

Lemma rstrip_keeps_head (s : string) :
  starts_with_space s = false → starts_with_space (Str.rstrip s) = false.
Proof.
  destruct s as [|c s]; [done |]. intros Hc.
  destruct (rstrip_head c s Hc) as [t ->]. done.
Qed.

Lemma strip_head (s : string) : starts_with_space (Str.strip s) = false.
Proof. apply rstrip_keeps_head, lstrip_head. Qed.

Lemma strip_tail (s : string) : Str.rstrip (Str.strip s) = Str.strip s.
Proof. apply rstrip_idem. Qed.

Lemma strip_fix (s : string) :
  starts_with_space s = false → Str.rstrip s = s → Str.strip s = s.
Proof. intros H1 H2. unfold Str.strip. by rewrite lstrip_fix. Qed.

Lemma strip_idem (s : string) : Str.strip (Str.strip s) = Str.strip s.
Proof. apply strip_fix; [apply strip_head | apply strip_tail]. Qed.

Lemma tidy_rstrip (s : string) : tidy s = true → Str.rstrip s = s.
Proof.
  induction s as [|c s IH]; [done |]. cbn [tidy].
  intros [Hc Hs]%andb_true_iff. simpl. rewrite (IH Hs).
  destruct s as [|d t]; [| done].
  destruct (Chr.isspace c); [| done]. cbn in Hc. by rewrite andb_false_r in Hc.
Qed.

Lemma tidy_collapse (s : string) (b : bool) :
  tidy s = true → (b = true → starts_with_space s = false) →
  Str.collapse b s = s.
Proof.
  revert b. induction s as [|c s IH]; intros b; [done |]. cbn [tidy].
  intros [Hc Hs]%andb_true_iff Hb. cbn [Str.collapse].
  destruct (Chr.isspace c) eqn:Hsp.
  - cbn in Hc. apply andb_true_iff in Hc as [->%Ascii.eqb_eq Hnext].
    destruct b; [by specialize (Hb eq_refl); cbn in Hb; rewrite Hsp in Hb |].
    rewrite IH; [done | done |]. intros _. destruct s; [done |].
    by apply negb_true_iff.
  - by rewrite IH.
Qed.

Lemma collapse_nonempty (u : string) (b : bool) :
  u ≠ "" → Str.rstrip u = u → Str.collapse b u ≠ "".
Proof.
  revert b. induction u as [|c u IH]; intros b; [done |]. intros _ Hu.
  cbn [Str.collapse]. destruct (Chr.isspace c) eqn:Hc; [| done].
  destruct b; [| done].
  destruct (rstrip_cons c u Hu) as [[_ ?] | [Hne Hu']]; [congruence |].
  by apply IH.
Qed.

Lemma collapse_tidy (u : string) (b : bool) :
  Str.rstrip u = u →
  tidy (Str.collapse b u) = true
  ∧ starts_with_space (Str.collapse true u) = false
  ∧ (starts_with_space u = false → starts_with_space (Str.collapse b u) = false).
Proof.
  revert b. induction u as [|c u IH]; intros b Hu; [done |].
  cbn [Str.collapse]. destruct (Chr.isspace c) eqn:Hc.
  - destruct (rstrip_cons c u Hu) as [[_ ?] | [Hne Hu']]; [congruence |].
    destruct (IH true Hu') as (Ht & Hh & _).
    pose proof (collapse_nonempty u true Hne Hu') as Hn.
    split; [| split; [done | by cbn; rewrite Hc]].
    destruct b; [done |]. cbn [tidy]. rewrite Ht.
    destruct (Str.collapse true u) as [|d t]; [done |].
    cbn in Hh. rewrite Hh. done.
  - assert (Hu' : Str.rstrip u = u).
    { destruct (rstrip_cons c u Hu) as [[-> _] | [_ ?]]; done. }
    destruct (IH false Hu') as (Ht & _ & _).
    cbn [tidy starts_with_space]. by rewrite Hc, Ht.
Qed.

Lemma normalize_tidy (s : string) :
  starts_with_space (normalize s) = false ∧ tidy (normalize s) = true.
Proof.
  unfold normalize, Str.collapse_ws.
  destruct (collapse_tidy (Str.strip s) false (strip_tail s)) as (Ht & _ & Hh).
  split; [apply Hh, strip_head | done].
Qed.

Lemma tidy_normalize (s : string) :
  starts_with_space s = false → tidy s = true → normalize s = s.
Proof.
  intros Hh Ht. unfold normalize, Str.collapse_ws.
  rewrite strip_fix; [| done | by apply tidy_rstrip].
  by apply tidy_collapse.
Qed.

Lemma normalize_fixed (s : string) : Normalized s → normalize s = s.
Proof. intros [Hh Ht]%Normalized_tidy. by apply tidy_normalize. Qed.

(** X1. Normalizing twice is normalizing once. *)
Theorem normalize_idempotent (s : string) : normalize (normalize s) = normalize s.
Proof.
  destruct (normalize_tidy s) as [Hh Ht]. by apply tidy_normalize.
Qed.

(** X2. [normalize] leaves a text as it is exactly when the text does not
    start with whitespace and each of its whitespace characters is a space
    followed by a character that is not whitespace: no whitespace at either
    end, no run of it, no tab or newline. *)
Theorem normalize_fixed_iff (s : string) : normalize s = s ↔ Normalized s.
Proof.
  rewrite Normalized_tidy. split.
  - intros <-. apply normalize_tidy.
  - intros [Hh Ht]. by apply tidy_normalize.
Qed.

End Normalizers.

Section Keys.

Lemma filter_all p (s : string) : Str.all p (Str.filter p s) = true.
Proof.
  induction s as [|c s IH]; [done |]. simpl.
  destruct (p c) eqn:Hc; [| done]. simpl. by rewrite Hc.
Qed.

Lemma filter_fixed p (s : string) : Str.all p s = true → Str.filter p s = s.
Proof.
  induction s as [|c s IH]; [done |]. simpl.
  intros [Hc Hs]%andb_true_iff. by rewrite Hc, IH.
Qed.

Lemma lower_fixed (s : string) :
  Str.all Chr.isalnum_lower s = true → Str.lower s = s.
Proof.
  unfold Str.lower. induction s as [|c s IH]; [done |]. simpl.
  intros [Hc Hs]%andb_true_iff.
  by rewrite (proj1 (alnum_lower_fixed c Hc)), IH.
Qed.

(** X3. The key of a concatenation is the concatenation of the keys:
    [normalize_key] treats every character on its own, wherever it stands. *)
Theorem normalize_key_app (a b : string) :
  normalize_key (a +:+ b) = normalize_key a +:+ normalize_key b.
Proof.
  rewrite !normalize_key_unstripped. unfold Str.lower.
  by rewrite map_app, filter_app_str.
Qed.

(** X4. A key holds only the characters a-z and 0-9, and is its own key. *)
Theorem normalize_key_alnum (s : string) :
  Str.all Chr.isalnum_lower (normalize_key s) = true
  ∧ normalize_key (normalize_key s) = normalize_key s.
Proof.
  assert (H : Str.all Chr.isalnum_lower (normalize_key s) = true)
    by apply filter_all.
  split; [done |].
  rewrite (normalize_key_unstripped (normalize_key s)).
  rewrite lower_fixed by done. by apply filter_fixed.
Qed.

End Keys.

(** ** The sheets chosen *)

Section SheetChoice.

Lemma choose_sheets_inv (sheets : list string) (r : sheet_roles) :
  choose_sheets sheets = Ok r →
  (last_resort "factor" sheets (pick (by_norm sheets) factors_aliases)
     = Some (factors r) ∧ factors r ≠ "")
  ∧ (last_resort "sec" sheets (pick (by_norm sheets) sec_aliases)
     = Some (sec r) ∧ sec r ≠ "")
  ∧ (last_resort "hms" sheets (pick (by_norm sheets) hms_aliases)
     = Some (hms r) ∧ hms r ≠ "").
Proof.
  unfold choose_sheets. cbv zeta.
  destruct (last_resort "factor" _ _) as [[|? ?] |],
    (last_resort "sec" _ _) as [[|? ?] |],
    (last_resort "hms" _ _) as [[|? ?] |]; cbn; try done.
  by intros [= <-].
Qed.

Lemma last_resort_member (word : string) (sheets aliases : list string)
    (s : string) :
  last_resort word sheets (pick (by_norm sheets) aliases) = Some s →
  s ∈ sheets.
Proof.
  unfold last_resort. pose proof (pick_spec sheets aliases) as Hpick.
  assert (Hv : pick (by_norm sheets) aliases = Some s → s ∈ sheets).
  { intros E. rewrite E in Hpick. by destruct Hpick as (a & _ & ? & _). }
  destruct (truthy _); [done |].
  destruct (List.find _ sheets) as [x |] eqn:F; [| done].
  intros [= <-]. apply find_some in F as [Hin _]. by apply list_elem_of_In.
Qed.

Lemma by_norm_last (before : list string) (s : string) (after : list string) :
  Forall (λ t, normalize_key t ≠ normalize_key s) after →
  by_norm (before ++ s :: after) !! normalize_key s = Some s.
Proof.
  intros Hafter. unfold by_norm. rewrite by_norm_fold.
  rewrite rev_app_distr. simpl. rewrite <- app_assoc. simpl.
  rewrite (find_first _ (rev after) s (rev before)); [done | |].
  - apply Forall_forall. intros t Ht%list_elem_of_In%in_rev%list_elem_of_In.
    rewrite Forall_forall in Hafter. apply String.eqb_neq. by apply Hafter.
  - apply String.eqb_refl.
Qed.

Lemma pick_first (sheets aliases : list string) (a s : string) :
  FirstSuch (Matched sheets) aliases (Some a) →
  by_norm sheets !! a = Some s →
  pick (by_norm sheets) aliases = Some s.
Proof.
  intros (ab & aa & -> & Hab & _) Hs.
  induction Hab as [|k ab Hk _ IH]; simpl; [by rewrite Hs |].
  by rewrite (proj2 (by_norm_None sheets k) Hk).
Qed.

Lemma last_wins (word : string) (aliases before : list string) (s : string)
    (after : list string) :
  "" ∉ aliases →
  Forall (λ t, normalize_key t ≠ normalize_key s) after →
  FirstSuch (Matched (before ++ s :: after)) aliases (Some (normalize_key s)) →
  last_resort word (before ++ s :: after)
    (pick (by_norm (before ++ s :: after)) aliases) = Some s.
Proof.
  intros Hne Hafter Hfirst.
  rewrite (pick_first _ _ _ s Hfirst (by_norm_last _ _ _ Hafter)).
  unfold last_resort. destruct s as [|c s]; [| done].
  destruct Hfirst as (ab & aa & -> & _ & _). destruct Hne.
  rewrite elem_of_app, elem_of_cons. right. by left.
Qed.

(** X5. The three names [choose_sheets] returns are names of sheets of the
    workbook, and none is empty. *)
Theorem choose_sheets_member (sheets : list string) (r : sheet_roles) :
  choose_sheets sheets = Ok r →
  (factors r ∈ sheets ∧ factors r ≠ "")
  ∧ (sec r ∈ sheets ∧ sec r ≠ "")
  ∧ (hms r ∈ sheets ∧ hms r ≠ "").
Proof.
  intros ([Hf Hf'] & [Hs Hs'] & [Hh Hh'])%choose_sheets_inv.
  apply last_resort_member in Hf, Hs, Hh. done.
Qed.

(** X6. Among the sheets with the same normalized name the last one of the
    workbook is chosen: when that name is the first alias of a role that
    some sheet has, the role goes to the last sheet with that name. *)
Theorem choose_sheets_last_wins (before : list string) (s : string)
    (after : list string) (r : sheet_roles) :
  Forall (λ t, normalize_key t ≠ normalize_key s) after →
  choose_sheets (before ++ s :: after) = Ok r →
  (FirstSuch (Matched (before ++ s :: after)) factors_aliases
     (Some (normalize_key s)) → factors r = s)
  ∧ (FirstSuch (Matched (before ++ s :: after)) sec_aliases
       (Some (normalize_key s)) → sec r = s)
  ∧ (FirstSuch (Matched (before ++ s :: after)) hms_aliases
       (Some (normalize_key s)) → hms r = s).
Proof.
  intros Hafter ([Hf _] & [Hs _] & [Hh _])%choose_sheets_inv.
  split; [| split]; intros Hfirst.
  - rewrite (last_wins "factor" factors_aliases) in Hf;
      [congruence | by apply (bool_decide_unpack _) | done | done].
  - rewrite (last_wins "sec" sec_aliases) in Hs;
      [congruence | by apply (bool_decide_unpack _) | done | done].
  - rewrite (last_wins "hms" hms_aliases) in Hh;
      [congruence | by apply (bool_decide_unpack _) | done | done].
Qed.

Lemma choose_sheets_last_wins_witness :
  ∃ r, choose_sheets ["Age Std Sec"; "AgeStdHMS"; "AgeStdSec"; "Factors"] = Ok r
       ∧ sec r = "AgeStdSec".
Proof.
  eexists. split; [vm_compute; reflexivity |].
  refine (proj1 (proj2 (choose_sheets_last_wins ["Age Std Sec"; "AgeStdHMS"]
    "AgeStdSec" ["Factors"] _ _ _)) _).
  - repeat constructor; by vm_compute.
  - vm_compute. reflexivity.
  - exists [], [normalize_key "AgeStanSec"]. split; [done |].
    split; [constructor |]. exists "AgeStdSec". split; [| done].
    set_solver.
Defined.

(** X7. The column [find_age_col] returns is one of the columns, and its
    lower-cased name contains "age". *)
Theorem find_age_col_member (cols : list string) (c : string) :
  find_age_col cols = Ok c → c ∈ cols ∧ MentionsAge c.
Proof.
  unfold find_age_col.
  destruct (List.find is_age_header cols) as [x |] eqn:E1.
  - intros [= <-]. apply find_some in E1 as [Hin Hx]. split.
    + by apply list_elem_of_In.
    + by apply mentions_age_spec, is_age_header_mentions.
  - destruct (List.find mentions_age cols) as [x |] eqn:E2; [| done].
    intros [= <-]. apply find_some in E2 as [Hin Hx]. split.
    + by apply list_elem_of_In.
    + by apply mentions_age_spec.
Qed.

End SheetChoice.

Lemma choose_sheets_member_witness :
  ("Age Facctors" ∈ ["Age Facctors"; "AgeStanSec"; "AgeStanHMS"]
   ∧ "Age Facctors" ≠ "")
  ∧ ("AgeStanSec" ∈ ["Age Facctors"; "AgeStanSec"; "AgeStanHMS"]
     ∧ "AgeStanSec" ≠ "")
  ∧ ("AgeStanHMS" ∈ ["Age Facctors"; "AgeStanSec"; "AgeStanHMS"]
     ∧ "AgeStanHMS" ≠ "").
Proof.
  apply (choose_sheets_member ["Age Facctors"; "AgeStanSec"; "AgeStanHMS"]
           (Roles "Age Facctors" "AgeStanSec" "AgeStanHMS")).
  vm_compute. reflexivity.
Defined.

Lemma find_age_col_member_witness :
  "Average pace" ∈ ["Event"; "Average pace"] ∧ MentionsAge "Average pace".
Proof.
  apply (find_age_col_member ["Event"; "Average pace"] "Average pace").
  vm_compute. reflexivity.
Defined.

(** ** Header detection and the age column together *)

Section HeaderAndAgeColumn.

Variable obj_str : cell → string.

Lemma age_letters (c : ascii) :
  (Chr.lower c = "a" ∨ Chr.lower c = "g" ∨ Chr.lower c = "e")%char →
  Chr.isspace c = false.
Proof. destruct c as [[] [] [] [] [] [] [] []]; by intros [? | [? | ?]]. Qed.

(** A text that, stripped and lower-cased, starts with "age" still
    mentions "age" once it is normalized. *)
Lemma normalize_mentions_age (t rest : string) :
  Str.lower (Str.strip t) = "age" +:+ rest →
  mentions_age (normalize t) = true.
Proof.
  intros H. unfold mentions_age, normalize, Str.collapse_ws.
  destruct (Str.strip t) as [|x1 [|x2 [|x3 r]]]; try done.
  unfold Str.lower in H. cbn [Str.map] in H. rewrite !app_cons, app_nil in H.
  injection H as H1 H2 H3 _.
  cbn [Str.collapse].
  rewrite (age_letters x1), (age_letters x2), (age_letters x3) by auto.
  unfold Str.lower. cbn [Str.map]. rewrite H1, H2, H3.
  apply contains_spec. by exists "", (Str.map Chr.lower (Str.collapse false r)).
Qed.

(** X8. When header detection finds a row and the table is read with the
    cells of that row as its labels, age-column detection finds a column:
    it does not raise. *)
Theorem detected_header_has_age_column (raw : list (list cell))
    (read_excel : nat → list cell * list (list cell)) (r : nat) (row : list cell) :
  find_header_row obj_str raw "age" 50 = Some r →
  raw !! r = Some row →
  (read_excel r).1 = row →
  ∃ c, find_age_col
         (columns (read_sheet_with_detected_header obj_str raw read_excel)) = Ok c.
Proof.
  intros Hfind Hrow Hlabels.
  assert (Hhdr : detected_header obj_str raw = r).
  { unfold detected_header. rewrite Hfind. by destruct r. }
  unfold read_sheet_with_detected_header. rewrite Hhdr.
  destruct (read_excel r) as [labels body]. simpl in Hlabels. subst labels.
  cbn [columns].
  apply find_some in Hfind as [_ Hhas]. rewrite Hrow in Hhas.
  apply row_has_spec in Hhas as (c & Hc & Hv). cbv zeta in Hv.
  assert (Hage : mentions_age (normalize (py_str obj_str c)) = true).
  { destruct Hv as [Hv | [rest Hv]].
    - apply (normalize_mentions_age _ ""). by rewrite Hv.
    - by apply (normalize_mentions_age _ rest). }
  unfold find_age_col.
  destruct (List.find is_age_header _) as [x |]; [by exists x |].
  destruct (List.find mentions_age _) as [x |] eqn:E; [by exists x |].
  rewrite (find_none _ _ E (normalize (py_str obj_str c))) in Hage; [done |].
  apply in_map_iff. exists c. split; [done |]. by apply list_elem_of_In.
Qed.

End HeaderAndAgeColumn.

Lemma detected_header_has_age_column_witness :
  ∃ c, find_age_col
         (columns
            (read_sheet_with_detected_header sample_str sample_raw
               sample_read_excel)) = Ok c.
Proof.
  apply (detected_header_has_age_column sample_str sample_raw sample_read_excel
           1%nat [CStr " Age "; CStr "5  km"]); reflexivity.
Defined.

(** ** More on the table reshaper *)

Section ReshaperFacts.

Lemma str_of_int_inj (a b : Z) : Py.str_of_int a = Py.str_of_int b → a = b.
Proof.
  unfold Py.str_of_int. intros H.
  assert (Hn : ∀ z, Z.to_int z ≠ Decimal.Pos Decimal.Nil
                    ∧ Z.to_int z ≠ Decimal.Neg Decimal.Nil).
  { intros [|p|p]; simpl; split; try done; intros [= E];
      by apply (Unsigned.to_uint_nonnil p). }
  assert (Hi : Some (Z.to_int a) = Some (Z.to_int b)).
  { rewrite <- (NilZero.isi (Z.to_int a)), <- (NilZero.isi (Z.to_int b));
      [by rewrite H | apply Hn ..]. }
  injection Hi as Hi. by rewrite <- (DecimalZ.of_to a), <- (DecimalZ.of_to b), Hi.
Qed.

Context {V : Type}.
Variable obj_str : cell → string.
Variable value_parser : value → result error V.
Variable age_col : string.

Lemma fill_mapping_mono (event : string) (col : list series)
    (m0 m : gmap string V) (k : string) :
  fill_mapping value_parser age_col event col m0 = Ok m →
  is_Some (m0 !! k) → is_Some (m !! k).
Proof.
  revert m0. induction col as [|row col IH]; intros m0; simpl; [by intros [= <-] |].
  destruct (py_int (getitem row age_col)) as [age | e]; cbn [mbind result_bind]; [| done].
  destruct (value_parser (getitem row event)) as [r | e]; cbn [mbind result_bind]; [| done].
  intros Hm Hk. apply (IH _ Hm).
  destruct (decide (Py.str_of_int age = k)) as [<- | Hne].
  - by rewrite lookup_insert_eq.
  - by rewrite lookup_insert_ne.
Qed.

(** Every row of the column leaves a key. *)
Lemma fill_mapping_dom (event : string) (col : list series)
    (m0 m : gmap string V) (row : series) (age : Z) :
  fill_mapping value_parser age_col event col m0 = Ok m →
  row ∈ col → py_int (getitem row age_col) = Ok age →
  is_Some (m !! Py.str_of_int age).
Proof.
  revert m0. induction col as [|r col IH]; intros m0; simpl; [by intros _ ?%elem_of_nil |].
  destruct (py_int (getitem r age_col)) as [a | e] eqn:Ha; cbn [mbind result_bind]; [| done].
  destruct (value_parser (getitem r event)) as [v | e]; cbn [mbind result_bind]; [| done].
  intros Hm [-> | Hin]%elem_of_cons Hage.
  - apply (fill_mapping_mono _ _ _ _ _ Hm).
    rewrite Hage in Ha. injection Ha as <-. by rewrite lookup_insert_eq.
  - by apply (IH _ Hm).
Qed.

(** Rows of other ages leave the key of an age alone. *)
Lemma fill_mapping_other (event : string) (col : list series)
    (m0 m : gmap string V) (age : Z) :
  fill_mapping value_parser age_col event col m0 = Ok m →
  Forall (λ r, py_int (getitem r age_col) ≠ Ok age) col →
  m !! Py.str_of_int age = m0 !! Py.str_of_int age.
Proof.
  revert m0. induction col as [|r col IH]; intros m0; simpl; [by intros [= <-] |].
  destruct (py_int (getitem r age_col)) as [a | e] eqn:Ha; cbn [mbind result_bind]; [| done].
  destruct (value_parser (getitem r event)) as [v | e]; cbn [mbind result_bind]; [| done].
  intros Hm Hall. inversion Hall as [| ? ? Hr Hrest]; subst.
  rewrite (IH _ Hm Hrest). rewrite lookup_insert_ne; [done |].
  intros Heq%str_of_int_inj. congruence.
Qed.

(** The key of an age holds what the last row of that age gave. *)
Lemma fill_mapping_last (event : string) (before : list series) (r : series)
    (after : list series) (m0 m : gmap string V) (age : Z) :
  fill_mapping value_parser age_col event (before ++ r :: after) m0 = Ok m →
  py_int (getitem r age_col) = Ok age →
  Forall (λ r', py_int (getitem r' age_col) ≠ Ok age) after →
  ∃ v, value_parser (getitem r event) = Ok v ∧ m !! Py.str_of_int age = Some v.
Proof.
  revert m0. induction before as [|b before IH]; intros m0; simpl.
  - intros Hm Hage Hafter. rewrite Hage in Hm. cbn [mbind result_bind] in Hm.
    destruct (value_parser (getitem r event)) as [v | e]; cbn [mbind result_bind] in Hm; [| done].
    exists v. split; [done |].
    rewrite (fill_mapping_other _ _ _ _ _ Hm Hafter). by rewrite lookup_insert_eq.
  - destruct (py_int (getitem b age_col)) as [a | e]; cbn [mbind result_bind]; [| done].
    destruct (value_parser (getitem b event)) as [v | e]; cbn [mbind result_bind]; [| done].
    apply IH.
Qed.

(** A loop over the rows that ran to its end parsed every cell. *)
Lemma fill_mapping_cells (event : string) (col : list series)
    (m0 m : gmap string V) (row : series) :
  fill_mapping value_parser age_col event col m0 = Ok m → row ∈ col →
  ∃ v, value_parser (getitem row event) = Ok v.
Proof.
  revert m0. induction col as [|r col IH]; intros m0; simpl; [by intros _ ?%elem_of_nil |].
  destruct (py_int (getitem r age_col)) as [a | e]; cbn [mbind result_bind]; [| done].
  destruct (value_parser (getitem r event)) as [v | e] eqn:Hv; cbn [mbind result_bind]; [| done].
  intros Hm [-> | Hin]%elem_of_cons; [by exists v | by apply (IH _ Hm)].
Qed.

Lemma fill_out_mappings (df : list series) (events : list string)
    (out0 out : gmap string (gmap string V)) (e : string) :
  fill_out value_parser age_col df events out0 = Ok out → e ∈ events →
  ∃ m, event_mapping value_parser age_col df e = Ok m.
Proof.
  revert out0. induction events as [|x events IH]; intros out0; simpl;
    [by intros _ ?%elem_of_nil |].
  destruct (event_mapping value_parser age_col df x) as [m | err] eqn:Hx;
    cbn [mbind result_bind]; [| done].
  intros Hout [-> | Hin]%elem_of_cons; [by exists m | by apply (IH _ Hout)].
Qed.

Lemma fill_out_dom (df : list series) (events : list string)
    (out0 out : gmap string (gmap string V)) (n : string) :
  fill_out value_parser age_col df events out0 = Ok out →
  is_Some (out !! n) ↔ is_Some (out0 !! n) ∨ n ∈ List.map normalize events.
Proof.
  revert out0. induction events as [|x events IH]; intros out0; simpl.
  - intros [= <-]. split; [by left | by intros [? | ?%elem_of_nil]].
  - destruct (event_mapping value_parser age_col df x) as [m | err];
      cbn [mbind result_bind]; [| done].
    intros Hout. rewrite (IH _ Hout), elem_of_cons.
    destruct (decide (normalize x = n)) as [<- | Hne].
    + rewrite lookup_insert_eq. split; [by right; left | by left].
    + rewrite lookup_insert_ne by done. split; [intros [? | ?]; auto | ].
      intros [? | [? | ?]]; auto. congruence.
Qed.

End ReshaperFacts.

Section ReshaperProperties.

Variable obj_str : cell → string.
Context {V : Type}.

(** A run that returns has parsed the cell of every kept row under every
    event name. *)
Lemma kept_cells (df : dataframe) (vp : value → result error V)
    (ages : list Z) (events : list string) (out : gmap string (gmap string V))
    (age_col : string) (row : series) (e : string) :
  df_to_age_event_map obj_str df vp = Ok (ages, events, out) →
  find_age_col (columns df) = Ok age_col →
  row ∈ kept_rows obj_str age_col df → e ∈ events_of age_col df →
  ∃ v, vp (getitem row e) = Ok v.
Proof.
  intros (a & typed & Ha & _ & Htyped & _ & _ & Hout)%df_to_age_event_map_inv Hcol Hrow He.
  assert (a = age_col) as -> by congruence.
  destruct (Forall2_in_l _ _ _ _ (typed_rows_kept _ _ _ _ Htyped) Hrow)
    as (trow & Htrow & Hkeep & Hset).
  destruct (typed_row_of obj_str age_col row trow Hkeep Hset)
    as (x & z & _ & _ & _ & Hz & Hother).
  destruct (fill_out_mappings _ _ _ _ _ _ _ Hout He) as [m Hm].
  pose proof (proj2 (proj1 (events_of_spec _ _ _) He)) as Hne.
  destruct (event_col vp age_col typed e Hne (typed_rows_int64 _ _ _ _ Htyped))
    as (hcol & Hrun & Hcol').
  rewrite Hrun in Hm.
  destruct (Forall2_in_l _ _ _ _ Hcol' Htrow) as (hrow & Hhrow & Hcell & _).
  destruct (fill_mapping_cells vp age_col e _ _ _ hrow Hm Hhrow) as [v Hv].
  exists v. by rewrite Hcell, Hother in Hv.
Qed.

(** X9. The output map has an entry under a name exactly when the name is
    in the returned list of events. *)
Theorem reshaper_entries_are_events (df : dataframe)
    (value_parser : value → result error V)
    (ages : list Z) (events : list string) (out : gmap string (gmap string V)) :
  df_to_age_event_map obj_str df value_parser = Ok (ages, events, out) →
  ∀ n, is_Some (out !! n) ↔ n ∈ events.
Proof.
  intros (a & typed & _ & _ & _ & _ & -> & Hout)%df_to_age_event_map_inv n.
  rewrite (fill_out_dom _ _ _ _ _ _ n Hout), lookup_empty.
  split; [by intros [[? [=]] | ?] | by right].
Qed.

(** X10. When every age of the returned list is at most [2**53] in
    absolute value, every inner map has a key for every age of the list: a
    missing value is stored under its age, not left out. *)
Theorem reshaper_every_age_has_key (df : dataframe)
    (value_parser : value → result error V)
    (ages : list Z) (events : list string) (out : gmap string (gmap string V)) :
  df_to_age_event_map obj_str df value_parser = Ok (ages, events, out) →
  Forall (λ age, - 2 ^ 53 ≤ age ≤ 2 ^ 53) ages →
  ∀ event mapping age,
    out !! event = Some mapping → age ∈ ages →
    is_Some (mapping !! Py.str_of_int age).
Proof.
  intros (a & typed & _ & _ & Htyped & Hages & _ & Hout)%df_to_age_event_map_inv
    Hexact event mapping age Hevent Hage.
  destruct (fill_out_entries _ _ _ _ _ _ _ _ Hout Hevent)
    as [Hempty | (e & He & _ & Hmap)]; [by rewrite lookup_empty in Hempty |].
  apply events_of_spec in He as [_ Hne].
  apply ages_of_typed in Hages.
  destruct (Forall2_in_r _ _ _ _ Hages Hage) as (trow & Htrow & Hint).
  destruct (event_col value_parser a typed e Hne (typed_rows_int64 _ _ _ _ Htyped))
    as (hcol & Hrun & Hcol).
  rewrite Hrun in Hmap.
  destruct (Forall2_in_l _ _ _ _ Hcol Htrow)
    as (hrow & Hhrow & _ & z & k & Hz & Hk & Hread).
  rewrite Hz in Hint. injection Hint as ->.
  assert (k = age) as ->.
  { destruct Hread as [-> | Hread]; [done |].
    rewrite Forall_forall in Hexact.
    pose proof (FloatExact_53 age (Hexact age Hage)) as H53.
    unfold FloatExact in H53. congruence. }
  by apply (fill_mapping_dom _ _ _ _ _ _ hrow _ Hmap).
Qed.

(** X11. When every age of the returned list is at most [2**53] in absolute
    value: under the name of an event column that no later column shares,
    and under the text of an age, the output holds what the value transform
    returns on the cell of the last kept row of that age. *)
Theorem reshaper_lookup (df : dataframe) (value_parser : value → result error V)
    (ages : list Z) (events : list string) (out : gmap string (gmap string V))
    (age_col : string) (ebefore : list string) (e : string) (eafter : list string)
    (before : list series) (row : series) (after : list series) (age : Z) :
  df_to_age_event_map obj_str df value_parser = Ok (ages, events, out) →
  Forall (λ age, - 2 ^ 53 ≤ age ≤ 2 ^ 53) ages →
  find_age_col (columns df) = Ok age_col →
  events_of age_col df = ebefore ++ e :: eafter →
  Forall (λ e', normalize e' ≠ normalize e) eafter →
  kept_rows obj_str age_col df = before ++ row :: after →
  row_age age_col row = Ok age →
  Forall (λ r, row_age age_col r ≠ Ok age) after →
  ∃ m v,
    out !! normalize e = Some m
    ∧ m !! Py.str_of_int age = Some v
    ∧ value_parser (getitem row e) = Ok v.
Proof.
  intros (a & typed & Ha & _ & Htyped & Hages & _ & Hout)%df_to_age_event_map_inv
    Hexact Hcol Hevents Hlast Hkept Hage Hafter.
  assert (a = age_col) as -> by congruence.
  assert (Hne : e ≠ age_col).
  { apply (events_of_spec age_col df). rewrite Hevents.
    rewrite elem_of_app, elem_of_cons. right. by left. }
  rewrite Hevents in Hout.
  destruct (fill_out_last _ _ _ _ _ _ _ _ Hout Hlast) as (m & Hm & Hlook).
  exists m.
  destruct (event_col value_parser age_col typed e Hne (typed_rows_int64 _ _ _ _ Htyped))
    as (hcol & Hrun & Hcol').
  rewrite Hrun in Hm. apply ages_of_typed in Hages.
  (* what the loop reads back of the age of a typed row is that age *)
  assert (Hback : ∀ trow hrow z,
            trow ∈ typed → Handed age_col e trow hrow →
            getitem trow age_col = Scalar (CInt z) →
            py_int (getitem hrow age_col) = Ok z).
  { intros trow hrow z Htrow (_ & z' & k & Hz' & Hk & Hread) Hz.
    assert (z' = z) as -> by congruence.
    destruct Hread as [-> | Hread]; [done |].
    destruct (Forall2_in_l _ _ _ _ Hages Htrow) as (g & Hg & Hint).
    rewrite Hz in Hint. injection Hint as ->.
    rewrite Forall_forall in Hexact.
    pose proof (FloatExact_53 g (Hexact g Hg)) as H53.
    unfold FloatExact in H53. congruence. }
  pose proof (typed_rows_kept _ _ _ _ Htyped) as Hall. rewrite Hkept in Hall.
  apply Forall2_app_inv_l in Hall as (tbefore & trest & Hb & Hrest & ->).
  apply Forall2_cons_inv_l in Hrest as (trow & tafter & [Hkeep Hset] & Ha' & ->).
  apply Forall2_app_inv_l in Hcol' as (hbefore & hrest & Hhb & Hhrest & ->).
  apply Forall2_cons_inv_l in Hhrest as (hrow & hafter & Hhrow & Hha & ->).
  destruct (typed_row_of obj_str age_col row trow Hkeep Hset)
    as (x & z & Hx & _ & Hz & Hz' & Hother).
  assert (z = age) as ->.
  { unfold row_age in Hage. rewrite Hx in Hage. congruence. }
  destruct (fill_mapping_last _ _ _ _ _ _ _ _ age Hm) as (v & Hv & Hkey).
  - apply (Hback trow); [| done..].
    rewrite elem_of_app, elem_of_cons. right. by left.
  - apply Forall_forall. intros hr Hhr.
    destruct (Forall2_in_r _ _ _ _ Hha Hhr) as (t & Ht & Hhanded).
    destruct (Forall2_in_r _ _ _ _ Ha' Ht) as (r0 & Hr0 & Hk0 & Hs0).
    destruct (typed_row_of obj_str age_col r0 t Hk0 Hs0)
      as (x0 & z0 & Hx0 & _ & Hz0 & Hz0' & _).
    rewrite (Hback t hr z0); [| | done..].
    + rewrite Forall_forall in Hafter. specialize (Hafter r0 Hr0).
      unfold row_age in Hafter. rewrite Hx0, Hz0 in Hafter. done.
    + rewrite elem_of_app, elem_of_cons. right. by right.
  - exists v. destruct Hhrow as [Hcell _]. by rewrite Hcell, Hother in Hv.
Qed.

(** X12. When the value transform raises on the cell of one kept row under
    one event column, the reshaper raises: no table is returned. *)
Theorem reshaper_bad_cell_raises (df : dataframe)
    (value_parser : value → result error V)
    (age_col : string) (row : series) (e : string) (err : error) :
  find_age_col (columns df) = Ok age_col →
  row ∈ kept_rows obj_str age_col df →
  e ∈ events_of age_col df →
  value_parser (getitem row e) = Err err →
  ∃ err', df_to_age_event_map obj_str df value_parser = Err err'.
Proof.
  intros Hcol Hrow He Herr.
  destruct (df_to_age_event_map obj_str df value_parser)
    as [[[ages events] out] | err'] eqn:E; [| by exists err'].
  destruct (kept_cells _ _ _ _ _ _ _ _ E Hcol Hrow He) as [v Hv]. congruence.
Qed.

End ReshaperProperties.

Lemma reshaper_entries_are_events_witness :
  ∃ out,
    df_to_age_event_map sample_str ages_table num_to_int_if_whole
    = Ok ([0; 5; 5], ["5 km"], out)
    ∧ ∀ n, is_Some (out !! n) ↔ n ∈ ["5 km"].
Proof.
  eexists. split; [vm_compute; reflexivity |].
  apply (reshaper_entries_are_events sample_str ages_table num_to_int_if_whole
           [0; 5; 5]).
  vm_compute. reflexivity.
Defined.

Lemma reshaper_every_age_has_key_witness :
  ∃ out,
    df_to_age_event_map sample_str ages_table num_to_int_if_whole
    = Ok ([0; 5; 5], ["5 km"], out)
    ∧ ∀ event mapping age,
        out !! event = Some mapping → age ∈ [0; 5; 5] →
        is_Some (mapping !! Py.str_of_int age).
Proof.
  eexists. split; [vm_compute; reflexivity |].
  apply (reshaper_every_age_has_key sample_str ages_table num_to_int_if_whole
           [0; 5; 5] ["5 km"]).
  - vm_compute. reflexivity.
  - repeat constructor; lia.
Defined.

Lemma reshaper_lookup_witness :
  ∃ out,
    df_to_age_event_map sample_str ages_table num_to_int_if_whole
    = Ok ([0; 5; 5], ["5 km"], out)
    ∧ ∃ m v,
        out !! normalize "5 km" = Some m
        ∧ m !! Py.str_of_int 5 = Some v
        ∧ num_to_int_if_whole
            (getitem [("Age", CStr "5"); ("5 km", CFloat 1300)] "5 km") = Ok v.
Proof.
  eexists. split; [vm_compute; reflexivity |].
  apply (reshaper_lookup sample_str ages_table num_to_int_if_whole
           [0; 5; 5] ["5 km"] _ "Age" [] "5 km" []
           [[("Age", CStr "0"); ("5 km", CFloat 1500)];
            [("Age", CStr "5"); ("5 km", CFloat 1400)]]
           [("Age", CStr "5"); ("5 km", CFloat 1300)] [] 5);
    try reflexivity; repeat constructor; lia.
Defined.

Lemma reshaper_bad_cell_raises_witness :
  ∃ err, df_to_age_event_map sample_str bad_time_table hms_to_seconds = Err err.
Proof.
  apply (reshaper_bad_cell_raises sample_str bad_time_table hms_to_seconds
           "Age" [("Age", CStr "5"); ("5 km", CStr "abc")] "5 km"
           (UnrecognizedTime (CStr "abc"))).
  - reflexivity.
  - apply list_elem_of_In. vm_compute. left. reflexivity.
  - apply list_elem_of_In. vm_compute. left. reflexivity.
  - vm_compute. reflexivity.
Defined.

Section Labels.

Lemma count_under (e : string) (cols : list string) (r : list cell) :
  length r = length cols →
  length (List.filter (under e) (row_series cols r)) = count_occ string_dec cols e.
Proof.
  unfold row_series. revert r. induction cols as [|c cols IH]; intros [|x r]; try done.
  intros [= Hlen]. cbn [zip zip_with List.filter count_occ].
  change (under e (c, x)) with (String.eqb c e).
  destruct (string_dec c e) as [-> | Hne].
  - rewrite String.eqb_refl. cbn [length]. by rewrite (IH r Hlen).
  - apply String.eqb_neq in Hne. rewrite Hne. by apply IH.
Qed.

(** Under a label that two columns carry a row has both cells. *)
Lemma getitem_shared (e : string) (cols : list string) (r : list cell) :
  length r = length cols → (2 ≤ count_occ string_dec cols e)%nat →
  ∃ cs, getitem (row_series cols r) e = Several cs.
Proof.
  intros Hlen Hcount. rewrite <- (count_under e cols r Hlen) in Hcount.
  unfold getitem. fold (under e).
  destruct (List.filter (under e) (row_series cols r)) as [|[l c] [|lc lcs]];
    [by eexists | simpl in Hcount; lia | by eexists].
Qed.

Lemma count_events_of (age_col e : string) (df : dataframe) :
  e ≠ age_col →
  count_occ string_dec (events_of age_col df) e
  = count_occ string_dec (columns df) e.
Proof.
  intros Hne. unfold events_of. induction (columns df) as [|c cols IH]; [done |].
  cbn [List.filter count_occ].
  destruct (String.eqb_spec c age_col) as [-> | Hc]; cbn [negb].
  - destruct (string_dec age_col e); [congruence | done].
  - cbn [count_occ]. destruct (string_dec c e); by rewrite IH.
Qed.

End Labels.

Section MoreReshaperProperties.

Variable obj_str : cell → string.
Context {V : Type}.

(** A run that returns met no label shared by two event columns on a kept
    row, when the transform raises on a multi-valued selection. *)
Lemma returned_labels_unique (df : dataframe) (vp : value → result error V)
    (ages : list Z) (events : list string) (out : gmap string (gmap string V))
    (age_col e : string) :
  (∀ cs, ∃ err, vp (Several cs) = Err err) →
  df_to_age_event_map obj_str df vp = Ok (ages, events, out) →
  find_age_col (columns df) = Ok age_col →
  e ≠ age_col →
  Forall (λ r, length r = length (columns df)) (rows df) →
  kept_rows obj_str age_col df ≠ [] →
  (count_occ string_dec (columns df) e ≤ 1)%nat.
Proof.
  intros Hvp E Hcol Hne Hfull Hkept.
  destruct (le_lt_dec (count_occ string_dec (columns df) e) 1) as [| Hcount];
    [done | exfalso].
  destruct (kept_rows obj_str age_col df) as [|row kept] eqn:Hk; [done |].
  assert (Hrow : row ∈ kept_rows obj_str age_col df) by (rewrite Hk; by left).
  pose proof Hrow as Hin. unfold kept_rows in Hin.
  apply list_elem_of_In, filter_In in Hin as [Hin _].
  apply in_map_iff in Hin as (r & <- & Hr).
  rewrite Forall_forall in Hfull.
  destruct (getitem_shared e (columns df) r) as [cs Hcs];
    [by apply Hfull, list_elem_of_In | lia |].
  assert (He : e ∈ events_of age_col df).
  { apply events_of_spec. split; [| done].
    apply list_elem_of_In, (count_occ_In string_dec). lia. }
  destruct (kept_cells obj_str _ _ _ _ _ _ _ _ E Hcol Hrow He) as [v Hv].
  rewrite Hcs in Hv. destruct (Hvp cs) as [err Herr]. congruence.
Qed.

(** X13. When two event columns carry the same label, every row is full
    and one row is kept, a value transform that raises on a multi-valued
    selection, as both transforms of the script do, makes the reshaper
    raise. *)
Theorem reshaper_shared_label_raises (df : dataframe)
    (value_parser : value → result error V) (age_col e : string) :
  (∀ cs, ∃ err, value_parser (Several cs) = Err err) →
  find_age_col (columns df) = Ok age_col →
  e ≠ age_col → (2 ≤ count_occ string_dec (columns df) e)%nat →
  Forall (λ r, length r = length (columns df)) (rows df) →
  kept_rows obj_str age_col df ≠ [] →
  ∃ err, df_to_age_event_map obj_str df value_parser = Err err.
Proof.
  intros Hvp Hcol Hne Hcount Hfull Hkept.
  destruct (df_to_age_event_map obj_str df value_parser)
    as [[[ages events] out] | err'] eqn:E; [| by exists err'].
  pose proof (returned_labels_unique _ _ _ _ _ _ _ Hvp E Hcol Hne Hfull Hkept).
  lia.
Qed.

(** X14. On a table whose labels are normalized, as the labels of a table
    read with a detected header are, a run of the reshaper that returns a
    non-empty list of ages returns pairwise distinct event names: no
    mapping has been overwritten. *)
Theorem reshaper_no_silent_overwrite (df : dataframe)
    (value_parser : value → result error V)
    (ages : list Z) (events : list string) (out : gmap string (gmap string V)) :
  Forall Normalized (columns df) →
  (∀ cs, ∃ err, value_parser (Several cs) = Err err) →
  Forall (λ r, length r = length (columns df)) (rows df) →
  df_to_age_event_map obj_str df value_parser = Ok (ages, events, out) →
  ages ≠ [] →
  NoDup events.
Proof.
  intros Hnorm Hvp Hfull E Hages.
  pose proof E as (a & typed & Ha & _ & Htyped & Hfor & -> & _)%df_to_age_event_map_inv.
  assert (Hkept : kept_rows obj_str a df ≠ []).
  { intros Hk. pose proof (typed_rows_kept _ _ _ _ Htyped) as Hall.
    rewrite Hk in Hall. inversion Hall; subst.
    simpl in Hfor. by injection Hfor as <-. }
  assert (List.map normalize (events_of a df) = events_of a df) as ->.
  { rewrite <- (List.map_id (events_of a df)) at 2. apply map_ext_in.
    intros e [He _]%list_elem_of_In%events_of_spec.
    rewrite Forall_forall in Hnorm. by apply normalize_fixed, Hnorm. }
  apply base.NoDup_ListNoDup, (NoDup_count_occ string_dec). intros e.
  destruct (string_dec e a) as [-> | Hne].
  - rewrite (proj1 (count_occ_not_In string_dec _ _)); [lia |].
    by intros [_ ?]%list_elem_of_In%events_of_spec.
  - rewrite count_events_of by done.
    by apply (returned_labels_unique _ _ _ _ _ _ _ Hvp E Ha).
Qed.

(** X15. The age test and the conversion of the ages do not read a text
    the same way. A row whose age cell is a text that passes the test
    ([str.isdigit] accepts it once stripped) but that [int] rejects makes
    the reshaper raise: it returns no table. The superscript two is such a
    text. *)
Theorem reshaper_age_conversion_raises (df : dataframe)
    (value_parser : value → result error V) (age_col : string) (row : list cell)
    (s : string) (e : error) :
  find_age_col (columns df) = Ok age_col →
  row ∈ rows df →
  getitem (row_series (columns df) row) age_col = Scalar (CStr s) →
  Str.isdigit (Str.strip s) = true →
  Py.int_of_str s = Err e →
  ∃ err, df_to_age_event_map obj_str df value_parser = Err err.
Proof.
  intros Hcol Hrow Hcell Hdigit Hnot.
  destruct (df_to_age_event_map obj_str df value_parser)
    as [[[ages events] out] | err'] eqn:E; [| by exists err'].
  apply df_to_age_event_map_inv in E as (a & typed & Ha & _ & Htyped & _).
  assert (a = age_col) as -> by congruence.
  assert (Hkept : row_series (columns df) row ∈ kept_rows obj_str age_col df).
  { apply list_elem_of_In, filter_In. split.
    - apply in_map. by apply list_elem_of_In.
    - apply keep_row_spec. exists (CStr s). split; [done |].
      unfold is_numeric_age. cbn [isna py_str negb andb]. exact Hdigit. }
  destruct (Forall2_in_l _ _ _ _ (typed_rows_kept _ _ _ _ Htyped) Hkept)
    as (trow & _ & Hkeep & Hset).
  destruct (typed_row_of obj_str age_col _ trow Hkeep Hset)
    as (x & z & Hx & _ & Hz & _).
  rewrite Hcell in Hx. injection Hx as <-.
  unfold astype_int in Hz. cbn [py_int] in Hz. by rewrite Hnot in Hz.
Qed.

(** X16. Every label of a table read with a detected header is
    normalized. *)
Theorem read_sheet_columns_normalized (raw : list (list cell))
    (read_excel : nat → list cell * list (list cell)) :
  Forall Normalized
    (columns (read_sheet_with_detected_header obj_str raw read_excel)).
Proof.
  unfold read_sheet_with_detected_header.
  destruct (read_excel _) as [labels body]. cbn [columns].
  apply Forall_forall. intros c (x & <- & _)%list_elem_of_In%in_map_iff.
  apply Normalized_tidy, normalize_tidy.
Qed.

End MoreReshaperProperties.

Lemma reshaper_shared_label_raises_witness :
  ∃ err,
    df_to_age_event_map sample_str same_name_table num_to_int_if_whole = Err err.
Proof.
  apply (reshaper_shared_label_raises sample_str same_name_table
           num_to_int_if_whole "Age" "5 km").
  - intros cs. by eexists.
  - reflexivity.
  - done.
  - vm_compute. lia.
  - repeat constructor.
  - vm_compute. discriminate.
Defined.

Lemma reshaper_no_silent_overwrite_witness :
  ∃ out,
    df_to_age_event_map sample_str two_event_table num_to_int_if_whole
    = Ok ([5], ["5 km"; "10 km"], out)
    ∧ NoDup ["5 km"; "10 km"].
Proof.
  eexists. split; [vm_compute; reflexivity |].
  eapply (reshaper_no_silent_overwrite sample_str two_event_table
            num_to_int_if_whole [5]).
  - repeat (apply Forall_cons_2; [by apply Normalized_tidy |]). apply Forall_nil_2.
  - intros cs. by eexists.
  - repeat constructor.
  - vm_compute. reflexivity.
  - discriminate.
Defined.

Lemma reshaper_age_conversion_raises_witness :
  ∃ err,
    df_to_age_event_map sample_str superscript_age_table num_to_int_if_whole
    = Err err.
Proof.
  apply (reshaper_age_conversion_raises sample_str superscript_age_table
           num_to_int_if_whole "Age" [CStr superscript_two; CFloat 1225]
           superscript_two ValueError); try reflexivity.
  by left.
Defined.

Section DroppedRows.

Variable obj_str : cell → string.
Context {V : Type}.


End DroppedRows.


(** ** Text cells *)

Section TextCells.

(** X18. The time transform strips a text before it reads it: whitespace
    around a time changes nothing of what it returns. The int-if-whole
    transform leaves the stripping to [float], which skips less: a
    separator U+001C before a number is whitespace to the first and an
    error to the second. *)
Theorem hms_to_seconds_ignores_outer_space (s : string) :
  (∀ v, hms_to_seconds (Scalar (CStr (Str.strip s))) = Ok v
        ↔ hms_to_seconds (Scalar (CStr s)) = Ok v)
  ∧ Str.strip separator_text = "12.5"
  ∧ num_to_int_if_whole (Scalar (CStr "12.5")) = Ok (JFloat 12.5)
  ∧ num_to_int_if_whole (Scalar (CStr separator_text)) = Err ValueError.
Proof.
  split; [| by vm_compute].
  intros v. unfold hms_to_seconds. cbn [isna_truth isna mbind result_bind text_of].
  rewrite strip_idem. by destruct (Re.match_ TIME_RE (Str.strip s)).
Qed.

End TextCells.

(** ** The workbook converter *)

Section Years.

Lemma Digits_isdigit (d : string) : Digits d → Str.isdigit d = true.
Proof.
  intros [Hne Hd]. unfold Str.isdigit. destruct d as [|c d]; [done |].
  revert Hd. generalize (String c d). clear. intros s.
  induction s as [|x s IH]; [done |]. simpl.
  intros [Hx Hs]%andb_true_iff. rewrite (IH Hs), andb_true_r.
  unfold Chr.isdigit. by rewrite Hx.
Qed.

(** X19. The year of the output: the number a directory name of digits
    0-9, no more of them than [int] reads, stands for; the name itself when
    [str.isdigit] rejects it; never a text when [str.isdigit] accepts the
    name; and a [ValueError] for the superscript two, which [str.isdigit]
    accepts and [int] rejects. *)
Theorem meta_year_spec (year : string) :
  (Digits year → Readable year →
   meta_year year = Ok (YearInt (Py.digits_value year)))
  ∧ (Str.isdigit year = false → meta_year year = Ok (YearStr year))
  ∧ (Str.isdigit year = true → ∀ s, meta_year year ≠ Ok (YearStr s))
  ∧ meta_year superscript_two = Err ValueError.
Proof.
  unfold meta_year. split; [| split; [| split]].
  - intros Hd Hr. rewrite (Digits_isdigit _ Hd), int_of_str_Digits by done.
    by destruct (Readable_dec year).
  - by intros ->.
  - intros -> s. by destruct (Py.int_of_str year).
  - by vm_compute.
Qed.

End Years.

Section Suffixes.

Lemma rfind_absent (c : ascii) (s : string) :
  Str.contains (String c "") s = false → Pathlib.rfind c s = None.
Proof.
  induction s as [|a s IH]; [done |]. cbn [Str.contains Str.startswith].
  rewrite andb_true_r. intros [Ha Hs]%orb_false_iff.
  cbn [Pathlib.rfind]. rewrite (IH Hs).
  by rewrite Ascii.eqb_sym, Ha.
Qed.

Lemma rfind_app (c : ascii) (a b : string) (i : nat) :
  Pathlib.rfind c b = Some i →
  Pathlib.rfind c (a +:+ b) = Some (String.length a + i)%nat.
Proof.
  intros Hb. induction a as [|x a IH]; [done |].
  rewrite app_cons. cbn [Pathlib.rfind]. by rewrite IH.
Qed.

Lemma substring_skip (a b : string) (n : nat) :
  String.substring (String.length a) n (a +:+ b) = String.substring 0 n b.
Proof. induction a as [|x a IH]; [done |]. by rewrite app_cons. Qed.

Lemma substring_all (b : string) : String.substring 0 (String.length b) b = b.
Proof. induction b as [|x b IH]; [done |]. simpl. by rewrite IH. Qed.

(** The suffix of a name with an extension is the extension. *)
Lemma suffix_ext (d : list string) (stem ext : string) :
  stem ≠ "" → ext ≠ "" → Str.contains "." ext = false →
  Pathlib.suffix (Pathlib.Path d (stem +:+ "." +:+ ext)) = String "." ext.
Proof.
  intros Hstem Hext Hdot. unfold Pathlib.suffix. cbn [Pathlib.name].
  assert (Hr : Pathlib.rfind "." (String "." ext) = Some 0%nat).
  { cbn [Pathlib.rfind]. by rewrite (rfind_absent "." ext Hdot). }
  change ("." +:+ ext) with (String "."%char ext).
  rewrite (rfind_app _ stem _ _ Hr), Nat.add_0_r.
  rewrite length_app_str. cbn [String.length].
  assert ((0 <? String.length stem)%nat = true) as ->.
  { apply Nat.ltb_lt. destruct stem; [done | simpl; lia]. }
  assert ((String.length stem <? String.length stem + S (String.length ext) - 1)%nat
          = true) as ->.
  { apply Nat.ltb_lt. destruct ext; [done | simpl; lia]. }
  cbn [andb].
  replace (String.length stem + S (String.length ext) - String.length stem)%nat
    with (String.length (String "." ext)) by (simpl; lia).
  by rewrite substring_skip, substring_all.
Qed.

Lemma with_suffix_ext (d : list string) (stem ext : string) :
  stem ≠ "" → ext ≠ "" → Str.contains "." ext = false →
  Pathlib.with_suffix (Pathlib.Path d (stem +:+ "." +:+ ext)) ".json"
  = Ok (Pathlib.Path d (stem +:+ ".json")).
Proof.
  intros Hstem Hext Hdot. unfold Pathlib.with_suffix.
  rewrite suffix_ext by done. cbn [Pathlib.name Pathlib.dirs].
  change (Str.contains "/" ".json") with false. cbv iota.
  change (negb (Ascii.eqb "." ".") || String.eqb "json" "") with false. cbv iota.
  destruct stem as [|c stem]; [done |]. rewrite app_cons.
  do 2 f_equal. rewrite <- app_cons.
  change ("." +:+ ext) with (String "."%char ext).
  rewrite length_app_str.
  replace (String.length (String c stem) + String.length (String "." ext)
           - String.length (String "." ext))%nat
    with (String.length (String c stem)) by lia.
  by rewrite substring_prefix.
Qed.

End Suffixes.

Section ConverterProperties.

Variable obj_str : cell → string.
Variable open_workbook : Pathlib.path → workbook.

(** What a conversion that returns went through. *)
Lemma convert_one_inv (path out : Pathlib.path) (doc : document) :
  convert_one obj_str open_workbook path = Ok (out, doc) →
  ∃ sheets t_sec t_hms t_fac y,
    let wb := open_workbook path in
    let read sheet :=
      read_sheet_with_detected_header obj_str (raw_sheet wb sheet)
        (headed_sheet wb sheet) in
    choose_sheets (sheet_names wb) = Ok sheets
    ∧ table_of obj_str (read (sec sheets)) num_to_int_if_whole = Ok t_sec
    ∧ table_of obj_str (read (hms sheets)) hms_to_seconds = Ok t_hms
    ∧ table_of obj_str (read (factors sheets)) num_to_int_if_whole = Ok t_fac
    ∧ meta_year (Pathlib.parent_name path) = Ok y
    ∧ Pathlib.with_suffix path ".json" = Ok out
    ∧ doc = Document
              (Meta "road" y (meta_sex (Pathlib.name path))
                 (Pathlib.as_posix path) sheets)
              t_sec t_hms t_fac.
Proof.
  unfold convert_one. cbv zeta.
  repeat match goal with
    | |- (?x ≫= _) = _ → _ =>
        let E := fresh "E" in
        destruct x eqn:E; cbn [mbind result_bind]; [| done]
    end.
  intros [= <- <-]. by eexists _, _, _, _, _.
Qed.

(** X20. A conversion that returns has written beside its source, under
    the name of the source with the extension replaced by [.json]: two
    workbooks of one directory that differ in the extension only are
    written to the same file. *)
Theorem convert_one_out_path (d : list string) (stem ext : string)
    (out : Pathlib.path) (doc : document) :
  stem ≠ "" → ext ≠ "" → Str.contains "." ext = false →
  convert_one obj_str open_workbook (Pathlib.Path d (stem +:+ "." +:+ ext))
    = Ok (out, doc) →
  out = Pathlib.Path d (stem +:+ ".json").
Proof.
  intros Hstem Hext Hdot (? & ? & ? & ? & ? & _ & _ & _ & _ & _ & Hout & _)%convert_one_inv.
  rewrite with_suffix_ext in Hout by done. by injection Hout.
Qed.

Lemma length_path_insert (p : Pathlib.path) (l : list Pathlib.path) :
  length (Pathlib.insert p l) = S (length l).
Proof.
  induction l as [|q l IH]; [done |]. simpl.
  destruct (Pathlib.lt p q); simpl; by rewrite ?IH.
Qed.

Lemma length_sorted (l : list Pathlib.path) :
  length (Pathlib.sorted l) = length l.
Proof.
  unfold Pathlib.sorted.
  assert (H : ∀ acc, length (foldl (λ acc p, Pathlib.insert p acc) acc l)
                     = (length acc + length l)%nat).
  { induction l as [|p l IH]; intros acc; simpl; [lia |].
    rewrite IH, length_path_insert. lia. }
  by rewrite H.
Qed.

(** The loop up to the first file that fails. *)
Lemma convert_each_fails (before : list Pathlib.path) (p : Pathlib.path)
    (after : list Pathlib.path) (outs : list (Pathlib.path * document))
    (e : error) :
  Forall2 (λ q od, convert_one obj_str open_workbook q = Ok od) before outs →
  convert_one obj_str open_workbook p = Err e →
  convert_each obj_str open_workbook (before ++ p :: after)
  = Run (zip_with ok_line before outs ++ [FailLine p e]) outs (Err (Raised e)).
Proof.
  intros Hb Hp. induction Hb as [|q od before outs Hq _ IH]; simpl.
  - by rewrite Hp.
  - rewrite Hq, IH. by destruct od.
Qed.

Lemma convert_each_ok (files : list Pathlib.path)
    (outs : list (Pathlib.path * document)) :
  Forall2 (λ q od, convert_one obj_str open_workbook q = Ok od) files outs →
  convert_each obj_str open_workbook files
  = Run (zip_with ok_line files outs) outs (Ok tt).
Proof.
  induction 1 as [|q od files outs Hq _ IH]; simpl; [done |].
  rewrite Hq, IH. by destruct od.
Qed.

(** X21. The driver ends with [SystemExit], having printed and written
    nothing, exactly when no file found has "roadstd" in its lower-cased
    name. *)
Theorem main_no_files (xls xlsx : list Pathlib.path) :
  main obj_str open_workbook xls xlsx = Run [] [] (Err NoRoadStdFiles)
  ↔ Forall (λ p, is_roadstd p = false) (xls ++ xlsx).
Proof.
  unfold main. cbv zeta. split.
  - destruct (List.filter is_roadstd (xls ++ xlsx)) as [|p files] eqn:E; [| done].
    intros _. apply Forall_forall. intros p Hp%list_elem_of_In.
    destruct (is_roadstd p) eqn:Hr; [| done].
    assert (In p (List.filter is_roadstd (xls ++ xlsx))) by by apply filter_In.
    rewrite E in *. done.
  - intros Hall.
    assert (List.filter is_roadstd (xls ++ xlsx) = []) as ->; [| done].
    induction Hall as [|p l Hp _ IH]; [done |]. simpl. by rewrite Hp.
Qed.

(** X22. The first file, in sorted order, whose conversion raises ends the
    run with that exception: the files before it are converted, written and
    reported, the failure is reported, and the files after it are not
    touched. *)
Theorem main_stops_at_first_failure (xls xlsx before : list Pathlib.path)
    (p : Pathlib.path) (after : list Pathlib.path)
    (outs : list (Pathlib.path * document)) (e : error) :
  Pathlib.sorted (List.filter is_roadstd (xls ++ xlsx)) = before ++ p :: after →
  Forall2 (λ q od, convert_one obj_str open_workbook q = Ok od) before outs →
  convert_one obj_str open_workbook p = Err e →
  main obj_str open_workbook xls xlsx
  = Run (Found (length (before ++ p :: after))
           :: zip_with ok_line before outs ++ [FailLine p e])
      outs (Err (Raised e)).
Proof.
  intros Hsorted Hb Hp. unfold main. cbv zeta.
  pose proof (length_sorted (List.filter is_roadstd (xls ++ xlsx))) as Hlen.
  rewrite Hsorted in Hlen.
  destruct (List.filter is_roadstd (xls ++ xlsx)) as [|q files] eqn:E.
  - rewrite length_app in Hlen. simpl in Hlen. lia.
  - rewrite Hsorted, (convert_each_fails _ _ _ _ _ Hb Hp). by rewrite Hlen.
Qed.

(** X23. When every file converts, the driver reports the number of files
    and then each file in sorted order, writes each output, and ends
    normally. *)
Theorem main_converts_all (xls xlsx : list Pathlib.path)
    (outs : list (Pathlib.path * document)) :
  List.filter is_roadstd (xls ++ xlsx) ≠ [] →
  Forall2 (λ q od, convert_one obj_str open_workbook q = Ok od)
    (Pathlib.sorted (List.filter is_roadstd (xls ++ xlsx))) outs →
  main obj_str open_workbook xls xlsx
  = Run (Found (length outs)
           :: zip_with ok_line
                (Pathlib.sorted (List.filter is_roadstd (xls ++ xlsx))) outs)
      outs (Ok tt).
Proof.
  intros Hne Hall. unfold main. cbv zeta.
  pose proof (Forall2_length _ _ _ Hall) as Hlen. rewrite length_sorted in Hlen.
  destruct (List.filter is_roadstd (xls ++ xlsx)) as [|q files] eqn:E; [done |].
  by rewrite (convert_each_ok _ _ Hall), Hlen.
Qed.

End ConverterProperties.

Lemma convert_one_out_path_witness :
  ∃ out doc,
    convert_one sample_str sample_disk
      (Pathlib.Path ["2019"] "2019_female_RoadStd.xlsx") = Ok (out, doc)
    ∧ out = Pathlib.Path ["2019"] "2019_female_RoadStd.json".
Proof.
  eexists _, _. split; [vm_compute; reflexivity |].
  eapply (convert_one_out_path sample_str sample_disk ["2019"]
            "2019_female_RoadStd" "xlsx"); [done | done | reflexivity |].
  vm_compute. reflexivity.
Defined.

Lemma main_stops_at_first_failure_witness :
  ∃ od e,
    convert_one sample_str sample_disk file_a = Ok od
    ∧ main sample_str sample_disk [file_b; file_a] [file_c; file_notes]
      = Run [Found 3; ok_line file_a od; FailLine file_b e] [od]
          (Err (Raised e)).
Proof.
  eexists _, _. split; [vm_compute; reflexivity |].
  apply (main_stops_at_first_failure sample_str sample_disk
           [file_b; file_a] [file_c; file_notes] [file_a] file_b [file_c]
           [_] _).
  - vm_compute. reflexivity.
  - constructor; [vm_compute; reflexivity | constructor].
  - vm_compute. reflexivity.
Defined.

Lemma main_converts_all_witness :
  ∃ oa ob oc,
    main sample_str (fun _ => sample_workbook) [file_b; file_a]
      [file_c; file_notes]
    = Run [Found 3; ok_line file_a oa; ok_line file_b ob; ok_line file_c oc]
        [oa; ob; oc] (Ok tt).
Proof.
  eexists _, _, _.
  apply (main_converts_all sample_str (fun _ => sample_workbook)
           [file_b; file_a] [file_c; file_notes] [_; _; _]).
  - vm_compute. discriminate.
  - change (Pathlib.sorted
              (List.filter is_roadstd ([file_b; file_a] ++ [file_c; file_notes])))
      with [file_a; file_b; file_c].
    constructor; [vm_compute; reflexivity |].
    constructor; [vm_compute; reflexivity |].
    constructor; [vm_compute; reflexivity | constructor].
Defined.

(** ** The order of the files *)

Section PathOrder.

Lemma str_ltb_leb (a b : string) : String.ltb a b = negb (String.leb b a).
Proof.
  unfold String.ltb, String.leb. rewrite (String.compare_antisym a b).
  by destruct (String.compare b a).
Qed.

Lemma str_lt_irrefl (a : string) : String.ltb a a = false.
Proof.
  rewrite str_ltb_leb. apply negb_false_iff.
  apply Is_true_true. by apply (reflexivity (R:=String.le)).
Qed.

Lemma str_lt_trans (a b c : string) :
  String.ltb a b = true → String.ltb b c = true → String.ltb a c = true.
Proof.
  rewrite !str_ltb_leb, !negb_true_iff. intros Hba Hcb.
  destruct (String.leb c a) eqn:Hca; [| done].
  assert (Hab : String.le a b).
  { destruct (total String.le a b) as [? | H]; [done |].
    apply Is_true_true in H. congruence. }
  assert (String.le c b) as H%Is_true_true; [| congruence].
  etrans; [apply Is_true_true; exact Hca | exact Hab].
Qed.

Lemma str_trichotomy (a b : string) :
  String.ltb a b = false → String.ltb b a = false → a = b.
Proof.
  rewrite !str_ltb_leb, !negb_false_iff. intros Hba Hab.
  apply (anti_symm String.le); by apply Is_true_true.
Qed.

Lemma parts_lt_irrefl (a : list string) : Pathlib.parts_lt a a = false.
Proof. induction a as [|x a IH]; [done |]. simpl. by rewrite String.eqb_refl. Qed.

Lemma parts_lt_trans (a b c : list string) :
  Pathlib.parts_lt a b = true → Pathlib.parts_lt b c = true →
  Pathlib.parts_lt a c = true.
Proof.
  revert b c. induction a as [|x a IH]; intros [|y b] [|z c]; try done.
  simpl. destruct (String.eqb_spec x y) as [-> | Hxy].
  - destruct (String.eqb_spec y z) as [-> | Hyz]; [apply IH | done].
  - destruct (String.eqb_spec y z) as [-> | Hyz].
    + intros Hlt _. destruct (String.eqb_spec x z); [done | done].
    + intros H1 H2. pose proof (str_lt_trans _ _ _ H1 H2) as H3.
      destruct (String.eqb_spec x z) as [-> | _]; [| done].
      by rewrite str_lt_irrefl in H3.
Qed.

Lemma parts_trichotomy (a b : list string) :
  Pathlib.parts_lt a b = false → Pathlib.parts_lt b a = false → a = b.
Proof.
  revert b. induction a as [|x a IH]; intros [|y b]; try done.
  simpl. rewrite (String.eqb_sym y x).
  destruct (String.eqb_spec x y) as [-> | Hxy].
  - intros H1 H2. f_equal. by apply IH.
  - intros H1 H2. destruct Hxy. by apply str_trichotomy.
Qed.

Lemma path_lt_irrefl (p : Pathlib.path) : Pathlib.lt p p = false.
Proof. apply parts_lt_irrefl. Qed.

Lemma path_lt_trans (p q r : Pathlib.path) :
  Pathlib.lt p q = true → Pathlib.lt q r = true → Pathlib.lt p r = true.
Proof. apply parts_lt_trans. Qed.

Lemma path_lt_asym (p q : Pathlib.path) :
  Pathlib.lt p q = true → Pathlib.lt q p = false.
Proof.
  intros H. destruct (Pathlib.lt q p) eqn:E; [| done].
  by rewrite <- (path_lt_irrefl p), (path_lt_trans p q p).
Qed.

Lemma path_lt_trichotomy (p q : Pathlib.path) :
  Pathlib.lt p q = false → Pathlib.lt q p = false → p = q.
Proof.
  intros H1 H2. pose proof (parts_trichotomy _ _ H1 H2) as H.
  unfold Pathlib.parts in H. destruct p as [d n], q as [d' n']. simpl in H.
  apply app_inj_tail in H as [-> ->]. done.
Qed.

(** Two insertions in either order give the same list. *)
Lemma insert_comm (p q : Pathlib.path) (l : list Pathlib.path) :
  Pathlib.insert p (Pathlib.insert q l) = Pathlib.insert q (Pathlib.insert p l).
Proof.
  assert (Hpair : ∀ l',
    (if Pathlib.lt p q then p :: q :: l' else q :: p :: l')
    = (if Pathlib.lt q p then q :: p :: l' else p :: q :: l')).
  { intros l'. destruct (Pathlib.lt p q) eqn:Hpq.
    - by rewrite (path_lt_asym _ _ Hpq).
    - destruct (Pathlib.lt q p) eqn:Hqp; [done |].
      by rewrite (path_lt_trichotomy _ _ Hpq Hqp). }
  induction l as [|x l IH].
  - simpl. apply Hpair.
  - cbn [Pathlib.insert].
    destruct (Pathlib.lt q x) eqn:Hq, (Pathlib.lt p x) eqn:Hp;
      cbn [Pathlib.insert]; rewrite ?Hq, ?Hp.
    + apply Hpair.
    + assert (Pathlib.lt p q = false) as ->; [| done].
      destruct (Pathlib.lt p q) eqn:Hpq; [| done].
      by rewrite (path_lt_trans _ _ _ Hpq Hq) in Hp.
    + assert (Pathlib.lt q p = false) as ->; [| done].
      destruct (Pathlib.lt q p) eqn:Hqp; [| done].
      by rewrite (path_lt_trans _ _ _ Hqp Hp) in Hq.
    + by rewrite IH.
Qed.

(** [sorted] does not depend on the order of its input. *)
Lemma sorted_Permutation (l l' : list Pathlib.path) :
  l ≡ₚ l' → Pathlib.sorted l = Pathlib.sorted l'.
Proof.
  unfold Pathlib.sorted. intros H. generalize (@nil Pathlib.path).
  induction H as [| x l l' _ IH | x y l | l l' l'' _ IH1 _ IH2]; intros acc; simpl.
  - done.
  - apply IH.
  - by rewrite insert_comm.
  - by rewrite IH1, IH2.
Qed.

Lemma filter_perm {A} (f : A → bool) (l l' : list A) :
  l ≡ₚ l' → List.filter f l ≡ₚ List.filter f l'.
Proof.
  induction 1 as [| x l l' _ IH | x y l | l l' l'' _ IH1 _ IH2]; simpl.
  - done.
  - destruct (f x); by rewrite IH.
  - destruct (f x), (f y); try done. apply perm_swap.
  - by rewrite IH1, IH2.
Qed.

End PathOrder.

Section DriverOrder.

Variable obj_str : cell → string.
Variable open_workbook : Pathlib.path → workbook.

(** X24. What the driver prints, writes and ends with does not depend on
    the order in which the two searches yield the files. *)
Theorem main_order_independent (xls xlsx xls' xlsx' : list Pathlib.path) :
  xls ++ xlsx ≡ₚ xls' ++ xlsx' →
  main obj_str open_workbook xls xlsx = main obj_str open_workbook xls' xlsx'.
Proof.
  intros H%(filter_perm is_roadstd). unfold main. cbv zeta.
  rewrite (sorted_Permutation _ _ H).
  pose proof (Permutation_length H) as Hlen.
  destruct (List.filter is_roadstd (xls ++ xlsx)) as [|p l],
    (List.filter is_roadstd (xls' ++ xlsx')) as [|p' l']; try done.
  by rewrite Hlen.
Qed.

End DriverOrder.

Lemma main_order_independent_witness :
  main sample_str sample_disk [file_a; file_b] [file_c]
  = main sample_str sample_disk [file_b; file_a] [file_c].
Proof.
  apply (main_order_independent sample_str sample_disk
           [file_a; file_b] [file_c] [file_b; file_a] [file_c]).
  simpl. apply perm_swap.
Defined.

(** ** Times of day *)

Section TimesOfDay.

Lemma is_value_spec (f : float) (z : Z) : is_value f z = true → IsValue f z.
Proof.
  unfold is_value, IsValue. destruct (Prim2SF f) as [s | s | | s m e]; try done.
  - by intros ?%Z.eqb_eq.
  - by intros ?%Z.eqb_eq.
Qed.

Lemma all_exact_from_spec (z : Z) (n : nat) :
  all_exact_from z n = true →
  ∀ k, z ≤ k < z + Z.of_nat n → IsValue (Py.Z2float k + zero)%float k.
Proof.
  revert z. induction n as [|n IH]; intros z; simpl; [lia |].
  intros [Hz Hrest]%andb_true_iff k Hk.
  destruct (decide (k = z)) as [-> |]; [by apply is_value_spec |].
  apply (IH (z + 1)); [done | lia].
Qed.

Lemma seconds_of_day_range (t : pytime) : 0 ≤ seconds_of_day t < 86400.
Proof.
  destruct t as [h m sc us Hok]. unfold seconds_of_day.
  cbn [hour minute second]. unfold in_range in Hok.
  rewrite !andb_true_iff in Hok. lia.
Qed.

(** X25. For a time of day the time transform returns, without raising,
    the whole seconds since midnight plus the microseconds divided by a
    million; a datetime gives what its time of day gives, whatever its
    date; and without microseconds the result is exactly the whole
    seconds [hour * 3600 + minute * 60 + second]. *)
Theorem hms_to_seconds_time_of_day (t : pytime) :
  hms_to_seconds (Scalar (CTime t))
  = Ok (JFloat (Py.Z2float (seconds_of_day t)
                + Py.int_truediv (microsecond t) 1000000)%float)
  ∧ hms_to_seconds (Scalar (CDatetime t)) = hms_to_seconds (Scalar (CTime t))
  ∧ (microsecond t = 0 →
     IsValue (Py.Z2float (seconds_of_day t)
              + Py.int_truediv (microsecond t) 1000000)%float
       (seconds_of_day t)).
Proof.
  pose proof (seconds_of_day_range t) as Hrange.
  split; [| split; [done |]].
  - unfold hms_to_seconds. cbn [isna_truth isna mbind result_bind].
    unfold time_of_day_seconds, int_add_float, Py.float_of_int.
    fold (seconds_of_day t). by rewrite day_seconds_finite.
  - intros ->. cbn [Py.int_truediv].
    apply (all_exact_from_spec 0 (Z.to_nat 86400)); [by vm_compute | lia].
Qed.

End TimesOfDay.
